(** * Inside-bar breakout analyzer: a shallow embedding of [app7.py]

    The development follows the pattern-detection, zone-classification and
    outcome-labelling core of [src/app7.py]:
    [classify_wick_profile], [detect_zones], [classify_zone],
    [detect_setups], [detect_setups_with_diagnostics] and the zone join of
    [enrich_setups].

    Numbers.  Prices are the finite floats of a cleaned OHLC frame and are
    modelled as exact rationals [Q]; the model evaluates exactly the
    expressions the code evaluates in doubles, and signed zeros are not
    modelled.  Comparisons of raw prices are the same in both.  Where a
    statement relates a value the code has computed or rounded for
    storage to an exact quantity, it is stated with room for the
    rounding of doubles ([ulp], [slack], [rounded_to], [clearly_within]
    below), so that it holds of the stored double as well.  The
    non-finite values the code produces and tests for (the [NaN] of
    [shift(1)], [rolling(14).mean()] and [replace(0, np.nan)], the
    [float('inf')] that seeds the nearest-zone search) are kept: a float
    that may be non-finite has type [fl].  Equality of rationals is
    [==]; all comparisons the code makes are boolean functions.

    Faults.  A Python exception is a [Raise] in the result type [res]:
    [df.iloc] outside the frame raises [IndexError], a division of Python
    floats by zero raises [ZeroDivisionError], a missing dictionary key
    raises [KeyError]. *)

From Stdlib Require Import QArith Qabs Qround ZArith List Bool Lia Lqa.
From Stdlib Require Import Sorted.
From Stdlib Require String.
Import String.StringSyntax.
Delimit Scope string_scope with string.
Import ListNotations.

Local Open Scope Q_scope.

(* ================================================================== *)
(** ** Rationals as finite floats *)
(* ================================================================== *)

(** [a < b] on finite floats. *)
Definition Qltb (a b : Q) : bool :=
  match a ?= b with Lt => true | _ => false end.

(** Python's builtin [max(a, b)] and [min(a, b)]: the first argument is
    kept unless the second is strictly better. *)
Definition py_max (a b : Q) : Q := if Qltb a b then b else a.
Definition py_min (a b : Q) : Q := if Qltb b a then b else a.

(** Round half to even to an integer, then [round(x, ndigits)]. *)
Definition round_half_even (x : Q) : Z :=
  let f := Qfloor x in
  match Qcompare (x - inject_Z f) (1 # 2) with
  | Lt => f
  | Gt => (f + 1)%Z
  | Eq => if Z.even f then f else (f + 1)%Z
  end.

Definition pow10 (n : nat) : Q := inject_Z (10 ^ Z.of_nat n).

Definition py_round (x : Q) (ndigits : nat) : Q :=
  inject_Z (round_half_even (x * pow10 ndigits)) / pow10 ndigits.

(* ================================================================== *)
(** ** Floats that may be non-finite *)
(* ================================================================== *)

Inductive fl : Type :=
| Fin (q : Q)
| PInf
| NInf
| NaN.

(** [pd.isna] *)
Definition isna (x : fl) : bool :=
  match x with NaN => true | _ => false end.

(** IEEE comparisons: every comparison with [NaN] is false. *)
Definition fl_ltb (x y : fl) : bool :=
  match x, y with
  | Fin a, Fin b => Qltb a b
  | Fin _, PInf | NInf, Fin _ | NInf, PInf => true
  | _, _ => false
  end.

Definition fl_leb (x y : fl) : bool :=
  match x, y with
  | Fin a, Fin b => Qle_bool a b
  | Fin _, PInf | NInf, Fin _ | NInf, PInf | PInf, PInf | NInf, NInf => true
  | _, _ => false
  end.

Definition fl_gtb (x y : fl) : bool := fl_ltb y x.
Definition fl_geb (x y : fl) : bool := fl_leb y x.

Definition fl_eqb (x y : fl) : bool :=
  match x, y with
  | Fin a, Fin b => Qeq_bool a b
  | PInf, PInf | NInf, NInf => true
  | _, _ => false
  end.

Definition inf_of_sign (c : comparison) : fl :=
  match c with Gt => PInf | Lt => NInf | Eq => NaN end.

Definition fl_sub (x y : fl) : fl :=
  match x, y with
  | NaN, _ | _, NaN => NaN
  | Fin a, Fin b => Fin (a - b)
  | PInf, PInf | NInf, NInf => NaN
  | PInf, _ | _, NInf => PInf
  | NInf, _ | _, PInf => NInf
  end.

Definition fl_abs (x : fl) : fl :=
  match x with
  | Fin a => Fin (Qabs a)
  | PInf | NInf => PInf
  | NaN => NaN
  end.

Definition fl_mul (x y : fl) : fl :=
  match x, y with
  | NaN, _ | _, NaN => NaN
  | Fin a, Fin b => Fin (a * b)
  | PInf, Fin b | Fin b, PInf => inf_of_sign (b ?= 0)
  | NInf, Fin b | Fin b, NInf => inf_of_sign (0 ?= b)
  | PInf, PInf | NInf, NInf => PInf
  | PInf, NInf | NInf, PInf => NInf
  end.

(** numpy's float division: a zero divisor gives an infinity or [NaN],
    it does not raise. *)
Definition fl_div (x y : fl) : fl :=
  match x, y with
  | NaN, _ | _, NaN => NaN
  | Fin a, Fin b => if Qeq_bool b 0 then inf_of_sign (a ?= 0) else Fin (a / b)
  | Fin _, _ => Fin 0
  | PInf, Fin b => if Qltb b 0 then NInf else PInf
  | NInf, Fin b => if Qltb b 0 then PInf else NInf
  | _, _ => NaN
  end.

(** [np.maximum]: a [NaN] operand is propagated. *)
Definition fl_maximum (x y : fl) : fl :=
  match x, y with
  | NaN, _ | _, NaN => NaN
  | _, _ => if fl_ltb x y then y else x
  end.

(** Python's builtin [min(a, b)] on floats. *)
Definition fl_min (a b : fl) : fl := if fl_ltb b a then b else a.

(** [round(x, ndigits)]; infinities and [NaN] are returned unchanged. *)
Definition fl_round (x : fl) (ndigits : nat) : fl :=
  match x with Fin a => Fin (py_round a ndigits) | _ => x end.

(* ================================================================== *)
(** ** Results and exceptions *)
(* ================================================================== *)

Inductive exn : Type := IndexError | ZeroDivisionError | KeyError.

Inductive res (A : Type) : Type :=
| Ok (a : A)
| Raise (e : exn).

Arguments Ok {A} a.
Arguments Raise {A} e.

Definition bind {A B : Type} (m : res A) (k : A -> res B) : res B :=
  match m with Ok a => k a | Raise e => Raise e end.

Notation "x <- m ;; k" := (bind m (fun x => k))
  (at level 61, m at next level, right associativity).

(** A [for] loop that threads the loop-carried variables [s]. *)
Fixpoint foldM {A S : Type} (f : S -> A -> res S) (l : list A) (s : S)
  : res S :=
  match l with
  | [] => Ok s
  | x :: xs => s' <- f s x ;; foldM f xs s'
  end.

(** [range(lo, hi)]; empty when [hi <= lo]. *)
Definition py_range (lo hi : nat) : list nat := seq lo (hi - lo).

(** What a loop whose body either appends one record or continues has
    appended after visiting [l], if no iteration raises. *)
Definition collect {A B : Type} (f : A -> res (option B)) (l : list A)
  : list B :=
  flat_map (fun i => match f i with Ok (Some s) => [s] | _ => [] end) l.

(** [a / b] on Python floats. *)
Definition py_div (a b : Q) : res Q :=
  if Qeq_bool b 0 then Raise ZeroDivisionError else Ok (a / b).

(* ================================================================== *)
(** ** Wick classification *)
(* ================================================================== *)

Inductive WickLabel : Type :=
| Doji
| WicksBothSides
| HeavyUpperWick
| HeavyLowerWick
| FullBody
| SlightUpperWick
| SlightLowerWick
| Balanced.

(** The 5-tuple returned by [classify_wick_profile]. *)
Record WickProfile : Type := mkWick {
  wick_label : WickLabel;
  upper_wick_pct : Q;
  lower_wick_pct : Q;
  body_pct : Q;
  is_bullish : bool
}.

Definition classify_wick_profile (open_p close_p high low : Q)
  : res WickProfile :=
  let body_top := py_max open_p close_p in
  let body_bot := py_min open_p close_p in
  let total_range := high - low in
  if Qeq_bool total_range 0 then
    Ok (mkWick Doji 0 0 0 (Qle_bool open_p close_p))
  else
    let upper_wick := high - body_top in
    let lower_wick := body_bot - low in
    let body := body_top - body_bot in
    u <- py_div upper_wick total_range ;;
    l <- py_div lower_wick total_range ;;
    b <- py_div body total_range ;;
    let upper_pct := u * 100 in
    let lower_pct := l * 100 in
    let body_pct := b * 100 in
    let is_bullish := Qltb open_p close_p in
    let label :=
      if Qltb body_pct 10 then Doji
      else if Qltb 30 upper_pct && Qltb 30 lower_pct then WicksBothSides
      else if Qltb (lower_pct * 2) upper_pct && Qltb 20 upper_pct
           then HeavyUpperWick
      else if Qltb (upper_pct * 2) lower_pct && Qltb 20 lower_pct
           then HeavyLowerWick
      else if Qltb 75 body_pct then FullBody
      else if Qltb (lower_pct + 5) upper_pct then SlightUpperWick
      else if Qltb (upper_pct + 5) lower_pct then SlightLowerWick
      else Balanced in
    Ok (mkWick label (py_round upper_pct 1) (py_round lower_pct 1)
               (py_round body_pct 1) is_bullish).

Inductive WickBucket : Type :=
| BUpperWick | BLowerWick | BFullBody | BBothWicks | BDoji | BBalanced.

Definition wick_bucket (label : WickLabel) : WickBucket :=
  match label with
  | HeavyUpperWick | SlightUpperWick => BUpperWick
  | HeavyLowerWick | SlightLowerWick => BLowerWick
  | FullBody => BFullBody
  | WicksBothSides => BBothWicks
  | Doji => BDoji
  | Balanced => BBalanced
  end.

(* ================================================================== *)
(** ** Price bars and the derived columns *)
(* ================================================================== *)

(** Timestamps are the frame's [DatetimeIndex], in nanoseconds. *)
Definition Timestamp : Type := Z.

Record Bar : Type := mkBar {
  ts : Timestamp;
  Open : Q;
  High : Q;
  Low : Q;
  Close : Q;
  Volume : Q
}.

(** The PriceBar invariant of the data source. *)
Definition well_formed (b : Bar) : Prop :=
  py_max (Open b) (Close b) <= High b /\ Low b <= py_min (Open b) (Close b).

Definition well_formedb (b : Bar) : bool :=
  Qle_bool (py_max (Open b) (Close b)) (High b)
  && Qle_bool (Low b) (py_min (Open b) (Close b)).

(** [s.shift(1)]: the first entry has no predecessor. *)
Definition shift1 (col : list Q) : list fl :=
  match col with
  | [] => []
  | _ :: _ => NaN :: map Fin (removelast col)
  end.

(** One entry of
    [np.maximum(High-Low, np.maximum(abs(High-prev), abs(Low-prev)))]. *)
Definition true_range (b : Bar) (prev_close : fl) : fl :=
  fl_maximum (Fin (High b - Low b))
    (fl_maximum (fl_abs (fl_sub (Fin (High b)) prev_close))
                (fl_abs (fl_sub (Fin (Low b)) prev_close))).

Definition col_TR (df : list Bar) : list fl :=
  map (fun p => true_range (fst p) (snd p))
      (combine df (shift1 (map Close df))).

(** The finite entries of a window, if all of them are. *)
Fixpoint all_fin (l : list fl) : option (list Q) :=
  match l with
  | [] => Some []
  | Fin q :: t =>
      match all_fin t with Some qs => Some (q :: qs) | None => None end
  | _ :: _ => None
  end.

Definition Qsum (l : list Q) : Q := fold_right Qplus 0 l.

(** [s.rolling(w).mean()] with the default [min_periods = w]: the value
    at [i] is the mean of the [w] entries ending at [i] when there are
    [w] of them and none is missing. *)
Definition rolling_mean (w : nat) (col : list fl) : list fl :=
  map (fun i =>
         if (S i <? w)%nat then NaN
         else match all_fin (firstn w (skipn (S i - w) col)) with
              | Some qs => Fin (Qsum qs / inject_Z (Z.of_nat w))
              | None => NaN
              end)
      (seq 0 (length col)).

Definition col_ATR (df : list Bar) : list fl := rolling_mean 14 (col_TR df).

(** [s.replace(0, np.nan)] on one entry. *)
Definition replace0 (x : Q) : fl := if Qeq_bool x 0 then NaN else Fin x.

(** A row of the working copy [df.copy()] with its added columns. *)
Record Row : Type := mkRow {
  bar : Bar;
  Body : Q;
  Range : Q;
  BodyRatio : fl;
  IsBullish : bool;
  TR : fl;
  ATR : fl
}.

Definition mk_row (b : Bar) (tr atr : fl) : Row :=
  let body := Qabs (Close b - Open b) in
  let range := High b - Low b in
  mkRow b body range (fl_div (Fin body) (replace0 range))
        (Qltb (Open b) (Close b)) tr atr.

(** The columns [Body], [Range], [BodyRatio], [IsBullish], [TR], [ATR];
    each of the three scanning functions recomputes the ones it needs
    with the same expressions. *)
Definition frame (df : list Bar) : list Row :=
  map (fun p => mk_row (fst p) (fst (snd p)) (snd (snd p)))
      (combine df (combine (col_TR df) (col_ATR df))).

(** [df.iloc[i]] *)
Definition iloc {A : Type} (rows : list A) (i : nat) : res A :=
  match nth_error rows i with
  | Some r => Ok r
  | None => Raise IndexError
  end.

(* ================================================================== *)
(** ** Zones *)
(* ================================================================== *)

Inductive ZoneType : Type := supply | demand.

Record Zone : Type := mkZone {
  zone_datetime : Timestamp;
  zone_top : Q;
  zone_bottom : Q;
  zone_type : ZoneType;
  strength : fl;
  origin_body : Q;
  origin_range : Q
}.

(** The body of the loop of [detect_zones] for the row [r]. *)
Definition zone_of_row (zone_atr_min : Q) (r : Row) : option Zone :=
  if isna (ATR r) || fl_eqb (ATR r) (Fin 0)
     || fl_ltb (Fin (Body r)) (fl_mul (ATR r) (Fin zone_atr_min))
  then None
  else
    let strength := fl_div (Fin (Body r)) (ATR r) in
    let b := bar r in
    if IsBullish r then
      Some (mkZone (ts b) (Open b) (Low b) demand (fl_round strength 2)
                   (Body r) (High b - Low b))
    else
      Some (mkZone (ts b) (High b) (Open b) supply (fl_round strength 2)
                   (Body r) (High b - Low b)).

(** The body of [for i in range(20, len(df))]: [Ok None] is a [continue],
    [Ok (Some z)] is [zones.append(z)]. *)
Definition zone_at (rows : list Row) (zone_atr_min : Q) (i : nat)
  : res (option Zone) :=
  r <- iloc rows i ;;
  Ok (zone_of_row zone_atr_min r).

Definition detect_zones (df : list Bar) (zone_atr_min : Q)
  : res (list Zone) :=
  let rows := frame df in
  foldM (fun zones i =>
           o <- zone_at rows zone_atr_min i ;;
           Ok (match o with Some z => zones ++ [z] | None => zones end))
        (py_range 20 (length rows)) [].

Inductive ZoneClass : Type := neutral | at_supply | at_demand | contested.

Inductive ProximityBand : Type :=
| NoZone | InsideZone | Touching | VeryClose | Near | Moderate | Far.

(** The dictionary returned by [classify_zone]. *)
Record ZoneInfo : Type := mkZoneInfo {
  zone : ZoneClass;
  zone_dist_pct : option fl;
  zone_strength : option fl;
  nearest_zone_type : option ZoneType;
  nearest_zone_top : option Q;
  nearest_zone_bottom : option Q;
  zone_proximity_band : ProximityBand
}.

Definition no_zone_info : ZoneInfo :=
  mkZoneInfo neutral None None None None None NoZone.

(** [pd.Timedelta(hours=h)] in nanoseconds. *)
Definition hours (h : Z) : Z := (h * 3600000000000)%Z.

(** [zones_df[(zones_df['datetime']>=cutoff)&(zones_df['datetime']<dt)]] *)
Definition recent_zones (dt : Timestamp) (lookback_hours : Z)
  (zones_df : list Zone) : list Zone :=
  let cutoff := (dt - hours lookback_hours)%Z in
  filter (fun z => (cutoff <=? zone_datetime z)%Z
                   && (zone_datetime z <? dt)%Z) zones_df.

(** Distance from [price] to the nearest edge of [z], as a fraction of
    [price].  The code divides Python floats here, which raises for a
    price of zero; the statements about [classify_zone] are for a
    positive price, where the quotient below is the one of the code. *)
Definition zone_dist (price : Q) (z : Zone) : fl :=
  if Qle_bool (zone_bottom z) price && Qle_bool price (zone_top z) then
    Fin 0
  else
    let dist_top := fl_div (Fin (Qabs (price - zone_top z))) (Fin price) in
    let dist_bot := fl_div (Fin (Qabs (price - zone_bottom z))) (Fin price) in
    fl_min dist_top dist_bot.

(** The absolute distance from [price] to the nearest edge of [z], zero
    inside the zone: the quantity a threshold on [zone_dist] bounds once
    it is multiplied by the price. *)
Definition edge_distance (price : Q) (z : Zone) : Q :=
  if Qle_bool (zone_bottom z) price && Qle_bool price (zone_top z) then 0
  else py_min (Qabs (price - zone_top z)) (Qabs (price - zone_bottom z)).

(** [dist_pct <= proximity_pct] for the zone [z]. *)
Definition near (price q : Q) (z : Zone) : bool :=
  fl_leb (zone_dist price z) (Fin q).

(** The loop-carried variables of the scan over the recent zones. *)
Record ZoneScan : Type := mkZoneScan {
  near_s : bool;
  near_d : bool;
  min_dist_pct : fl;
  nearest : option Zone
}.

Definition zone_scan_step (price proximity_pct : Q) (st : ZoneScan)
  (z : Zone) : ZoneScan :=
  let dist_pct := zone_dist price z in
  let closer := fl_ltb dist_pct (min_dist_pct st) in
  let min_dist' := if closer then dist_pct else min_dist_pct st in
  let nearest' := if closer then Some z else nearest st in
  if fl_leb dist_pct (Fin proximity_pct) then
    match zone_type z with
    | supply => mkZoneScan true (near_d st) min_dist' nearest'
    | demand => mkZoneScan (near_s st) true min_dist' nearest'
    end
  else mkZoneScan (near_s st) (near_d st) min_dist' nearest'.

Definition zone_scan (price proximity_pct : Q) (recent : list Zone)
  : ZoneScan :=
  fold_left (zone_scan_step price proximity_pct) recent
            (mkZoneScan false false PInf None).

Definition proximity_band (d : fl) : ProximityBand :=
  if fl_eqb d (Fin 0) then InsideZone
  else if fl_leb d (Fin (1 # 1000)) then Touching
  else if fl_leb d (Fin (3 # 1000)) then VeryClose
  else if fl_leb d (Fin (6 # 1000)) then Near
  else if fl_leb d (Fin (1 # 100)) then Moderate
  else Far.

Definition classify_zone (dt : Timestamp) (price : Q) (zones_df : list Zone)
  (lookback_hours : Z) (proximity_pct : Q) : ZoneInfo :=
  match zones_df with
  | [] => no_zone_info
  | _ :: _ =>
      match recent_zones dt lookback_hours zones_df with
      | [] => no_zone_info
      | recent =>
          let st := zone_scan price proximity_pct recent in
          let zone_label :=
            if near_s st && near_d st then contested
            else if near_s st then at_supply
            else if near_d st then at_demand
            else neutral in
          let prox_band := proximity_band (min_dist_pct st) in
          let dist := Some (fl_round (fl_mul (min_dist_pct st) (Fin 100)) 3) in
          match nearest st with
          | Some z =>
              mkZoneInfo zone_label dist (Some (strength z))
                         (Some (zone_type z)) (Some (zone_top z))
                         (Some (zone_bottom z)) prox_band
          | None =>
              mkZoneInfo zone_label dist None None None None prox_band
          end
      end
  end.

(* ================================================================== *)
(** ** Pattern detection *)
(* ================================================================== *)

Inductive Direction : Type := LONG | SHORT.

(** The values ['SL'] and ['1R'] of [first_hit]. *)
Inductive FirstHit : Type := HitSL | Hit1R.

(** The dictionary built by the local function [candle_result].  For a
    missing candle it has the keys [close_r], [high_r], [low_r] and
    [followed], all [None]; otherwise [close_r], [mfe_r], [mae_r] and
    [followed]. *)
Inductive CandleRes : Type :=
| NoCandle
| CandleStats (close_r mfe_r mae_r : Q) (followed : bool).

(** [risk_px] is positive at every call (the caller has passed the guard
    [if risk <= 0: continue]), so the quotients are finite. *)
Definition candle_result (candle : option Row) (entry_px risk_px : Q)
  (d : Direction) : CandleRes :=
  match candle with
  | None => NoCandle
  | Some c =>
      let b := bar c in
      match d with
      | LONG =>
          let close_r := (Close b - entry_px) / risk_px in
          let high_r := (High b - entry_px) / risk_px in
          let low_r := (entry_px - Low b) / risk_px in
          CandleStats (py_round close_r 3) (py_round (py_max 0 high_r) 3)
                      (py_round (py_max 0 low_r) 3)
                      (Qltb entry_px (Close b))
      | SHORT =>
          let close_r := (entry_px - Close b) / risk_px in
          let high_r := (entry_px - Low b) / risk_px in
          let low_r := (High b - entry_px) / risk_px in
          CandleStats (py_round close_r 3) (py_round (py_max 0 high_r) 3)
                      (py_round (py_max 0 low_r) 3)
                      (Qltb (Close b) entry_px)
      end
  end.

(** [r['close_r']], [r['mfe_r']], [r['mae_r']], [r['followed']] *)
Definition get_close_r (r : CandleRes) : option Q :=
  match r with NoCandle => None | CandleStats x _ _ _ => Some x end.

Definition get_mfe_r (r : CandleRes) : res Q :=
  match r with NoCandle => Raise KeyError | CandleStats _ x _ _ => Ok x end.

Definition get_mae_r (r : CandleRes) : res Q :=
  match r with NoCandle => Raise KeyError | CandleStats _ _ x _ => Ok x end.

Definition get_followed (r : CandleRes) : option bool :=
  match r with NoCandle => None | CandleStats _ _ _ f => Some f end.

(** The loop-carried variables of the outcome simulation. *)
Module Sim.

Record t : Type := mk {
  hit_1r : bool;
  hit_15r : bool;
  hit_2r : bool;
  hit_sl : bool;
  first_hit : option FirstHit;
  mfe : Q;
  mae : Q
}.

Definition init : t := mk false false false false None 0 0.

End Sim.

(** The touch tests of the simulation loop, by direction. *)
Definition sl_touch (d : Direction) (sl : Q) (b : Bar) : bool :=
  match d with
  | LONG => Qle_bool (Low b) sl
  | SHORT => Qle_bool sl (High b)
  end.

Definition r1_touch (d : Direction) (entry risk : Q) (b : Bar) : bool :=
  match d with
  | LONG => Qle_bool (entry + risk) (High b)
  | SHORT => Qle_bool (Low b) (entry - risk)
  end.

Definition r15_touch (d : Direction) (entry risk : Q) (b : Bar) : bool :=
  match d with
  | LONG => Qle_bool (entry + (3 # 2) * risk) (High b)
  | SHORT => Qle_bool (Low b) (entry - (3 # 2) * risk)
  end.

Definition r2_touch (d : Direction) (entry risk : Q) (b : Bar) : bool :=
  match d with
  | LONG => Qle_bool (entry + 2 * risk) (High b)
  | SHORT => Qle_bool (Low b) (entry - 2 * risk)
  end.

(** [if first_hit is None: first_hit = h] *)
Definition set_first (fh : option FirstHit) (h : FirstHit)
  : option FirstHit :=
  match fh with None => Some h | Some _ => fh end.

(** One iteration of [for j in range(i+3, min(i+23, len(df)))] on the
    candle [c = df.iloc[j]]: the stop-loss test comes first, then 1R. *)
Definition sim_step (d : Direction) (entry sl risk : Q) (st : Sim.t)
  (c : Row) : Sim.t :=
  let b := bar c in
  let fav := match d with
             | LONG => (High b - entry) / risk
             | SHORT => (entry - Low b) / risk
             end in
  let adv := match d with
             | LONG => (entry - Low b) / risk
             | SHORT => (High b - entry) / risk
             end in
  let mfe := py_max (Sim.mfe st) fav in
  let mae := py_max (Sim.mae st) adv in
  let after_sl :=
    if sl_touch d sl b && negb (Sim.hit_sl st)
    then (true, set_first (Sim.first_hit st) HitSL)
    else (Sim.hit_sl st, Sim.first_hit st) in
  let after_1r :=
    if r1_touch d entry risk b && negb (Sim.hit_1r st)
    then (true, set_first (snd after_sl) Hit1R)
    else (Sim.hit_1r st, snd after_sl) in
  let hit_15r := if r15_touch d entry risk b then true else Sim.hit_15r st in
  let hit_2r := if r2_touch d entry risk b then true else Sim.hit_2r st in
  Sim.mk (fst after_1r) hit_15r hit_2r (fst after_sl) (snd after_1r) mfe mae.

Definition simulate (rows : list Row) (i : nat) (d : Direction)
  (entry sl risk : Q) : res Sim.t :=
  foldM (fun st j => c <- iloc rows j ;; Ok (sim_step d entry sl risk st c))
        (py_range (i + 3) (Nat.min (i + 23) (length rows))) Sim.init.

(** The candles of the lookahead window of anchor [i]: positions
    [i+3 .. min(i+23, len) - 1]. *)
Definition lookahead {A : Type} (rows : list A) (i : nat) : list A :=
  firstn (Nat.min (i + 23) (length rows) - (i + 3)) (skipn (i + 3) rows).

(** Any touch of the stop or of 1R on the candle. *)
Definition touches (d : Direction) (entry sl risk : Q) (b : Bar) : bool :=
  sl_touch d sl b || r1_touch d entry risk b.

(** One record of the list [setups].  The keys [c1_open] ... [c1_atr] are
    the fields of the row [c1]; [c1_bullish], [c1_wick_label] and the
    three percentages are the fields of [c1_wick]; likewise for [c2];
    [c3_open] ... [c6_low] are the fields of the bars [c3] ... [c6].  The
    display strings [c1_color], [c2_color] and [scenario_key] are
    functions of [c1_wick], [c2_wick] and the buckets and are left out,
    and so is [follow_count], which counts the entries of [followed] that
    are the object [True] (an identity test on numpy booleans). *)
Record Setup : Type := mkSetup {
  datetime : Timestamp;
  c1 : Row;
  c1_wick : WickProfile;
  c1_wick_bucket : WickBucket;
  c2 : Bar;
  c2_wick : WickProfile;
  c2_wick_bucket : WickBucket;
  c3 : Bar;
  c3_bullish : bool;
  c3_breakout_margin : Q;
  c3_breakout_margin_pct : fl;
  c3_breakout_margin_r : Q;
  direction : Direction;
  entry_price : Q;
  stop_loss : Q;
  risk : Q;
  risk_pct : fl;
  c4_close_r : option Q;
  c4_mfe_r : Q;
  c4_mae_r : Q;
  c4_followed : option bool;
  c4 : Bar;
  c5_close_r : option Q;
  c5_mfe_r : Q;
  c5_mae_r : Q;
  c5_followed : option bool;
  c5 : option Bar;
  c6_close_r : option Q;
  c6_mfe_r : Q;
  c6_mae_r : Q;
  c6_followed : option bool;
  c6 : option Bar;
  hit_1r : bool;
  hit_15r : bool;
  hit_2r : bool;
  hit_sl : bool;
  first_hit : option FirstHit;
  win_1r : bool;
  max_favorable_r : Q;
  max_adverse_r : Q;
  c1_direction_match : bool
}.

(** The C3 gate: [LONG] on a close above C2's high, else [SHORT] on a
    close below C2's low, else no breakout. *)
Definition breakout_direction (c2 c3 : Row) : option Direction :=
  if Qltb (High (bar c2)) (Close (bar c3)) then Some LONG
  else if Qltb (Close (bar c3)) (Low (bar c2)) then Some SHORT
  else None.

Definition stop_of (direction : Direction) (c2 : Row) : Q :=
  match direction with LONG => Low (bar c2) | SHORT => High (bar c2) end.

Definition risk_of (direction : Direction) (entry sl : Q) : Q :=
  match direction with LONG => entry - sl | SHORT => sl - entry end.

Definition direction_eqb (a b : Direction) : bool :=
  match a, b with LONG, LONG | SHORT, SHORT => true | _, _ => false end.

(** [df.iloc[j] if j < len(df) else None] *)
Definition iloc_opt (rows : list Row) (j : nat) : res (option Row) :=
  if (j <? length rows)%nat then r <- iloc rows j ;; Ok (Some r)
  else Ok None.

(** The part of the loop body of [detect_setups] after the risk guard,
    for a candidate that has passed every gate. *)
Definition build_setup (rows : list Row) (i : nat)
  (c1 c2 c3 c4 : Row) (c5 c6 : option Row)
  (direction : Direction) (entry sl risk : Q) : res Setup :=
  let c3_bull := Qltb (Open (bar c3)) (Close (bar c3)) in
  w1 <- classify_wick_profile (Open (bar c1)) (Close (bar c1))
                              (High (bar c1)) (Low (bar c1)) ;;
  w2 <- classify_wick_profile (Open (bar c2)) (Close (bar c2))
                              (High (bar c2)) (Low (bar c2)) ;;
  let c4_res := candle_result (Some c4) entry risk direction in
  let c5_res := candle_result c5 entry risk direction in
  let c6_res := candle_result c6 entry risk direction in
  st <- simulate rows i direction entry sl risk ;;
  let win :=
    match Sim.first_hit st with
    | Some Hit1R => Sim.hit_1r st
    | Some HitSL => false
    | None => match get_close_r c4_res with
              | Some x => Qltb 0 x
              | None => false
              end
    end in
  let breakout_margin :=
    match direction with
    | LONG => Close (bar c3) - High (bar c2)
    | SHORT => Low (bar c2) - Close (bar c3)
    end in
  let breakout_margin_pct :=
    fl_mul (fl_div (Fin breakout_margin) (Fin entry)) (Fin 100) in
  let breakout_margin_r :=
    if Qltb 0 risk then breakout_margin / risk else 0 in
  let c1wb := wick_bucket (wick_label w1) in
  let c2wb := wick_bucket (wick_label w2) in
  c4_mfe <- get_mfe_r c4_res ;;
  c4_mae <- get_mae_r c4_res ;;
  c5_mfe <- get_mfe_r c5_res ;;
  c5_mae <- get_mae_r c5_res ;;
  c6_mfe <- get_mfe_r c6_res ;;
  c6_mae <- get_mae_r c6_res ;;
  Ok (mkSetup (ts (bar c1)) c1 w1 c1wb (bar c2) w2 c2wb (bar c3) c3_bull
        (py_round breakout_margin 2) (fl_round breakout_margin_pct 3)
        (py_round breakout_margin_r 3)
        direction entry sl risk
        (fl_mul (fl_div (Fin risk) (Fin entry)) (Fin 100))
        (get_close_r c4_res) c4_mfe c4_mae (get_followed c4_res) (bar c4)
        (get_close_r c5_res) c5_mfe c5_mae (get_followed c5_res)
        (option_map bar c5)
        (get_close_r c6_res) c6_mfe c6_mae (get_followed c6_res)
        (option_map bar c6)
        (Sim.hit_1r st) (Sim.hit_15r st) (Sim.hit_2r st) (Sim.hit_sl st)
        (Sim.first_hit st) win (Sim.mfe st) (Sim.mae st)
        (eqb (is_bullish w1) (direction_eqb direction LONG))).

(** The body of [for i in range(14, len(df) - 6)]: [Ok None] is a
    [continue], [Ok (Some s)] is [setups.append(s)]. *)
Definition scan_anchor (rows : list Row) (body_ratio_thresh atr_mult : Q)
  (i : nat) : res (option Setup) :=
  c1 <- iloc rows i ;;
  c2 <- iloc rows (i + 1) ;;
  c3 <- iloc rows (i + 2) ;;
  c4 <- iloc rows (i + 3) ;;
  c5 <- iloc_opt rows (i + 4) ;;
  c6 <- iloc_opt rows (i + 5) ;;
  if isna (ATR c1) || fl_eqb (ATR c1) (Fin 0) then Ok None
  else if fl_ltb (BodyRatio c1) (Fin body_ratio_thresh) then Ok None
  else if fl_ltb (Fin (Body c1)) (fl_mul (ATR c1) (Fin atr_mult))
       then Ok None
  else if negb (Qle_bool (High (bar c2)) (High (bar c1))
                && Qle_bool (Low (bar c1)) (Low (bar c2)))
       then Ok None
  else
    match breakout_direction c2 c3 with
    | None => Ok None
    | Some direction =>
        let entry := Close (bar c3) in
        let sl := stop_of direction c2 in
        let risk := risk_of direction entry sl in
        if Qle_bool risk 0 then Ok None
        else
          s <- build_setup rows i c1 c2 c3 c4 c5 c6 direction entry sl risk ;;
          Ok (Some s)
    end.

Definition detect_setups (df : list Bar) (body_ratio_thresh atr_mult : Q)
  : res (list Setup) :=
  if (length df <? 20)%nat then Ok []
  else
    let rows := frame df in
    foldM (fun setups i =>
             o <- scan_anchor rows body_ratio_thresh atr_mult i ;;
             Ok (match o with Some s => setups ++ [s] | None => setups end))
          (py_range 14 (length rows - 6)) [].

(** C4's close in risk units, signed by the direction of the trade,
    before [candle_result] rounds it to three decimals. *)
Definition c4_close_in_r (s : Setup) : Q :=
  match direction s with
  | LONG => (Close (c4 s) - entry_price s) / risk s
  | SHORT => (entry_price s - Close (c4 s)) / risk s
  end.

(* ================================================================== *)
(** ** The diagnostic funnel *)
(* ================================================================== *)

Record Diag : Type := mkDiag {
  total_scanned : nat;
  pass_body_ratio : nat;
  pass_body_atr : nat;
  pass_both_c1 : nat;
  pass_inside_bar : nat;
  pass_c3_breakout : nat;
  pass_valid_risk : nat
}.

Definition diag0 : Diag := mkDiag 0 0 0 0 0 0 0.

(** [diag[key] += 1] for each of the seven keys. *)
Definition inc_total_scanned (d : Diag) : Diag :=
  mkDiag (S (total_scanned d)) (pass_body_ratio d) (pass_body_atr d)
         (pass_both_c1 d) (pass_inside_bar d) (pass_c3_breakout d)
         (pass_valid_risk d).

Definition inc_pass_body_ratio (d : Diag) : Diag :=
  mkDiag (total_scanned d) (S (pass_body_ratio d)) (pass_body_atr d)
         (pass_both_c1 d) (pass_inside_bar d) (pass_c3_breakout d)
         (pass_valid_risk d).

Definition inc_pass_body_atr (d : Diag) : Diag :=
  mkDiag (total_scanned d) (pass_body_ratio d) (S (pass_body_atr d))
         (pass_both_c1 d) (pass_inside_bar d) (pass_c3_breakout d)
         (pass_valid_risk d).

Definition inc_pass_both_c1 (d : Diag) : Diag :=
  mkDiag (total_scanned d) (pass_body_ratio d) (pass_body_atr d)
         (S (pass_both_c1 d)) (pass_inside_bar d) (pass_c3_breakout d)
         (pass_valid_risk d).

Definition inc_pass_inside_bar (d : Diag) : Diag :=
  mkDiag (total_scanned d) (pass_body_ratio d) (pass_body_atr d)
         (pass_both_c1 d) (S (pass_inside_bar d)) (pass_c3_breakout d)
         (pass_valid_risk d).

Definition inc_pass_c3_breakout (d : Diag) : Diag :=
  mkDiag (total_scanned d) (pass_body_ratio d) (pass_body_atr d)
         (pass_both_c1 d) (pass_inside_bar d) (S (pass_c3_breakout d))
         (pass_valid_risk d).

Definition inc_pass_valid_risk (d : Diag) : Diag :=
  mkDiag (total_scanned d) (pass_body_ratio d) (pass_body_atr d)
         (pass_both_c1 d) (pass_inside_bar d) (pass_c3_breakout d)
         (S (pass_valid_risk d)).

(** The body of the loop of [detect_setups_with_diagnostics]. *)
Definition diag_step (rows : list Row) (body_ratio_thresh atr_mult : Q)
  (diag : Diag) (i : nat) : res Diag :=
  c1 <- iloc rows i ;;
  if isna (ATR c1) || fl_eqb (ATR c1) (Fin 0) then Ok diag
  else
    let diag := inc_total_scanned diag in
    let br_pass := fl_geb (BodyRatio c1) (Fin body_ratio_thresh) in
    let atr_pass := fl_geb (Fin (Body c1)) (fl_mul (ATR c1) (Fin atr_mult)) in
    let diag := if br_pass then inc_pass_body_ratio diag else diag in
    let diag := if atr_pass then inc_pass_body_atr diag else diag in
    if negb (br_pass && atr_pass) then Ok diag
    else
      let diag := inc_pass_both_c1 diag in
      c2 <- iloc rows (i + 1) ;;
      if negb (Qle_bool (High (bar c2)) (High (bar c1))
               && Qle_bool (Low (bar c1)) (Low (bar c2)))
      then Ok diag
      else
        let diag := inc_pass_inside_bar diag in
        c3 <- iloc rows (i + 2) ;;
        match breakout_direction c2 c3 with
        | None => Ok diag
        | Some direction =>
            let diag := inc_pass_c3_breakout diag in
            let entry := Close (bar c3) in
            let sl := stop_of direction c2 in
            let risk := risk_of direction entry sl in
            if Qltb 0 risk then Ok (inc_pass_valid_risk diag) else Ok diag
        end.

(** Each stage is counted among the candidates that passed the stage
    before it; the body-ratio and body-size tests are counted side by
    side, each among all scanned candidates. *)
Definition funnel_ok (d : Diag) : Prop :=
  (pass_body_ratio d <= total_scanned d /\
   pass_body_atr d <= total_scanned d /\
   pass_both_c1 d <= pass_body_ratio d /\
   pass_both_c1 d <= pass_body_atr d /\
   pass_inside_bar d <= pass_both_c1 d /\
   pass_c3_breakout d <= pass_inside_bar d /\
   pass_valid_risk d <= pass_c3_breakout d)%nat.

(** The chain of the funnel read as a sequence of nested stages. *)
Definition funnel_monotone (d : Diag) : Prop :=
  (pass_body_ratio d <= total_scanned d /\
   pass_body_atr d <= pass_body_ratio d /\
   pass_both_c1 d <= pass_body_atr d /\
   pass_inside_bar d <= pass_both_c1 d /\
   pass_c3_breakout d <= pass_inside_bar d /\
   pass_valid_risk d <= pass_c3_breakout d)%nat.

(** The body ratio of the row is defined, or the row has no body and the
    size threshold is positive. *)
Definition consistent_row (atr_mult : Q) (r : Row) : Prop :=
  ~ Range r == 0 \/ (Body r == 0 /\ 0 < atr_mult).

Definition detect_setups_with_diagnostics (df : list Bar)
  (body_ratio_thresh atr_mult : Q) : res (list Setup * Diag) :=
  if (length df <? 20)%nat then Ok ([], diag0)
  else
    let df_c := frame df in
    diag <- foldM (diag_step df_c body_ratio_thresh atr_mult)
                  (py_range 14 (length df_c - 6)) diag0 ;;
    setups <- detect_setups df body_ratio_thresh atr_mult ;;
    Ok (setups, diag).

(* ================================================================== *)
(** ** Enrichment *)
(* ================================================================== *)

Inductive Session : Type := Asian | London | NewYork | OffHours.

(** [dt.hour] of a timezone-naive timestamp. *)
Definition hour_of (dt : Timestamp) : Z := ((dt / hours 1) mod 24)%Z.

Definition classify_session (dt : Timestamp) : Session :=
  let h := hour_of dt in
  if (0 <=? h)%Z && (h <? 8)%Z then Asian
  else if (8 <=? h)%Z && (h <? 13)%Z then London
  else if (13 <=? h)%Z && (h <? 21)%Z then NewYork
  else OffHours.

Inductive Alignment : Type := Aligned | Counter.

(** A row of the enriched frame: the setup and the columns added by
    [enrich_setups].  The news label and the calendar columns depend on
    the daily resampling of the 1h frame and on string formatting and
    are not modelled. *)
Record Enriched : Type := mkEnriched {
  setup : Setup;
  zone_info : ZoneInfo;
  session : Session;
  alignment : Alignment;
  pnl_r : Q;
  cumulative_r : Q
}.

(** [s['pnl_r'].cumsum()] *)
Fixpoint cumsum (acc : Q) (l : list Q) : list Q :=
  match l with
  | [] => []
  | x :: t => (acc + x) :: cumsum (acc + x) t
  end.

Definition setup_pnl (s : Setup) : Q := if win_1r s then 1 else - (1).

Definition enrich_row (zones_df : list Zone) (zone_lookback : Z)
  (zone_proximity : Q) (s : Setup) (cum : Q) : Enriched :=
  mkEnriched s
    (classify_zone (datetime s) (entry_price s) zones_df zone_lookback
                   (zone_proximity / 100))
    (classify_session (datetime s))
    (if c1_direction_match s then Aligned else Counter)
    (setup_pnl s) cum.

Definition enrich_setups (sdf : list Setup) (zones_df : list Zone)
  (zone_lookback : Z) (zone_proximity : Q) : list Enriched :=
  map (fun p => enrich_row zones_df zone_lookback zone_proximity
                           (fst p) (snd p))
      (combine sdf (cumsum 0 (map setup_pnl sdf))).

(* ================================================================== *)
(** ** Sample series *)
(* ================================================================== *)

(** A bar stamped at hour [k]. *)
Definition bar_at (k : Z) (o h l c : Q) : Bar := mkBar (hours k) o h l c 1.

(** [n] quiet bars of range 2 around 100, stamped from hour [k]. *)
Fixpoint quiet (k : Z) (n : nat) : list Bar :=
  match n with
  | O => []
  | S m => bar_at k 100 101 99 100 :: quiet (k + 1) m
  end.

(** 14 quiet bars, a full-bodied C1 at index 14, an inside bar, a close
    above the inside bar (entry 105, stop 101, risk 4), then a candle at
    index 18 that spans both the stop and the 1R level 109. *)
Definition long_series : list Bar :=
  quiet 0 14 ++
  [ bar_at 14 100 104 100 104;
    bar_at 15 103 103 101 102;
    bar_at 16 102 105 102 105;
    bar_at 17 105 107 104 106;
    bar_at 18 106 110 100 103;
    bar_at 19 103 104 102 103;
    bar_at 20 103 104 102 103 ].

(** The same pattern, followed by candles that touch neither the stop
    nor 1R; C4 closes 1/1024 above the entry. *)
Definition drift_series : list Bar :=
  quiet 0 14 ++
  [ bar_at 14 100 104 100 104;
    bar_at 15 103 103 101 102;
    bar_at 16 102 105 102 105;
    bar_at 17 105 106 104 (107521 # 1024);
    bar_at 18 105 106 104 105;
    bar_at 19 105 106 104 105;
    bar_at 20 105 106 104 105 ].

(** An anchor whose body is large against ATR but small against its own
    range. *)
Definition wicky_series : list Bar :=
  quiet 0 14 ++
  [ bar_at 14 100 108 96 104 ] ++ quiet 15 6.

(** [n] bars of range 25 around 100, stamped from hour [k]. *)
Fixpoint calm (k : Z) (n : nat) : list Bar :=
  match n with
  | O => []
  | S m => bar_at k 100 (225 # 2) (175 # 2) 100 :: calm (k + 1) m
  end.

(** 20 such bars, then a bullish bar of body 39: its ATR is
    (13 * 25 + 39) / 14 = 26 and 39 is exactly 1.5 times 26. *)
Definition edge_zone_series : list Bar :=
  calm 0 20 ++ [ bar_at 20 100 139 100 139 ].

(** A flat stretch of zero-range bars after a volatile start: the anchor
    at index 14 and the inside bar have [High = Low]. *)
Definition flat_series : list Bar :=
  quiet 0 13 ++
  [ bar_at 13 100 100 100 100;
    bar_at 14 100 100 100 100;
    bar_at 15 100 100 100 100;
    bar_at 16 100 101 100 101;
    bar_at 17 101 102 100 101;
    bar_at 18 101 102 100 101;
    bar_at 19 101 102 100 101;
    bar_at 20 101 102 100 101 ].

(** The setups found in [long_series] with the default thresholds 0.65
    and 1.3. *)
Definition setups_or_nil (r : res (list Setup)) : list Setup :=
  match r with Ok l => l | Raise _ => [] end.

Definition long_setups : list Setup :=
  Eval vm_compute in
    setups_or_nil (detect_setups long_series (65 # 100) (13 # 10)).

(** A supply zone stamped at hour [k]. *)
Definition zone_at_hour (k : Z) : Zone :=
  mkZone (hours k) 101 100 supply (Fin 2) 1 2.

(** A supply zone stamped at hour 10 whose lower edge is 0.2 above the
    entry 105 of the sample setup. *)
Definition zone_above_entry : Zone :=
  mkZone (hours 10) 106 (526 # 5) supply (Fin 2) 1 2.

(** In exact arithmetic the flags of the simulation agree with the
    running excursions: a level was touched exactly when the excursion
    has reached it.  The invariant carries the nesting of the flags. *)
Definition outcome_consistent (st : Sim.t) : Prop :=
  0 <= Sim.mfe st /\ 0 <= Sim.mae st /\
  (Sim.hit_1r st = true <-> 1 <= Sim.mfe st) /\
  (Sim.hit_15r st = true <-> 3 # 2 <= Sim.mfe st) /\
  (Sim.hit_2r st = true <-> 2 <= Sim.mfe st) /\
  (Sim.hit_sl st = true <-> 1 <= Sim.mae st).

(** [z['zone_type'] == 'supply'] *)
Definition is_supply (z : Zone) : bool :=
  match zone_type z with supply => true | demand => false end.

(* ================================================================== *)
(** ** Statistics *)
(* ================================================================== *)

(** The dictionary returned by [calc_stats], without the label, which
    is the argument [label] unchanged. *)
Record Stats : Type := mkStats {
  Trades : nat;
  WinRate : Q;
  AvgR : Q;
  PF : Q;
  Hit1Rpct : Q;
  Hit15Rpct : Q;
  Hit2Rpct : Q;
  AvgMFE : Q;
  AvgMAE : Q
}.

(** [s.sum()] of a boolean column, as a number. *)
Definition count_true {A : Type} (f : A -> bool) (l : list A) : Q :=
  inject_Z (Z.of_nat (length (filter f l))).

(** [s.mean()] of a numeric column of a non-empty frame. *)
Definition mean (xs : list Q) : Q :=
  Qsum xs / inject_Z (Z.of_nat (length xs)).

(** [s.mean()] of a boolean column of a non-empty frame. *)
Definition mean_true {A : Type} (f : A -> bool) (l : list A) : Q :=
  count_true f l / inject_Z (Z.of_nat (length l)).

(** [calc_stats(df_sub)] on rows of the enriched frame.  The divisions
    by [n] are reached only for [n > 0], the division by [tl] only for
    [tl > 0]. *)
Definition calc_stats (df_sub : list Enriched) : Stats :=
  let n := length df_sub in
  if (n =? 0)%nat then mkStats 0 0 0 0 0 0 0 0 0
  else
    let wins := count_true (fun e => win_1r (setup e)) df_sub in
    let pnl := map pnl_r df_sub in
    let tw := Qsum (filter (fun x => Qltb 0 x) pnl) in
    let tl := Qabs (Qsum (filter (fun x => Qltb x 0) pnl)) in
    mkStats n
      (py_round (wins / inject_Z (Z.of_nat n) * 100) 1)
      (py_round (mean pnl) 3)
      (if Qltb 0 tl then py_round (tw / tl) 2 else 999)
      (py_round (mean_true (fun e => hit_1r (setup e)) df_sub * 100) 1)
      (py_round (mean_true (fun e => hit_15r (setup e)) df_sub * 100) 1)
      (py_round (mean_true (fun e => hit_2r (setup e)) df_sub * 100) 1)
      (py_round (mean (map (fun e => max_favorable_r (setup e)) df_sub)) 2)
      (py_round (mean (map (fun e => max_adverse_r (setup e)) df_sub)) 2).

(* ================================================================== *)
(** ** Resampling to four hours *)
(* ================================================================== *)

(** The stable sort by timestamp the resampler applies to its input: a
    bar goes before the first bar that is not earlier than it. *)
Fixpoint insert_by_ts (b : Bar) (l : list Bar) : list Bar :=
  match l with
  | [] => [b]
  | x :: t => if (ts b <=? ts x)%Z then b :: x :: t
              else x :: insert_by_ts b t
  end.

Definition sort_by_ts (df : list Bar) : list Bar :=
  fold_right insert_by_ts [] df.

(** The four-hour bin of a bar: bins are closed on the left and start at
    multiples of four hours. *)
Definition bin_of (b : Bar) : Z := (ts b / hours 4)%Z.

(** The integers from [lo] to [hi]. *)
Definition zrange (lo hi : Z) : list Z :=
  map (fun i => (lo + Z.of_nat i)%Z) (seq 0 (Z.to_nat (hi - lo + 1))).

(** [agg({'Open':'first','High':'max','Low':'min','Close':'last',
    'Volume':'sum'})] on the rows of bin [k], labelled by the left edge
    of the bin.  A bin without rows aggregates to a row of [NaN]s, which
    [dropna()] removes. *)
Definition agg_4h (k : Z) (rows : list Bar) : option Bar :=
  match rows with
  | [] => None
  | r :: rest =>
      Some (mkBar (k * hours 4)%Z
                  (Open r)
                  (fold_left py_max (map High rest) (High r))
                  (fold_left py_min (map Low rest) (Low r))
                  (Close (last rest r))
                  (Qsum (map Volume rows)))
  end.

(** The bins from that of the first bar to that of the last one. *)
Definition bins_4h (sorted : list Bar) : list Z :=
  match sorted with
  | [] => []
  | r :: _ => zrange (bin_of r) (bin_of (last sorted r))
  end.

Definition rows_of_bin (k : Z) (sorted : list Bar) : list Bar :=
  filter (fun b => (bin_of b =? k)%Z) sorted.

Definition resample_to_4h (df : list Bar) : list Bar :=
  let sorted := sort_by_ts df in
  flat_map (fun k => match agg_4h k (rows_of_bin k sorted) with
                     | Some b => [b]
                     | None => []
                     end)
           (bins_4h sorted).

(* ================================================================== *)
(** ** Economic events *)
(* ================================================================== *)

(** Calendar dates as proleptic Gregorian ordinals, the day count of
    [datetime.toordinal()]: 1 is 0001-01-01, a Monday. *)
Definition is_leap (year : Z) : bool :=
  ((year mod 4 =? 0) && (negb (year mod 100 =? 0) || (year mod 400 =? 0)))%Z.

Definition days_before_year (year : Z) : Z :=
  (let y := year - 1 in y * 365 + y / 4 - y / 100 + y / 400)%Z.

Definition days_before_month (year month : Z) : Z :=
  (nth (Z.to_nat month)
       [0; 0; 31; 59; 90; 120; 151; 181; 212; 243; 273; 304; 334] 0
   + (if (2 <? month) && is_leap year then 1 else 0))%Z.

(** [datetime(year, month, day).toordinal()] *)
Definition ymd2ord (year month day : Z) : Z :=
  (days_before_year year + days_before_month year month + day)%Z.

(** [d.weekday()]: Monday is 0, Friday is 4. *)
Definition weekday (d : Z) : Z := ((d + 6) mod 7)%Z.

(** The body of the NFP loop: the date appended for [year] and [month].
    The text form it is stored in is parsed back to the same date. *)
Definition nfp_date (year month : Z) : Z :=
  let d := ymd2ord year month 1 in
  let days_ahead := (4 - weekday d)%Z in
  let days_ahead := if (days_ahead <? 0)%Z then (days_ahead + 7)%Z
                    else days_ahead in
  (d + days_ahead)%Z.

Definition nfp : list Z :=
  flat_map (fun year => map (nfp_date year) (zrange 1 12))
           [2024; 2025; 2026]%Z.

(* ================================================================== *)
(** ** The asset universe *)
(* ================================================================== *)

(** A Python [dict] of strings as its items in insertion order. *)
Definition Dict : Type := list (String.string * String.string).

(** [out[k] = v]: an existing key keeps its place and takes the new
    value, a new key goes to the end. *)
Fixpoint dict_set (out : Dict) (k v : String.string) : Dict :=
  match out with
  | [] => [(k, v)]
  | (k', v') :: rest =>
      if String.eqb k' k then (k', v) :: rest
      else (k', v') :: dict_set rest k v
  end.

Fixpoint dict_get (d : Dict) (k : String.string) : option String.string :=
  match d with
  | [] => None
  | (k', v') :: rest => if String.eqb k' k then Some v' else dict_get rest k
  end.

(** The inner loop of [get_all_assets_flat] over one category. *)
Definition dict_update (out items : Dict) : Dict :=
  fold_left (fun o it => dict_set o (fst it) (snd it)) items out.

(** The inner loop of [get_category_for_ticker] over one category. *)
Fixpoint has_ticker (cat_dict : Dict) (ticker : String.string) : bool :=
  match cat_dict with
  | [] => false
  | (_, t) :: rest =>
      if String.eqb t ticker then true else has_ticker rest ticker
  end.

Definition Unknown : String.string := "Unknown"%string.

Section Assets.

(** The master table, category name to category dict, in table order. *)
Variable ASSET_CATEGORIES : list (String.string * Dict).

Definition get_all_assets_flat : Dict :=
  fold_left (fun out cat => dict_update out (snd cat)) ASSET_CATEGORIES [].

Fixpoint category_scan (cats : list (String.string * Dict))
  (ticker : String.string) : String.string :=
  match cats with
  | [] => Unknown
  | (cat_name, cat_dict) :: rest =>
      if has_ticker cat_dict ticker then cat_name
      else category_scan rest ticker
  end.

Definition get_category_for_ticker (ticker : String.string) : String.string :=
  category_scan ASSET_CATEGORIES ticker.

End Assets.

(** The head of the table, for examples. *)
Definition sample_categories : list (String.string * Dict) :=
  [ ("Commodities", [ ("Gold (GC=F)", "GC=F"); ("Silver (SI=F)", "SI=F") ]);
    ("Crypto", [ ("Bitcoin (BTC-USD)", "BTC-USD");
                 ("Ethereum (ETH-USD)", "ETH-USD") ]) ]%string.

(* ================================================================== *)
(** ** Segment analysis *)
(* ================================================================== *)

Section Segments.

(** The values of the column, with the [==] of the frame and the order
    that [sorted] uses. *)
Variable K : Type.
Variable key_eqb : K -> K -> bool.
Variable key_leb : K -> K -> bool.

(** [s.unique()]: the values in order of first appearance. *)
Fixpoint unique (l : list K) : list K :=
  match l with
  | [] => []
  | x :: t => x :: filter (fun y => negb (key_eqb x y)) (unique t)
  end.

Fixpoint insert_key (v : K) (l : list K) : list K :=
  match l with
  | [] => [v]
  | x :: t => if key_leb v x then v :: x :: t else x :: insert_key v t
  end.

Definition sorted (l : list K) : list K := fold_right insert_key [] l.

(** One row of statistics per value of the column, labelled by it. *)
Definition seg_analysis (setups : list Enriched) (col : Enriched -> K)
  : list (K * Stats) :=
  map (fun v => (v, calc_stats (filter (fun e => key_eqb (col e) v) setups)))
      (sorted (unique (map col setups))).

End Segments.

(** The session labels compare as their texts do: ['Asian'], ['London'],
    ['New York'], ['Off-Hours']. *)
Definition session_rank (s : Session) : nat :=
  match s with Asian => 0 | London => 1 | NewYork => 2 | OffHours => 3 end.

Definition session_eqb (a b : Session) : bool :=
  (session_rank a =? session_rank b)%nat.

Definition session_leb (a b : Session) : bool :=
  (session_rank a <=? session_rank b)%nat.

(* ================================================================== *)
(** ** News *)
(* ================================================================== *)

Inductive News : Type := MajorEvent | HighVolatility | Normal.

(** [dt.date()] as a proleptic Gregorian ordinal; 1970-01-01 is day
    719163. *)
Definition date_of (dt : Timestamp) : Z := (dt / hours 24 + 719163)%Z.

Fixpoint insert_q (x : Q) (l : list Q) : list Q :=
  match l with
  | [] => [x]
  | y :: t => if Qle_bool x y then x :: y :: t else y :: insert_q x t
  end.

Definition sort_q (l : list Q) : list Q := fold_right insert_q [] l.

(** [s.quantile(q)] of a series without missing values, with the default
    linear interpolation between the two order statistics around
    position [(n - 1) * q]; [NaN] for an empty series. *)
Definition quantile (q : Q) (values : list Q) : fl :=
  match values with
  | [] => NaN
  | _ :: _ =>
      let s := sort_q values in
      let h := inject_Z (Z.of_nat (length s - 1)) * q in
      let lo := Z.to_nat (Qfloor h) in
      let a := nth lo s 0 in
      let b := nth (Nat.min (S lo) (length s - 1)) s 0 in
      Fin (a + (b - a) * (h - inject_Z (Qfloor h)))
  end.

(** A series indexed by date, as its items; [loc] is [s.loc[d]] for an
    index without repeated dates. *)
Fixpoint loc (s : list (Z * Q)) (d : Z) : option Q :=
  match s with
  | [] => None
  | (d', x) :: rest => if (d' =? d)%Z then Some x else loc rest d
  end.

(** [classify_news] from the point where [d] is a date. *)
Definition classify_news_on (d : Z) (event_dates : list Z)
  (daily_vol : option (list (Z * Q))) : News :=
  if existsb (Z.eqb d) event_dates then MajorEvent
  else
    match daily_vol with
    | None => Normal
    | Some dv =>
        match loc dv d with
        | None => Normal
        | Some x =>
            if fl_gtb (Fin x) (quantile (85 # 100) (map snd dv))
            then HighVolatility else Normal
        end
    end.

Definition classify_news (dt : Timestamp) (event_dates : list Z)
  (daily_vol : option (list (Z * Q))) : News :=
  classify_news_on (date_of dt) event_dates daily_vol.

(** The daily range series of [enrich_setups]: per calendar day the
    highest high minus the lowest low of the day's bars, days without
    bars dropped, indexed by date. *)
Definition day_of (b : Bar) : Z := (ts b / hours 24)%Z.

Definition daily_range_of (k : Z) (rows : list Bar) : list (Z * Q) :=
  match rows with
  | [] => []
  | r :: rest =>
      [((k + 719163)%Z,
        fold_left py_max (map High rest) (High r)
        - fold_left py_min (map Low rest) (Low r))]
  end.

Definition daily_range (df_1h : list Bar) : list (Z * Q) :=
  let sorted := sort_by_ts df_1h in
  flat_map (fun k => daily_range_of k
                       (filter (fun b => (day_of b =? k)%Z) sorted))
           (match sorted with
            | [] => []
            | r :: _ => zrange (day_of r) (day_of (last sorted r))
            end).

Definition is_high_volatility (n : News) : bool :=
  match n with HighVolatility => true | _ => false end.

(** The follow-through columns of a setup, one entry for each of C4, C5
    and C6: the candle, [close_r], [mfe_r], [mae_r] and [followed]. *)
Definition follow_through (s : Setup)
  : list (option Bar * option Q * Q * Q * option bool) :=
  [ (Some (c4 s), c4_close_r s, c4_mfe_r s, c4_mae_r s, c4_followed s);
    (c5 s, c5_close_r s, c5_mfe_r s, c5_mae_r s, c5_followed s);
    (c6 s, c6_close_r s, c6_mfe_r s, c6_mae_r s, c6_followed s) ].

(** The favourable and the adverse excursion of one candle in risk
    units: [fav] and [adv] of the simulation loop. *)
Definition fav_of (d : Direction) (entry rk : Q) (c : Row) : Q :=
  match d with
  | LONG => (High (bar c) - entry) / rk
  | SHORT => (entry - Low (bar c)) / rk
  end.

Definition adv_of (d : Direction) (entry rk : Q) (c : Row) : Q :=
  match d with
  | LONG => (entry - Low (bar c)) / rk
  | SHORT => (High (bar c) - entry) / rk
  end.

(** [candle['Close'] > entry_px] for a long trade, [<] for a short one. *)
Definition closed_beyond_entry (d : Direction) (entry : Q) (b : Bar) : bool :=
  match d with
  | LONG => Qltb entry (Close b)
  | SHORT => Qltb (Close b) entry
  end.


(* ================================================================== *)
(** ** Room for the arithmetic of doubles *)
(* ================================================================== *)

(** The code computes with doubles; the model computes the same
    expressions exactly.  Where a statement compares a stored or computed
    value with an exact one, it leaves the following room, so that it
    holds of the value the machine stores as well as of the exact one.

    [ulp] bounds the relative error of one correctly rounded operation. *)
Definition ulp : Q := 1 # 4503599627370496.

(** [x] is the sum [a + b] as a machine computes it. *)
Definition machine_sum (x a b : Q) : Prop :=
  Qabs (x - (a + b)) <= (Qabs a + Qabs b) * ulp.

(** [slack] is the relative room left when a value the code has
    computed in a few operations is compared with the exact quantity:
    far above the relative spacing of doubles, far below anything a
    stored decimal shows. *)
Definition slack : Q := 1 # 1000000000.

(** [x] is [q] rounded to [n] decimals for storage: within half a unit
    of the [n]-th decimal, with the room [slack] for the double that was
    rounded and for the double that is stored. *)
Definition rounded_to (n : nat) (x q : Q) : Prop :=
  Qabs (x - q) <= (1 # 2) / pow10 n + slack * (1 + Qabs q).

(** [c['High'] >= level] for a long trade and [c['Low'] <= level] for a
    short one: the 1R test of the simulation loop on the level the code
    has computed. *)
Definition level_touch (d : Direction) (level : Q) (b : Bar) : bool :=
  match d with
  | LONG => Qle_bool level (High b)
  | SHORT => Qle_bool (Low b) level
  end.

(** An edge of the zone [z] lies clearly within, or clearly beyond, the
    fraction [q] of the price: by more than the relative room [slack]
    on either side of [q * price]. *)
Definition clearly_within (price q : Q) (z : Zone) : Prop :=
  edge_distance price z <= q * price * (1 - slack).

Definition clearly_beyond (price q : Q) (z : Zone) : Prop :=
  q * price * (1 + slack) < edge_distance price z.

(** As [long_series], but the candle at index 18 reaches the 1R level
    109 and stays above the stop 101. *)
Definition win_series : list Bar :=
  quiet 0 14 ++
  [ bar_at 14 100 104 100 104;
    bar_at 15 103 103 101 102;
    bar_at 16 102 105 102 105;
    bar_at 17 105 107 104 106;
    bar_at 18 106 110 105 109;
    bar_at 19 109 110 108 109;
    bar_at 20 109 110 108 109 ].

Definition win_setups : list Setup :=
  Eval vm_compute in
    setups_or_nil (detect_setups win_series (65 # 100) (13 # 10)).


(* ================================================================== *)
(** * Properties *)
(* ================================================================== *)

(** ** Comparisons *)

Lemma Qltb_lt (a b : Q) : Qltb a b = true <-> a < b.
Proof.
  unfold Qltb. rewrite Qlt_alt. destruct (a ?= b); split; congruence.
Qed.

Lemma Qltb_ge (a b : Q) : Qltb a b = false <-> b <= a.
Proof.
  split; intro H.
  - apply Qnot_lt_le. intro L. apply Qltb_lt in L. congruence.
  - destruct (Qltb a b) eqn:E; [|reflexivity].
    apply Qltb_lt in E. lra.
Qed.

Lemma Qle_bool_false (a b : Q) : Qle_bool a b = false <-> b < a.
Proof.
  split; intro H.
  - apply Qnot_le_lt. intro L. apply Qle_bool_iff in L. congruence.
  - destruct (Qle_bool a b) eqn:E; [|reflexivity].
    apply Qle_bool_iff in E. lra.
Qed.

Lemma Qeq_bool_false (a b : Q) : Qeq_bool a b = false <-> ~ a == b.
Proof.
  split; intro H.
  - now apply Qeq_bool_neq.
  - destruct (Qeq_bool a b) eqn:E; [|reflexivity].
    apply Qeq_bool_iff in E. contradiction.
Qed.

(** Turn the boolean tests among the hypotheses into (in)equalities. *)
Ltac qprop :=
  repeat match goal with
  | H : Qltb _ _ = true |- _ => apply Qltb_lt in H
  | H : Qltb _ _ = false |- _ => apply Qltb_ge in H
  | H : Qle_bool _ _ = true |- _ => apply Qle_bool_iff in H
  | H : Qle_bool _ _ = false |- _ => apply Qle_bool_false in H
  | H : Qeq_bool _ _ = true |- _ => apply Qeq_bool_iff in H
  | H : Qeq_bool _ _ = false |- _ => apply Qeq_bool_false in H
  | H : _ && _ = true |- _ => apply andb_true_iff in H; destruct H
  | H : _ || _ = false |- _ => apply orb_false_iff in H; destruct H
  | H : negb _ = true |- _ => apply negb_true_iff in H
  | H : negb _ = false |- _ => apply negb_false_iff in H
  end.

Lemma py_max_le (a b : Q) : a <= py_max a b /\ b <= py_max a b.
Proof.
  unfold py_max. destruct (Qltb a b) eqn:E; qprop; split; lra.
Qed.

Lemma py_min_le (a b : Q) : py_min a b <= a /\ py_min a b <= b.
Proof.
  unfold py_min. destruct (Qltb b a) eqn:E; qprop; split; lra.
Qed.

(** Rounding to an integer moves a number by at most one half. *)
Lemma round_half_even_error (y : Q) :
  y - (1 # 2) <= inject_Z (round_half_even y) /\
  inject_Z (round_half_even y) <= y + (1 # 2).
Proof.
  unfold round_half_even.
  pose proof (Qfloor_le y) as L. pose proof (Qlt_floor y) as U.
  rewrite inject_Z_plus in U. change (inject_Z 1) with 1 in U.
  destruct (Qcompare (y - inject_Z (Qfloor y)) (1 # 2)) eqn:C.
  - apply Qeq_alt in C.
    destruct (Z.even (Qfloor y)); rewrite ?inject_Z_plus;
      change (inject_Z 1) with 1; split; lra.
  - apply Qlt_alt in C. split; lra.
  - apply Qgt_alt in C. rewrite inject_Z_plus.
    change (inject_Z 1) with 1. split; lra.
Qed.

Lemma pow10_pos (n : nat) : 0 < pow10 n.
Proof.
  unfold pow10. change 0 with (inject_Z 0). rewrite <- Zlt_Qlt.
  apply Z.pow_pos_nonneg; lia.
Qed.

(** Rounding to [n] decimals moves a number by at most half a unit of the
    [n]-th decimal. *)
Lemma py_round_error (x : Q) (n : nat) :
  Qabs (py_round x n - x) <= (1 # 2) / pow10 n.
Proof.
  unfold py_round. pose proof (pow10_pos n) as P.
  destruct (round_half_even_error (x * pow10 n)) as [E1 E2].
  set (r := inject_Z (round_half_even (x * pow10 n))) in *.
  set (p := pow10 n) in *.
  assert (D : r / p * p == r) by (field; lra).
  assert (H : (1 # 2) / p * p == 1 # 2) by (field; lra).
  set (v := r / p) in *. set (h := (1 # 2) / p) in *.
  apply Qabs_Qle_condition. split.
  - apply (Qmult_le_r _ _ p P). lra.
  - apply (Qmult_le_r _ _ p P). lra.
Qed.

Lemma py_round_rounded_to (x q : Q) (n : nat) :
  x == q -> rounded_to n (py_round x n) q.
Proof.
  intro E. unfold rounded_to. rewrite <- E.
  pose proof (py_round_error x n). pose proof (Qabs_nonneg x).
  assert (0 < slack) by reflexivity. nra.
Qed.

Lemma well_formedb_iff (b : Bar) : well_formedb b = true <-> well_formed b.
Proof.
  unfold well_formedb, well_formed.
  rewrite andb_true_iff, !Qle_bool_iff. tauto.
Qed.

(** ** The result monad *)

Lemma bind_Ok {A B : Type} (m : res A) (k : A -> res B) (b : B) :
  bind m k = Ok b -> exists a, m = Ok a /\ k a = Ok b.
Proof.
  destruct m as [a|e]; simpl; intro H; [eauto | discriminate].
Qed.

Lemma iloc_Ok {A : Type} (rows : list A) (i : nat) (r : A) :
  iloc rows i = Ok r <-> nth_error rows i = Some r.
Proof.
  unfold iloc. destruct (nth_error rows i); split; congruence.
Qed.

Lemma iloc_in_range {A : Type} (rows : list A) (i : nat) :
  (i < length rows)%nat -> exists r, iloc rows i = Ok r.
Proof.
  intro H. unfold iloc.
  destruct (nth_error rows i) eqn:E; [eauto|].
  apply nth_error_None in E. lia.
Qed.

(** ** Wick profiles *)

Lemma py_div_nonzero (a b : Q) : ~ b == 0 -> py_div a b = Ok (a / b).
Proof.
  intro H. unfold py_div. apply Qeq_bool_false in H. now rewrite H.
Qed.

Lemma classify_wick_profile_total (o c h l : Q) :
  exists w, classify_wick_profile o c h l = Ok w.
Proof.
  unfold classify_wick_profile.
  destruct (Qeq_bool (h - l) 0) eqn:E; [eauto|].
  apply Qeq_bool_false in E.
  rewrite !py_div_nonzero by exact E. simpl. eauto.
Qed.

(** C9. A bar with [high == low] is a Doji whose three percentages are
    zero, and [classify_wick_profile] returns a profile on every input:
    its divisions by [total_range] are never reached with a zero
    divisor. *)
Theorem classify_wick_profile_zero_range :
  (forall o c h l : Q, exists w, classify_wick_profile o c h l = Ok w) /\
  (forall o c h l : Q,
      h == l ->
      classify_wick_profile o c h l
      = Ok (mkWick Doji 0 0 0 (Qle_bool o c))).
Proof.
  split; [exact classify_wick_profile_total|].
  intros o c h l Hhl. unfold classify_wick_profile.
  assert (E : Qeq_bool (h - l) 0 = true) by (apply Qeq_bool_iff; lra).
  now rewrite E.
Qed.

Lemma classify_wick_profile_zero_range_witness :
  7 == 7 /\
  classify_wick_profile 7 7 7 7 = Ok (mkWick Doji 0 0 0 (Qle_bool 7 7)).
Proof.
  split; [reflexivity|].
  apply (proj2 classify_wick_profile_zero_range 7 7 7 7). reflexivity.
Defined.

(** ** The derived columns *)

Lemma nth_error_combine {A B : Type} (l : list A) (l' : list B) (i : nat)
  (p : A * B) :
  nth_error (combine l l') i = Some p <->
  nth_error l i = Some (fst p) /\ nth_error l' i = Some (snd p).
Proof.
  revert l' i. induction l as [|a l IH]; intros [|b l'] [|i]; simpl;
    try (split; [discriminate | intros [? ?]; discriminate]).
  - destruct p as [x y]. simpl. split.
    + intro H. inversion H. auto.
    + intros [H1 H2]. congruence.
  - apply IH.
Qed.

Lemma length_shift1 (col : list Q) : length (shift1 col) = length col.
Proof.
  destruct col as [|c col]; [reflexivity|].
  unfold shift1. cbn [length]. rewrite length_map, removelast_firstn_len.
  rewrite length_firstn. cbn [length]. lia.
Qed.

Lemma length_col_TR (df : list Bar) : length (col_TR df) = length df.
Proof.
  unfold col_TR.
  rewrite length_map, length_combine, length_shift1, length_map. lia.
Qed.

Lemma length_rolling_mean (w : nat) (col : list fl) :
  length (rolling_mean w col) = length col.
Proof. unfold rolling_mean. now rewrite length_map, length_seq. Qed.

Lemma length_col_ATR (df : list Bar) : length (col_ATR df) = length df.
Proof. unfold col_ATR. now rewrite length_rolling_mean, length_col_TR. Qed.

Lemma length_frame (df : list Bar) : length (frame df) = length df.
Proof.
  unfold frame.
  rewrite length_map, !length_combine, length_col_TR, length_col_ATR. lia.
Qed.

Lemma nth_error_frame (df : list Bar) (i : nat) (r : Row) :
  nth_error (frame df) i = Some r ->
  exists b tr atr,
    nth_error df i = Some b /\ nth_error (col_ATR df) i = Some atr /\
    r = mk_row b tr atr.
Proof.
  unfold frame. rewrite nth_error_map.
  destruct (nth_error (combine df (combine (col_TR df) (col_ATR df))) i)
    as [[b [tr atr]]|] eqn:E; simpl; [|discriminate].
  intro H. inversion H; subst r.
  apply nth_error_combine in E. destruct E as [Hb E]. simpl in Hb, E.
  apply nth_error_combine in E. destruct E as [_ Ha]. simpl in Ha.
  exists b, tr, atr. auto.
Qed.

(** The true range of a bar with a previous close is finite and not
    negative: it is at least an absolute value. *)
Lemma true_range_Fin (b : Bar) (c : Q) :
  exists v, true_range b (Fin c) = Fin v /\ 0 <= v.
Proof.
  unfold true_range. cbn [fl_sub fl_abs].
  set (x := High b - Low b).
  set (y := Qabs (High b - c)). set (z := Qabs (Low b - c)).
  assert (Hy : 0 <= y) by apply Qabs_nonneg.
  assert (Hz : 0 <= z) by apply Qabs_nonneg.
  unfold fl_maximum at 2. cbn [fl_ltb].
  destruct (Qltb y z) eqn:E1; unfold fl_maximum; cbn [fl_ltb];
    [destruct (Qltb x z) eqn:E2 | destruct (Qltb x y) eqn:E2];
    qprop; eexists; split; try reflexivity; lra.
Qed.

Lemma true_range_tail (bs : list Bar) (cs : list Q) :
  exists qs,
    map (fun p => true_range (fst p) (snd p)) (combine bs (map Fin cs))
    = map Fin qs /\ Forall (fun q => 0 <= q) qs.
Proof.
  revert cs. induction bs as [|b bs IH]; intros cs.
  - exists []. split; [reflexivity | constructor].
  - destruct cs as [|c cs].
    + exists []. split; [reflexivity | constructor].
    + destruct (IH cs) as [qs [E F]].
      destruct (true_range_Fin b c) as [v [Ev Hv]].
      exists (v :: qs). cbn [map combine fst snd].
      rewrite E, Ev. split; [reflexivity | now constructor].
Qed.

(** The first true range has no previous close and is [NaN]; the others
    are finite. *)
Lemma col_TR_shape (b : Bar) (bs : list Bar) :
  exists qs,
    col_TR (b :: bs) = NaN :: map Fin qs /\ Forall (fun q => 0 <= q) qs.
Proof.
  unfold col_TR. cbn [map shift1 combine fst snd].
  destruct (true_range_tail bs (removelast (Close b :: map Close bs)))
    as [qs [E F]].
  exists qs. rewrite E. split; [reflexivity | exact F].
Qed.

Lemma all_fin_map_Fin (qs : list Q) : all_fin (map Fin qs) = Some qs.
Proof.
  induction qs as [|q qs IH]; [reflexivity|].
  cbn [map all_fin]. now rewrite IH.
Qed.

Lemma Qsum_nonneg (qs : list Q) :
  Forall (fun q => 0 <= q) qs -> 0 <= Qsum qs.
Proof.
  induction 1 as [|q qs Hq _ IH]; unfold Qsum in *; simpl; lra.
Qed.

Lemma Forall_firstn_skipn {A : Type} (P : A -> Prop) (n k : nat)
  (l : list A) : Forall P l -> Forall P (firstn n (skipn k l)).
Proof.
  intro F.
  assert (Fk : Forall P (skipn k l)).
  { clear n. revert l F. induction k as [|k IH]; intros l F; [exact F|].
    destruct F as [|x l Hx F]; [constructor | now apply IH]. }
  clear F. revert n. induction Fk as [|x t Hx Ft IH]; intros [|n]; simpl;
    constructor; auto.
Qed.

Lemma nth_error_rolling_mean (w : nat) (col : list fl) (i : nat) (x : fl) :
  nth_error (rolling_mean w col) i = Some x ->
  (i < length col)%nat /\
  x = (if (S i <? w)%nat then NaN
       else match all_fin (firstn w (skipn (S i - w) col)) with
            | Some qs => Fin (Qsum qs / inject_Z (Z.of_nat w))
            | None => NaN
            end).
Proof.
  unfold rolling_mean. rewrite nth_error_map, nth_error_seq.
  destruct (Nat.ltb_spec i (length col)) as [Hi|Hi]; simpl; [|discriminate].
  intro H. inversion H. split; [assumption | reflexivity].
Qed.

(** The ATR of bar [i] is [NaN] for the 14 bars [i = 0 .. 13] and a
    finite, non-negative number from bar 14 on. *)
Lemma col_ATR_spec (df : list Bar) (i : nat) (atr : fl) :
  nth_error (col_ATR df) i = Some atr ->
  ((i < 14)%nat /\ atr = NaN) \/
  ((14 <= i)%nat /\ exists a, atr = Fin a /\ 0 <= a).
Proof.
  unfold col_ATR. intro H.
  apply nth_error_rolling_mean in H. destruct H as [Hi ->].
  destruct df as [|b bs].
  { simpl in Hi. lia. }
  destruct (col_TR_shape b bs) as [qs [E F]]. rewrite E.
  destruct (Nat.ltb_spec (S i) 14) as [Hlt|Hge].
  { left. split; [lia | reflexivity]. }
  destruct (Nat.eq_dec i 13) as [->|Hne].
  { left. split; [lia|]. reflexivity. }
  right. split; [lia|].
  replace (S i - 14)%nat with (S (i - 14)) by lia.
  cbn [skipn]. rewrite skipn_map, firstn_map, all_fin_map_Fin.
  eexists. split; [reflexivity|].
  assert (S : 0 <= Qsum (firstn 14 (skipn (i - 14) qs)))
    by (apply Qsum_nonneg, Forall_firstn_skipn, F).
  unfold Qdiv.
  assert (P : 0 <= / inject_Z (Z.of_nat 14)) by (vm_compute; discriminate).
  nra.
Qed.

(** ** Loops *)

Lemma foldM_app {A S : Type} (f : S -> A -> res S) (l1 l2 : list A) (s : S) :
  foldM f (l1 ++ l2) s = (s' <- foldM f l1 s ;; foldM f l2 s').
Proof.
  revert s. induction l1 as [|x l1 IH]; intro s; cbn [foldM app];
    [reflexivity|].
  destruct (f s x); cbn [bind]; [apply IH | reflexivity].
Qed.

Lemma foldM_invariant {A S : Type} (P : S -> Prop) (f : S -> A -> res S)
  (l : list A) :
  (forall s a s', In a l -> f s a = Ok s' -> P s -> P s') ->
  forall s s', foldM f l s = Ok s' -> P s -> P s'.
Proof.
  induction l as [|x l IH]; intros Hstep s s' H Ps; simpl in H.
  - inversion H; now subst.
  - apply bind_Ok in H. destruct H as [s1 [H1 H2]].
    apply (IH (fun s a s' Ha => Hstep s a s' (or_intror Ha)) s1 s' H2).
    apply (Hstep s x s1 (or_introl eq_refl) H1 Ps).
Qed.

(** A filtering loop none of whose iterations raises returns what it
    collected. *)
Lemma foldM_collect {A B : Type} (f : A -> res (option B)) (l : list A) :
  (forall i, In i l -> exists o, f i = Ok o) ->
  forall acc,
    foldM (fun acc i =>
             o <- f i ;;
             Ok (match o with Some s => acc ++ [s] | None => acc end))
          l acc
    = Ok (acc ++ collect f l).
Proof.
  induction l as [|x l IH]; intros Hok acc; cbn [foldM].
  - now rewrite app_nil_r.
  - destruct (Hok x (or_introl eq_refl)) as [o Ho]. rewrite Ho. cbn [bind].
    rewrite IH by (intros i Hi; apply Hok; now right).
    unfold collect. cbn [flat_map]. rewrite Ho.
    destruct o as [s|]; [now rewrite <- app_assoc | reflexivity].
Qed.

Lemma in_collect {A B : Type} (f : A -> res (option B)) (l : list A) (s : B) :
  In s (collect f l) <-> exists i, In i l /\ f i = Ok (Some s).
Proof.
  unfold collect. rewrite in_flat_map. split.
  - intros [i [Hi Hs]]. exists i. split; [assumption|].
    destruct (f i) as [[s'|]|]; simpl in Hs; try contradiction.
    destruct Hs as [->|[]]. reflexivity.
  - intros [i [Hi Hs]]. exists i. split; [assumption|].
    rewrite Hs. now left.
Qed.

Lemma in_py_range (lo hi i : nat) :
  In i (py_range lo hi) <-> (lo <= i < hi)%nat.
Proof. unfold py_range. rewrite in_seq. lia. Qed.

(** ** Zone detection *)

Lemma zone_at_total (df : list Bar) (m : Q) (i : nat) :
  (i < length df)%nat -> exists o, zone_at (frame df) m i = Ok o.
Proof.
  intro H. unfold zone_at.
  destruct (iloc_in_range (frame df) i) as [r Hr].
  { now rewrite length_frame. }
  rewrite Hr. simpl. eauto.
Qed.

(** [detect_zones] never raises: it returns the zones of the rows from
    index 20 on, in order. *)
Lemma detect_zones_spec (df : list Bar) (m : Q) :
  detect_zones df m
  = Ok (collect (zone_at (frame df) m) (py_range 20 (length df))).
Proof.
  unfold detect_zones. rewrite length_frame.
  rewrite foldM_collect; [reflexivity|].
  intros i Hi. apply in_py_range in Hi. apply zone_at_total. lia.
Qed.

(** ** The outcome simulation *)

Lemma skipn_nth_error {A : Type} (l : list A) (n : nat) (x : A) :
  nth_error l n = Some x -> skipn n l = x :: skipn (S n) l.
Proof.
  revert l. induction n as [|n IH]; intros [|y l] H; simpl in H;
    try discriminate.
  - inversion H. reflexivity.
  - cbn [skipn]. now apply IH.
Qed.

(** A loop that reads the rows [lo .. lo+n-1] and stays inside the frame
    is a fold over that slice. *)
Lemma foldM_iloc {A S : Type} (g : S -> A -> S) (rows : list A) (n : nat) :
  forall lo st,
    (n = 0 \/ lo + n <= length rows)%nat ->
    foldM (fun st j => c <- iloc rows j ;; Ok (g st c)) (seq lo n) st
    = Ok (fold_left g (firstn n (skipn lo rows)) st).
Proof.
  induction n as [|n IH]; intros lo st H; [reflexivity|].
  cbn [seq foldM].
  destruct (nth_error rows lo) as [c|] eqn:E.
  - rewrite (proj2 (iloc_Ok rows lo c) E). cbn [bind].
    rewrite (skipn_nth_error rows lo c E). cbn [firstn fold_left].
    apply IH. lia.
  - apply nth_error_None in E. lia.
Qed.

Lemma simulate_spec (rows : list Row) (i : nat) (d : Direction)
  (entry sl risk : Q) :
  simulate rows i d entry sl risk
  = Ok (fold_left (sim_step d entry sl risk) (lookahead rows i) Sim.init).
Proof.
  unfold simulate, py_range, lookahead. apply foldM_iloc. lia.
Qed.

Section Simulation.

Variables (d : Direction) (entry sl rk : Q).

Let step := sim_step d entry sl rk.

(** Once set, [first_hit] is never overwritten. *)
Lemma first_hit_sticky (w : list Row) :
  forall st h,
    Sim.first_hit st = Some h ->
    Sim.first_hit (fold_left step w st) = Some h.
Proof.
  induction w as [|c w IH]; intros st h H; [exact H|].
  cbn [fold_left]. apply IH.
  unfold step, sim_step. cbn [Sim.first_hit].
  destruct (sl_touch d sl (bar c) && negb (Sim.hit_sl st));
    destruct (r1_touch d entry rk (bar c) && negb (Sim.hit_1r st));
    cbn [snd fst]; rewrite H; reflexivity.
Qed.

(** From a state in which nothing was hit, the label is decided by the
    first candle that touches either level; on that candle the stop is
    tested first. *)
Lemma first_hit_fold (w : list Row) :
  forall st,
    Sim.first_hit st = None -> Sim.hit_sl st = false ->
    Sim.hit_1r st = false ->
    Sim.first_hit (fold_left step w st)
    = match find (fun c => touches d entry sl rk (bar c)) w with
      | Some c => Some (if sl_touch d sl (bar c) then HitSL else Hit1R)
      | None => None
      end.
Proof.
  induction w as [|c w IH]; intros st Hf Hs H1; [exact Hf|].
  cbn [fold_left find]. unfold touches at 1.
  destruct (sl_touch d sl (bar c)) eqn:Es.
  - cbn [orb]. apply first_hit_sticky.
    unfold step, sim_step. cbn [Sim.first_hit]. rewrite Es, Hs, H1, Hf.
    destruct (r1_touch d entry rk (bar c)); reflexivity.
  - cbn [orb]. destruct (r1_touch d entry rk (bar c)) eqn:Er.
    + apply first_hit_sticky.
      unfold step, sim_step. cbn [Sim.first_hit]. rewrite Es, Er, H1, Hf.
      reflexivity.
    + apply IH; unfold step, sim_step;
        cbn [Sim.first_hit Sim.hit_sl Sim.hit_1r];
        rewrite ?Es, ?Er; cbn; assumption.
Qed.

(** [hit_1r] is set whenever the label is ['1R']. *)
Lemma first_hit_1r_flag (w : list Row) :
  forall st,
    (Sim.first_hit st = Some Hit1R -> Sim.hit_1r st = true) ->
    let st' := fold_left step w st in
    Sim.first_hit st' = Some Hit1R -> Sim.hit_1r st' = true.
Proof.
  induction w as [|c w IH]; intros st H; [exact H|].
  cbn [fold_left]. apply IH.
  unfold step, sim_step. cbn [Sim.first_hit Sim.hit_1r].
  destruct (sl_touch d sl (bar c) && negb (Sim.hit_sl st));
    destruct (r1_touch d entry rk (bar c) && negb (Sim.hit_1r st)) eqn:E;
    cbn [snd fst]; try reflexivity;
    destruct (Sim.first_hit st) as [[|]|]; cbn [set_first];
    try discriminate; auto.
Qed.

(** [first_hit] is unset exactly while neither flag is set. *)
Lemma first_hit_none_iff (w : list Row) :
  forall st,
    (Sim.first_hit st = None <->
     Sim.hit_sl st = false /\ Sim.hit_1r st = false) ->
    let st' := fold_left step w st in
    Sim.first_hit st' = None <->
    Sim.hit_sl st' = false /\ Sim.hit_1r st' = false.
Proof.
  induction w as [|c w IH]; intros st H; [exact H|].
  cbn [fold_left]. apply IH.
  unfold step, sim_step. cbn [Sim.first_hit Sim.hit_1r Sim.hit_sl].
  destruct (sl_touch d sl (bar c)); destruct (r1_touch d entry rk (bar c));
    destruct (Sim.hit_sl st); destruct (Sim.hit_1r st);
    destruct (Sim.first_hit st) as [[|]|]; cbn in *;
    intuition congruence.
Qed.

End Simulation.

(** ** The scan of one anchor *)

Ltac bind_inv H :=
  repeat (let x := fresh "x" in
          let Hx := fresh "Hx" in
          apply bind_Ok in H; destruct H as [x [Hx H]]).

(** The fields a setup gets from the gates and from the simulation. *)
Lemma build_setup_fields (rows : list Row) (i : nat) (r1 r2 r3 r4 : Row)
  (c5 c6 : option Row) (d : Direction) (entry sl rk : Q) (s : Setup) :
  build_setup rows i r1 r2 r3 r4 c5 c6 d entry sl rk = Ok s ->
  let st := fold_left (sim_step d entry sl rk) (lookahead rows i) Sim.init in
  datetime s = ts (bar r1) /\ c1 s = r1 /\ c2 s = bar r2 /\ c3 s = bar r3 /\
  c4 s = bar r4 /\
  direction s = d /\ entry_price s = entry /\ stop_loss s = sl /\
  risk s = rk /\
  first_hit s = Sim.first_hit st /\ hit_1r s = Sim.hit_1r st /\
  hit_sl s = Sim.hit_sl st /\
  c4_close_r s = get_close_r (candle_result (Some r4) entry rk d) /\
  win_1r s = match Sim.first_hit st with
             | Some Hit1R => Sim.hit_1r st
             | Some HitSL => false
             | None => match c4_close_r s with
                       | Some x => Qltb 0 x
                       | None => false
                       end
             end.
Proof.
  unfold build_setup. rewrite simulate_spec. intro H.
  bind_inv H. inversion H; subst s; clear H.
  inversion Hx1; subst x1. cbn. repeat split; reflexivity.
Qed.

Lemma candle_result_Some (c : Row) (entry rk : Q) (d : Direction) :
  exists a b e f, candle_result (Some c) entry rk d = CandleStats a b e f.
Proof. destruct d; cbn; eauto. Qed.

Lemma build_setup_total (rows : list Row) (i : nat) (r1 r2 r3 r4 r5 r6 : Row)
  (d : Direction) (entry sl rk : Q) :
  exists s,
    build_setup rows i r1 r2 r3 r4 (Some r5) (Some r6) d entry sl rk = Ok s.
Proof.
  unfold build_setup. rewrite simulate_spec.
  destruct (classify_wick_profile_total (Open (bar r1)) (Close (bar r1))
              (High (bar r1)) (Low (bar r1))) as [w1 ->].
  destruct (classify_wick_profile_total (Open (bar r2)) (Close (bar r2))
              (High (bar r2)) (Low (bar r2))) as [w2 ->].
  destruct (candle_result_Some r4 entry rk d) as [a4 [b4 [e4 [f4 ->]]]].
  destruct (candle_result_Some r5 entry rk d) as [a5 [b5 [e5 [f5 ->]]]].
  destruct (candle_result_Some r6 entry rk d) as [a6 [b6 [e6 [f6 ->]]]].
  cbn [bind get_mfe_r get_mae_r]. eauto.
Qed.

Lemma iloc_opt_in_range (rows : list Row) (j : nat) :
  (j < length rows)%nat -> exists r, iloc_opt rows j = Ok (Some r).
Proof.
  intro H. unfold iloc_opt.
  destruct (Nat.ltb_spec j (length rows)); [|lia].
  destruct (iloc_in_range rows j H) as [r ->]. cbn. eauto.
Qed.

(** With six rows from [i] on, the loop body does not raise. *)
Lemma scan_anchor_total (rows : list Row) (t m : Q) (i : nat) :
  (i + 5 < length rows)%nat -> exists o, scan_anchor rows t m i = Ok o.
Proof.
  intro H. unfold scan_anchor.
  destruct (iloc_in_range rows i) as [r1 ->]; [lia|].
  destruct (iloc_in_range rows (i + 1)) as [r2 ->]; [lia|].
  destruct (iloc_in_range rows (i + 2)) as [r3 ->]; [lia|].
  destruct (iloc_in_range rows (i + 3)) as [r4 ->]; [lia|].
  destruct (iloc_opt_in_range rows (i + 4)) as [r5 ->]; [lia|].
  destruct (iloc_opt_in_range rows (i + 5)) as [r6 ->]; [lia|].
  cbn [bind].
  repeat match goal with
         | |- exists o, (if ?b then _ else _) = _ => destruct b; [eauto|]
         end.
  destruct (breakout_direction r2 r3) as [d|]; [|eauto].
  match goal with
  | |- exists o, (if ?b then _ else _) = _ => destruct b; [eauto|]
  end.
  destruct (build_setup_total rows i r1 r2 r3 r4 r5 r6 d (Close (bar r3))
              (stop_of d r2)
              (risk_of d (Close (bar r3)) (stop_of d r2))) as [s ->].
  cbn. eauto.
Qed.

(** What an appended setup has passed. *)
Lemma scan_anchor_Some (rows : list Row) (t m : Q) (i : nat) (s : Setup) :
  scan_anchor rows t m i = Ok (Some s) ->
  exists r1 r2 r3 r4 c5 c6 d,
    nth_error rows i = Some r1 /\ nth_error rows (i + 1) = Some r2 /\
    nth_error rows (i + 2) = Some r3 /\ nth_error rows (i + 3) = Some r4 /\
    isna (ATR r1) = false /\ fl_eqb (ATR r1) (Fin 0) = false /\
    fl_ltb (BodyRatio r1) (Fin t) = false /\
    fl_ltb (Fin (Body r1)) (fl_mul (ATR r1) (Fin m)) = false /\
    Qle_bool (High (bar r2)) (High (bar r1)) = true /\
    Qle_bool (Low (bar r1)) (Low (bar r2)) = true /\
    breakout_direction r2 r3 = Some d /\
    Qle_bool (risk_of d (Close (bar r3)) (stop_of d r2)) 0 = false /\
    build_setup rows i r1 r2 r3 r4 c5 c6 d (Close (bar r3)) (stop_of d r2)
                (risk_of d (Close (bar r3)) (stop_of d r2)) = Ok s.
Proof.
  unfold scan_anchor. intro H.
  apply bind_Ok in H. destruct H as [r1 [H1 H]].
  apply bind_Ok in H. destruct H as [r2 [H2 H]].
  apply bind_Ok in H. destruct H as [r3 [H3 H]].
  apply bind_Ok in H. destruct H as [r4 [H4 H]].
  apply bind_Ok in H. destruct H as [c5 [H5 H]].
  apply bind_Ok in H. destruct H as [c6 [H6 H]].
  apply iloc_Ok in H1, H2, H3, H4.
  destruct (isna (ATR r1) || fl_eqb (ATR r1) (Fin 0)) eqn:E1;
    [discriminate|].
  destruct (fl_ltb (BodyRatio r1) (Fin t)) eqn:E2; [discriminate|].
  destruct (fl_ltb (Fin (Body r1)) (fl_mul (ATR r1) (Fin m))) eqn:E3;
    [discriminate|].
  destruct (negb (Qle_bool (High (bar r2)) (High (bar r1))
                  && Qle_bool (Low (bar r1)) (Low (bar r2)))) eqn:E4;
    [discriminate|].
  destruct (breakout_direction r2 r3) as [d|] eqn:E5; [|discriminate].
  destruct (Qle_bool (risk_of d (Close (bar r3)) (stop_of d r2)) 0) eqn:E6;
    [discriminate|].
  apply bind_Ok in H. destruct H as [s' [Hb H]]. inversion H; subst s'.
  apply orb_false_iff in E1. destruct E1 as [E1a E1b].
  apply negb_false_iff, andb_true_iff in E4. destruct E4 as [E4a E4b].
  exists r1, r2, r3, r4, c5, c6, d. repeat split; assumption.
Qed.

(** [detect_setups] never raises: it returns the setups of the anchors
    [14 .. len-7], in order. *)
Lemma detect_setups_spec (df : list Bar) (t m : Q) :
  detect_setups df t m
  = Ok (collect (scan_anchor (frame df) t m)
                (py_range 14 (length df - 6))).
Proof.
  unfold detect_setups.
  destruct (Nat.ltb_spec (length df) 20) as [Hlt|Hge].
  - unfold py_range. replace (length df - 6 - 14)%nat with 0%nat by lia.
    reflexivity.
  - rewrite length_frame. rewrite foldM_collect; [reflexivity|].
    intros i Hi. apply in_py_range in Hi.
    apply scan_anchor_total. rewrite length_frame. lia.
Qed.

(** Every returned setup was appended by the loop body at some anchor. *)
Lemma accepted_setup (df : list Bar) (t m : Q) (setups : list Setup)
  (s : Setup) :
  detect_setups df t m = Ok setups -> In s setups ->
  exists i, (14 <= i < length df - 6)%nat /\
            scan_anchor (frame df) t m i = Ok (Some s).
Proof.
  rewrite detect_setups_spec. intro H. inversion H; subst setups; clear H.
  intro Hin. apply in_collect in Hin. destruct Hin as [i [Hi Hs]].
  apply in_py_range in Hi. eauto.
Qed.

Lemma map_fst_combine {A B : Type} (l : list A) (l' : list B) :
  (length l <= length l')%nat -> map fst (combine l l') = l.
Proof.
  revert l'. induction l as [|a l IH]; intros [|b l'] H; simpl in *;
    try reflexivity; try lia.
  f_equal. apply IH. lia.
Qed.

Lemma map_bar_frame (df : list Bar) : map bar (frame df) = df.
Proof.
  unfold frame. rewrite map_map. cbn [bar mk_row].
  apply map_fst_combine.
  rewrite length_combine, length_col_TR, length_col_ATR. lia.
Qed.

Lemma lookahead_frame (df : list Bar) (i : nat) :
  map bar (lookahead (frame df) i) = lookahead df i.
Proof.
  unfold lookahead.
  rewrite <- firstn_map, <- skipn_map, map_bar_frame, length_frame.
  reflexivity.
Qed.

Lemma find_map {A B : Type} (f : A -> B) (p : B -> bool) (l : list A) :
  option_map f (find (fun a => p (f a)) l) = find p (map f l).
Proof.
  induction l as [|a l IH]; [reflexivity|].
  cbn [find map]. destruct (p (f a)); [reflexivity | exact IH].
Qed.

Lemma find_first {A : Type} (p : A -> bool) (l : list A) :
  forall k b,
    nth_error l k = Some b ->
    (forall k' b', (k' < k)%nat -> nth_error l k' = Some b' -> p b' = false) ->
    p b = true -> find p l = Some b.
Proof.
  induction l as [|a l IH]; intros [|k] b Hk Hbefore Hp; simpl in Hk;
    try discriminate.
  - inversion Hk; subst a. cbn [find]. now rewrite Hp.
  - cbn [find]. rewrite (Hbefore 0%nat a); [|lia|reflexivity].
    apply (IH k b Hk); [|exact Hp].
    intros k' b' Hlt Hn. apply (Hbefore (S k') b'); [lia | exact Hn].
Qed.

Lemma find_absent {A : Type} (p : A -> bool) (l : list A) :
  (forall b, In b l -> p b = false) -> find p l = None.
Proof.
  induction l as [|a l IH]; intro H; [reflexivity|].
  cbn [find]. rewrite (H a (or_introl eq_refl)).
  apply IH. intros b Hb. apply H. now right.
Qed.

(** The label as a function of the bars of the window. *)
Lemma first_hit_window (df : list Bar) (i : nat) (d : Direction)
  (entry sl rk : Q) :
  Sim.first_hit (fold_left (sim_step d entry sl rk)
                           (lookahead (frame df) i) Sim.init)
  = match find (touches d entry sl rk) (lookahead df i) with
    | Some b => Some (if sl_touch d sl b then HitSL else Hit1R)
    | None => None
    end.
Proof.
  rewrite first_hit_fold by reflexivity.
  rewrite <- lookahead_frame, <- find_map.
  destruct (find _ (lookahead (frame df) i)); reflexivity.
Qed.

(** C2. For an accepted setup anchored at [i], the stop-loss test
    compares a candle with the stored stop, and the 1R test compares it
    with the level the code has computed from the entry and the risk, a
    sum of doubles: [level] below, within one rounding of the exact sum.
    Let [b] be a candle of the lookahead window before which no candle
    touches the stop-loss or that level.  If [b] touches the stop-loss,
    [first_hit] is ['SL'], also when [b] touches the level as well; if
    [b] touches the level and not the stop-loss, [first_hit] is ['1R'].
    If no candle of the window touches either, [first_hit] is [None]. *)
Theorem first_hit_earliest_touch (df : list Bar) (t m : Q)
  (setups : list Setup) (s : Setup) :
  detect_setups df t m = Ok setups -> In s setups ->
  exists i level,
    (14 <= i < length df - 6)%nat /\
    option_map ts (nth_error df i) = Some (datetime s) /\
    machine_sum level (entry_price s)
                (match direction s with
                 | LONG => risk s
                 | SHORT => - risk s
                 end) /\
    let w := lookahead df i in
    let sl_hit := sl_touch (direction s) (stop_loss s) in
    let r1_hit := level_touch (direction s) level in
    (forall k b,
        nth_error w k = Some b ->
        (forall k' b', (k' < k)%nat -> nth_error w k' = Some b' ->
                       sl_hit b' = false /\ r1_hit b' = false) ->
        (sl_hit b = true -> first_hit s = Some HitSL) /\
        (sl_hit b = false -> r1_hit b = true -> first_hit s = Some Hit1R)) /\
    ((forall b, In b w -> sl_hit b = false /\ r1_hit b = false) ->
     first_hit s = None).
Proof.
  intros Hd Hin.
  destruct (accepted_setup df t m setups s Hd Hin) as [i [Hi Hs]].
  apply scan_anchor_Some in Hs.
  destruct Hs as (r1 & r2 & r3 & r4 & c5 & c6 & d & H1 & _ & _ & _ & _ & _
                  & _ & _ & _ & _ & _ & _ & Hb).
  apply build_setup_fields in Hb. cbv zeta in Hb.
  destruct Hb as (Hdt & _ & _ & _ & _ & Hdir & He & Hsl & Hrk & Hfh & _).
  rewrite first_hit_window in Hfh.
  set (entry := Close (bar r3)) in *.
  set (sl := stop_of d r2) in *.
  set (rk := risk_of d entry sl) in *.
  exists i, (entry + match d with LONG => rk | SHORT => - rk end).
  split; [exact Hi|]. split.
  { apply nth_error_frame in H1. destruct H1 as (b & tr & atr & Hb & _ & ->).
    rewrite Hb, Hdt. reflexivity. }
  rewrite Hdir, He, Hsl, Hrk, Hfh. split.
  { unfold machine_sum.
    assert (E : entry + match d with LONG => rk | SHORT => - rk end
                - (entry + match d with LONG => rk | SHORT => - rk end) == 0)
      by ring.
    rewrite E. change (Qabs 0) with 0.
    pose proof (Qabs_nonneg entry).
    pose proof (Qabs_nonneg (match d with LONG => rk | SHORT => - rk end)).
    assert (0 < ulp) by reflexivity. nra. }
  cbv zeta.
  assert (L : forall b,
             level_touch d
               (entry + match d with LONG => rk | SHORT => - rk end) b
             = r1_touch d entry rk b).
  { intro b. unfold level_touch, r1_touch. destruct d; [reflexivity|].
    apply eq_true_iff_eq. rewrite !Qle_bool_iff.
    split; intro; lra. }
  split.
  - intros k b Hk Hbefore.
    assert (Hnone : forall k' b', (k' < k)%nat ->
              nth_error (lookahead df i) k' = Some b' ->
              touches d entry sl rk b' = false).
    { intros k' b' Hlt Hn. destruct (Hbefore k' b' Hlt Hn) as [A B].
      unfold touches. rewrite L in B. now rewrite A, B. }
    split.
    + intro Hsl'.
      rewrite (find_first _ _ k b Hk Hnone)
        by (unfold touches; now rewrite Hsl').
      now rewrite Hsl'.
    + intros Hsl' Hr1. rewrite L in Hr1.
      rewrite (find_first _ _ k b Hk Hnone)
        by (unfold touches; now rewrite Hsl', Hr1).
      now rewrite Hsl'.
  - intro Hno. rewrite find_absent; [reflexivity|].
    intros b Hb. destruct (Hno b Hb) as [A B]. rewrite L in B.
    unfold touches. now rewrite A, B.
Qed.

Lemma first_hit_earliest_touch_witness :
  detect_setups long_series (65 # 100) (13 # 10) = Ok long_setups /\
  forall s, In s long_setups -> first_hit s = Some HitSL.
Proof.
  assert (E : detect_setups long_series (65 # 100) (13 # 10)
              = Ok long_setups) by (vm_compute; reflexivity).
  split; [exact E|].
  intros s Hs.
  destruct (first_hit_earliest_touch _ _ _ _ s E Hs)
    as (i & level & Hi & _ & Hlevel & Hfirst & _).
  destruct Hs as [<-|[]].
  assert (i = 14%nat)
    by (change (length long_series) with 21%nat in Hi; lia).
  subst i. cbv zeta in Hfirst.
  apply (Hfirst 1%nat (bar_at 18 106 110 100 103)).
  - reflexivity.
  - intros k' b' Hlt Hn. destruct k' as [|k']; [|lia].
    inversion Hn; subst b'. split; [reflexivity|].
    unfold machine_sum in Hlevel.
    cbn [entry_price risk direction] in Hlevel.
    apply Qabs_Qle_condition in Hlevel. destruct Hlevel as [Lo _].
    cbn [level_touch direction bar_at High].
    apply Qle_bool_false. unfold ulp in Lo.
    assert (A1 : Qabs 105 == 105) by reflexivity.
    assert (A2 : Qabs 4 == 4) by reflexivity.
    rewrite A1, A2 in Lo. lra.
  - reflexivity.
Defined.

(** ** The win label *)

(** C3, as the code has it. For an accepted setup the win label is true
    when the first hit is 1R and false when it is the stop-loss.
    [first_hit] is unset exactly when neither level was touched in the
    lookahead window, and then the label tells whether the stored
    [c4_close_r] is strictly positive; the stored value is C4's close in
    risk units rounded to three decimals, so it can be [0.0] for a close
    in profit. *)
Theorem win_label_policy (df : list Bar) (t m : Q) (setups : list Setup)
  (s : Setup) :
  detect_setups df t m = Ok setups -> In s setups ->
  (first_hit s = Some Hit1R -> win_1r s = true) /\
  (first_hit s = Some HitSL -> win_1r s = false) /\
  (first_hit s = None <-> hit_sl s = false /\ hit_1r s = false) /\
  (hit_sl s = false -> hit_1r s = false ->
   exists x,
     c4_close_r s = Some x /\ win_1r s = Qltb 0 x /\
     rounded_to 3 x (c4_close_in_r s)).
Proof.
  intros Hd Hin.
  destruct (accepted_setup df t m setups s Hd Hin) as [i [_ Hs]].
  apply scan_anchor_Some in Hs.
  destruct Hs as (r1 & r2 & r3 & r4 & c5 & c6 & d & _ & _ & _ & _ & _ & _
                  & _ & _ & _ & _ & _ & _ & Hb).
  apply build_setup_fields in Hb. cbv zeta in Hb.
  destruct Hb as (_ & _ & _ & _ & Hc4 & Hdir & He & Hsl & Hrk & Hfh & H1r
                  & Hhs & Hcr & Hwin).
  set (entry := Close (bar r3)) in *.
  set (sl := stop_of d r2) in *.
  set (rk := risk_of d entry sl) in *.
  set (st := fold_left (sim_step d entry sl rk) (lookahead (frame df) i)
                       Sim.init) in *.
  assert (Hnone : Sim.first_hit st = None <->
                  Sim.hit_sl st = false /\ Sim.hit_1r st = false).
  { apply first_hit_none_iff. cbn. tauto. }
  assert (Hflag : Sim.first_hit st = Some Hit1R -> Sim.hit_1r st = true).
  { apply first_hit_1r_flag. cbn. discriminate. }
  assert (Hclose : c4_close_r s = Some (py_round (c4_close_in_r s) 3)).
  { rewrite Hcr. unfold c4_close_in_r. rewrite Hdir, Hc4, He, Hrk.
    destruct d; reflexivity. }
  rewrite Hfh, H1r, Hhs.
  split; [|split; [|split]].
  - intro F. rewrite Hwin, F. now apply Hflag.
  - intro F. now rewrite Hwin, F.
  - exact Hnone.
  - intros A B. exists (py_round (c4_close_in_r s) 3).
    split; [exact Hclose|]. split.
    + rewrite Hwin, (proj2 Hnone (conj A B)), Hclose. reflexivity.
    + now apply py_round_rounded_to.
Qed.

Lemma win_label_policy_witness :
  detect_setups long_series (65 # 100) (13 # 10) = Ok long_setups /\
  Forall (fun s => first_hit s = Some HitSL /\ win_1r s = false) long_setups.
Proof.
  assert (E : detect_setups long_series (65 # 100) (13 # 10)
              = Ok long_setups) by (vm_compute; reflexivity).
  split; [exact E|].
  apply Forall_forall. intros s Hs.
  destruct (win_label_policy _ _ _ _ s E Hs) as (_ & Hloss & _).
  destruct Hs as [<-|[]].
  split; [reflexivity | exact (Hloss eq_refl)].
Defined.

(** Without the rounding the statement fails: in [drift_series] neither
    level is touched and C4 closes above the entry of a long trade,
    1/4096 of the risk in profit, yet the setup is labelled a loss,
    because the test reads the rounded value 0.0. *)
Lemma win_label_unrounded_counterexample :
  exists s,
    detect_setups drift_series (65 # 100) (13 # 10) = Ok [s] /\
    direction s = LONG /\ hit_sl s = false /\ hit_1r s = false /\
    first_hit s = None /\
    Qltb 0 (c4_close_in_r s) = true /\
    c4_followed s = Some true /\
    win_1r s = false.
Proof.
  eexists. split; [vm_compute; reflexivity|].
  vm_compute. repeat split; reflexivity.
Qed.

(** ** The breakout gate *)

Lemma row_bar (df : list Bar) (i : nat) (r : Row) :
  nth_error (frame df) i = Some r ->
  nth_error df i = Some (bar r) /\ nth_error (col_ATR df) i = Some (ATR r).
Proof.
  intro H. apply nth_error_frame in H.
  destruct H as (b & tr & atr & Hb & Ha & ->). now split.
Qed.

Lemma breakout_direction_Some (r2 r3 : Row) (d : Direction) :
  breakout_direction r2 r3 = Some d ->
  match d with
  | LONG => High (bar r2) < Close (bar r3)
  | SHORT => Close (bar r3) < Low (bar r2)
  end.
Proof.
  unfold breakout_direction.
  destruct (Qltb (High (bar r2)) (Close (bar r3))) eqn:E1.
  - intro H. inversion H. now apply Qltb_lt.
  - destruct (Qltb (Close (bar r3)) (Low (bar r2))) eqn:E2; [|discriminate].
    intro H. inversion H. now apply Qltb_lt.
Qed.

(** C5. [detect_setups] returns what the loop body appends for the
    anchors 14 .. len-7.  A setup appended for anchor [i] is LONG only if
    the close of bar [i+2] is strictly above the high of bar [i+1], and
    SHORT only if it is strictly below the low of bar [i+1].  When that
    close equals the high or the low of bar [i+1], or lies inside its
    range, the loop body appends no setup for anchor [i]. *)
Theorem breakout_is_strict (df : list Bar) (t m : Q) :
  detect_setups df t m
  = Ok (collect (scan_anchor (frame df) t m)
                (py_range 14 (length df - 6))) /\
  (forall i s,
      scan_anchor (frame df) t m i = Ok (Some s) ->
      nth_error df (i + 1) = Some (c2 s) /\
      nth_error df (i + 2) = Some (c3 s) /\
      (direction s = LONG -> High (c2 s) < Close (c3 s)) /\
      (direction s = SHORT -> Close (c3 s) < Low (c2 s))) /\
  (forall i b2 b3,
      nth_error df (i + 1) = Some b2 ->
      nth_error df (i + 2) = Some b3 ->
      Close b3 == High b2 \/ Close b3 == Low b2 \/
      (Low b2 <= Close b3 /\ Close b3 <= High b2) ->
      forall s, scan_anchor (frame df) t m i <> Ok (Some s)).
Proof.
  split; [apply detect_setups_spec|]. split.
  - intros i s Hs. apply scan_anchor_Some in Hs.
    destruct Hs as (r1 & r2 & r3 & r4 & c5 & c6 & d & _ & H2 & H3 & _ & _
                    & _ & _ & _ & _ & _ & Hd & _ & Hb).
    apply build_setup_fields in Hb. cbv zeta in Hb.
    destruct Hb as (_ & _ & Hc2 & Hc3 & _ & Hdir & _).
    apply row_bar in H2, H3. rewrite Hc2, Hc3, Hdir.
    apply breakout_direction_Some in Hd.
    repeat split; try tauto; intro E; rewrite E in Hd; exact Hd.
  - intros i b2 b3 Hb2 Hb3 Hedge s Hs. apply scan_anchor_Some in Hs.
    destruct Hs as (r1 & r2 & r3 & r4 & c5 & c6 & d & _ & H2 & H3 & _ & _
                    & _ & _ & _ & _ & _ & Hd & Hrisk & _).
    apply row_bar in H2, H3. destruct H2 as [H2 _]. destruct H3 as [H3 _].
    rewrite Hb2 in H2. rewrite Hb3 in H3.
    inversion H2 as [E2]. inversion H3 as [E3]. subst b2 b3.
    apply breakout_direction_Some in Hd.
    destruct d; cbn [risk_of stop_of] in Hrisk; qprop; lra.
Qed.

Lemma breakout_is_strict_witness :
  exists s,
    scan_anchor (frame long_series) (65 # 100) (13 # 10) 14 = Ok (Some s) /\
    direction s = LONG /\ High (c2 s) < Close (c3 s).
Proof.
  assert (E : exists s, scan_anchor (frame long_series) (65 # 100) (13 # 10)
                                    14 = Ok (Some s) /\ direction s = LONG).
  { eexists. split; vm_compute; reflexivity. }
  destruct E as [s [E D]]. exists s. split; [exact E|]. split; [exact D|].
  destruct (proj1 (proj2 (breakout_is_strict long_series (65 # 100)
                            (13 # 10))) 14%nat s E) as (_ & _ & HL & _).
  exact (HL D).
Defined.

(** ** Short series *)

(** C10. A series of fewer than 20 bars is not a fault: [detect_setups]
    and [detect_zones] both return the empty collection. *)
Theorem short_series_no_results (df : list Bar) (t m zone_atr_min : Q) :
  (length df < 20)%nat ->
  detect_setups df t m = Ok [] /\ detect_zones df zone_atr_min = Ok [].
Proof.
  intro H. split.
  - unfold detect_setups.
    destruct (Nat.ltb_spec (length df) 20); [reflexivity | lia].
  - rewrite detect_zones_spec. unfold py_range.
    replace (length df - 20)%nat with 0%nat by lia. reflexivity.
Qed.

Lemma short_series_no_results_witness :
  (length (quiet 0 19) < 20)%nat /\
  detect_setups (quiet 0 19) (65 # 100) (13 # 10) = Ok [] /\
  detect_zones (quiet 0 19) (3 # 2) = Ok [].
Proof.
  split; [cbn; lia|].
  apply (short_series_no_results (quiet 0 19) (65 # 100) (13 # 10) (3 # 2)).
  cbn. lia.
Defined.

(** ** ATR warm-up and the candidates it excludes *)

Lemma zone_of_row_Some (m : Q) (r : Row) (z : Zone) :
  zone_of_row m r = Some z ->
  isna (ATR r) = false /\ fl_eqb (ATR r) (Fin 0) = false /\
  fl_ltb (Fin (Body r)) (fl_mul (ATR r) (Fin m)) = false /\
  z = (if IsBullish r
       then mkZone (ts (bar r)) (Open (bar r)) (Low (bar r)) demand
                   (fl_round (fl_div (Fin (Body r)) (ATR r)) 2)
                   (Body r) (High (bar r) - Low (bar r))
       else mkZone (ts (bar r)) (High (bar r)) (Open (bar r)) supply
                   (fl_round (fl_div (Fin (Body r)) (ATR r)) 2)
                   (Body r) (High (bar r) - Low (bar r))).
Proof.
  unfold zone_of_row.
  destruct (isna (ATR r)) eqn:E1; [discriminate|].
  destruct (fl_eqb (ATR r) (Fin 0)) eqn:E2; [discriminate|].
  destruct (fl_ltb (Fin (Body r)) (fl_mul (ATR r) (Fin m))) eqn:E3;
    [discriminate|].
  cbn [orb]. destruct (IsBullish r); intro H; inversion H; auto.
Qed.

Lemma zone_at_Some (rows : list Row) (m : Q) (i : nat) (z : Zone) :
  zone_at rows m i = Ok (Some z) ->
  exists r, nth_error rows i = Some r /\ zone_of_row m r = Some z.
Proof.
  unfold zone_at. intro H. apply bind_Ok in H. destruct H as [r [H1 H2]].
  apply iloc_Ok in H1. inversion H2. eauto.
Qed.

(** C4, as the code has it. The ATR column is [NaN] exactly on the 14
    bars 0 .. 13: the true range of bar 0 has no previous close and is
    itself [NaN], so the first full 14-bar window ends at bar 14.  A bar
    whose ATR is [NaN] or zero yields no setup as an anchor and no zone
    as an origin. *)
Theorem atr_warmup_excluded (df : list Bar) (t m zone_atr_min : Q) :
  (forall i atr,
      nth_error (col_ATR df) i = Some atr -> (atr = NaN <-> (i < 14)%nat)) /\
  detect_setups df t m
  = Ok (collect (scan_anchor (frame df) t m)
                (py_range 14 (length df - 6))) /\
  detect_zones df zone_atr_min
  = Ok (collect (zone_at (frame df) zone_atr_min)
                (py_range 20 (length df))) /\
  (forall i r,
      nth_error (frame df) i = Some r ->
      isna (ATR r) = true \/ fl_eqb (ATR r) (Fin 0) = true ->
      (forall s, scan_anchor (frame df) t m i <> Ok (Some s)) /\
      zone_at (frame df) zone_atr_min i = Ok None).
Proof.
  split; [|split; [apply detect_setups_spec|
                   split; [apply detect_zones_spec|]]].
  - intros i atr H. apply col_ATR_spec in H.
    destruct H as [[Hi ->]|[Hi [a [-> _]]]]; split; intro; try lia;
      try reflexivity; discriminate.
  - intros i r Hr Hbad. split.
    + intros s Hs. apply scan_anchor_Some in Hs.
      destruct Hs as (r1 & r2 & r3 & r4 & c5 & c6 & d & H1 & _ & _ & _
                      & Hna & Hz & _).
      rewrite Hr in H1. inversion H1; subst r1.
      destruct Hbad; congruence.
    + unfold zone_at. rewrite (proj2 (iloc_Ok _ _ _) Hr). cbn [bind].
      unfold zone_of_row.
      destruct Hbad as [-> | ->]; [reflexivity|].
      now rewrite orb_true_r.
Qed.

Lemma atr_warmup_excluded_witness :
  exists r,
    nth_error (frame long_series) 13 = Some r /\
    isna (ATR r) = true /\
    zone_at (frame long_series) (3 # 2) 13 = Ok None.
Proof.
  assert (E : exists r, nth_error (frame long_series) 13 = Some r /\
                        isna (ATR r) = true).
  { eexists. split; vm_compute; reflexivity. }
  destruct E as (r & Hr & Hna).
  exists r. split; [exact Hr|]. split; [exact Hna|].
  exact (proj2 (proj2 (proj2 (proj2 (atr_warmup_excluded long_series
                                       (65 # 100) (13 # 10) (3 # 2))))
                 13%nat r Hr (or_introl Hna))).
Defined.

(** The 14th bar (index 13) also has an undefined ATR, so the undefined
    values are not exactly the first 13. *)
Lemma atr_fourteenth_bar_counterexample :
  (13 < length long_series)%nat /\
  nth_error (col_ATR long_series) 13 = Some NaN.
Proof. split; [cbn; lia | vm_compute; reflexivity]. Qed.

(** ** Zone records *)

Lemma Forall_nth_error {A : Type} (P : A -> Prop) (l : list A) (i : nat)
  (x : A) : Forall P l -> nth_error l i = Some x -> P x.
Proof.
  intros F H. rewrite Forall_forall in F. apply F.
  eapply nth_error_In; eauto.
Qed.

(** A row of the frame with a usable ATR has a positive one. *)
Lemma usable_atr_positive (df : list Bar) (i : nat) (r : Row) :
  nth_error (frame df) i = Some r ->
  isna (ATR r) = false -> fl_eqb (ATR r) (Fin 0) = false ->
  exists a, ATR r = Fin a /\ 0 < a.
Proof.
  intros Hr Hna Hz. apply row_bar in Hr. destruct Hr as [_ Ha].
  apply col_ATR_spec in Ha.
  destruct Ha as [[_ E]|[_ [a [E Hpos]]]].
  - rewrite E in Hna. discriminate.
  - exists a. split; [exact E|]. rewrite E in Hz. cbn in Hz. qprop. lra.
Qed.


Lemma forallb_well_formed (df : list Bar) :
  forallb well_formedb df = true -> Forall well_formed df.
Proof.
  intro H. apply Forall_forall. intros b Hb.
  apply well_formedb_iff. rewrite forallb_forall in H. now apply H.
Qed.



(** ** The zone matcher *)

Lemma filter_idem {A : Type} (f : A -> bool) (l : list A) :
  filter f (filter f l) = filter f l.
Proof.
  induction l as [|a l IH]; [reflexivity|].
  cbn [filter]. destruct (f a) eqn:E; [|exact IH].
  cbn [filter]. now rewrite E, IH.
Qed.

(** Only the zones of the window reach the classification. *)
Lemma classify_zone_recent (dt : Timestamp) (price : Q) (zones_df : list Zone)
  (lb : Z) (q : Q) :
  classify_zone dt price zones_df lb q
  = classify_zone dt price (recent_zones dt lb zones_df) lb q.
Proof.
  unfold classify_zone.
  assert (I : recent_zones dt lb (recent_zones dt lb zones_df)
              = recent_zones dt lb zones_df) by apply filter_idem.
  rewrite I.
  destruct zones_df as [|z0 zs]; [reflexivity|].
  destruct (recent_zones dt lb (z0 :: zs)); reflexivity.
Qed.

Lemma recent_zones_In (dt : Timestamp) (lb : Z) (zones_df : list Zone)
  (z : Zone) :
  In z (recent_zones dt lb zones_df) <->
  In z zones_df /\ (dt - hours lb <= zone_datetime z < dt)%Z.
Proof.
  unfold recent_zones. rewrite filter_In, andb_true_iff.
  rewrite Z.leb_le, Z.ltb_lt. tauto.
Qed.

(** With an active zone the result is not the default one: the band is
    a band of a distance. *)
Lemma classify_zone_active_band (dt : Timestamp) (price : Q)
  (zones_df : list Zone) (lb : Z) (q : Q) :
  recent_zones dt lb zones_df <> [] ->
  zone_proximity_band (classify_zone dt price zones_df lb q) <> NoZone /\
  zone_dist_pct (classify_zone dt price zones_df lb q) <> None.
Proof.
  intro N. unfold classify_zone.
  destruct zones_df as [|z0 zs]; [contradiction|].
  destruct (recent_zones dt lb (z0 :: zs)) as [|y ys]; [contradiction|].
  set (st := zone_scan price q (y :: ys)).
  assert (B : proximity_band (min_dist_pct st) <> NoZone).
  { unfold proximity_band.
    repeat match goal with
           | |- (if ?b then _ else _) <> _ => destruct b
           end; discriminate. }
  destruct (nearest st); cbn [zone_proximity_band zone_dist_pct];
    (split; [exact B | discriminate]).
Qed.

Lemma classify_zone_inactive (dt : Timestamp) (price : Q)
  (zones_df : list Zone) (lb : Z) (q : Q) :
  recent_zones dt lb zones_df = [] ->
  classify_zone dt price zones_df lb q = no_zone_info.
Proof.
  intro E. unfold classify_zone. rewrite E. now destruct zones_df.
Qed.

(** C6. A zone is active for a query exactly when its origin timestamp
    lies in [[dt - lookback, dt)]: the classification of two zone tables
    with the same active zones is the same, a zone stamped at the query
    time is not active, and a zone stamped at [dt - lookback] is.  For a
    positive price [classify_zone] itself shows it: its band is
    ['No Zone'] exactly when no zone of the table is stamped in the
    window, a zone stamped at [dt - lookback] gives a band other than
    ['No Zone'], and a table whose zones are all stamped at the query
    time or later gives the default result. *)
Theorem zone_active_window (dt : Timestamp) (price : Q) (lookback_hours : Z)
  (proximity_pct : Q) (zones_df : list Zone) :
  (forall z,
      In z (recent_zones dt lookback_hours zones_df) <->
      In z zones_df /\
      (dt - hours lookback_hours <= zone_datetime z < dt)%Z) /\
  (forall zones_df',
      recent_zones dt lookback_hours zones_df'
      = recent_zones dt lookback_hours zones_df ->
      classify_zone dt price zones_df' lookback_hours proximity_pct
      = classify_zone dt price zones_df lookback_hours proximity_pct) /\
  (forall z,
      zone_datetime z = dt ->
      ~ In z (recent_zones dt lookback_hours zones_df)) /\
  (forall z,
      In z zones_df -> (0 < lookback_hours)%Z ->
      zone_datetime z = (dt - hours lookback_hours)%Z ->
      In z (recent_zones dt lookback_hours zones_df)) /\
  (0 < price ->
   let r := classify_zone dt price zones_df lookback_hours proximity_pct in
   (zone_proximity_band r = NoZone <->
    forall z, In z zones_df ->
              ~ (dt - hours lookback_hours <= zone_datetime z < dt)%Z) /\
   (forall z,
       In z zones_df -> (0 < lookback_hours)%Z ->
       zone_datetime z = (dt - hours lookback_hours)%Z ->
       zone_proximity_band r <> NoZone /\ zone_dist_pct r <> None) /\
   ((forall z, In z zones_df -> (dt <= zone_datetime z)%Z) ->
    r = no_zone_info)).
Proof.
  pose proof (recent_zones_In dt lookback_hours zones_df) as M.
  split; [exact M|]. split; [|split; [|split]].
  - intros zones' H.
    rewrite (classify_zone_recent dt price zones'), H.
    symmetry. apply classify_zone_recent.
  - intros z Hz Hin. apply M in Hin. lia.
  - intros z Hin Hlb Hz. apply M. split; [exact Hin|].
    unfold hours in *. lia.
  - intros _. cbv zeta.
    assert (Hempty : recent_zones dt lookback_hours zones_df = [] <->
                     forall z, In z zones_df ->
                       ~ (dt - hours lookback_hours <= zone_datetime z < dt)%Z).
    { split.
      - intros E z Hz Hw.
        assert (Hin : In z (recent_zones dt lookback_hours zones_df))
          by (apply M; now split).
        rewrite E in Hin. destruct Hin.
      - intro H.
        destruct (recent_zones dt lookback_hours zones_df) as [|z l] eqn:E;
          [reflexivity|].
        assert (Hin : In z (recent_zones dt lookback_hours zones_df))
          by (rewrite E; now left).
        apply recent_zones_In in Hin. destruct Hin as [Hz Hw].
        now destruct (H z Hz). }
    split; [|split].
    + rewrite <- Hempty. split.
      * intro Hb.
        destruct (recent_zones dt lookback_hours zones_df) as [|z l] eqn:E;
          [reflexivity|].
        destruct (classify_zone_active_band dt price zones_df
                    lookback_hours proximity_pct) as [N _];
          [rewrite E; discriminate | contradiction].
      * intro E. now rewrite classify_zone_inactive.
    + intros z Hin Hlb Hz. apply classify_zone_active_band.
      intro E.
      assert (Hr : In z (recent_zones dt lookback_hours zones_df)).
      { apply M. split; [exact Hin|]. unfold hours in *. lia. }
      rewrite E in Hr. destruct Hr.
    + intro H. apply classify_zone_inactive. apply Hempty.
      intros z Hz Hw. specialize (H z Hz). lia.
Qed.

Lemma zone_active_window_witness :
  In (zone_at_hour 28)
     (recent_zones (hours 100) 72 [zone_at_hour 100; zone_at_hour 28]) /\
  ~ In (zone_at_hour 100)
       (recent_zones (hours 100) 72 [zone_at_hour 100; zone_at_hour 28]) /\
  zone_proximity_band
    (classify_zone (hours 100) 100 [zone_at_hour 100; zone_at_hour 28]
                   72 (3 # 1000)) <> NoZone /\
  classify_zone (hours 100) 100 [zone_at_hour 100] 72 (3 # 1000)
  = no_zone_info.
Proof.
  pose proof (zone_active_window (hours 100) 100 72 (3 # 1000)
                [zone_at_hour 100; zone_at_hour 28])
    as (_ & _ & Hupper & Hlower & Hcz).
  assert (Hp : 0 < 100) by reflexivity.
  destruct (Hcz Hp) as (_ & Hused & _).
  split; [|split; [|split]].
  - apply Hlower; [right; left; reflexivity | lia | reflexivity].
  - apply Hupper. reflexivity.
  - apply (Hused (zone_at_hour 28));
      [right; left; reflexivity | lia | reflexivity].
  - pose proof (zone_active_window (hours 100) 100 72 (3 # 1000)
                  [zone_at_hour 100]) as (_ & _ & _ & _ & Hcz').
    destruct (Hcz' Hp) as (_ & _ & Hlater).
    apply Hlater. intros z [<-|[]]. cbn. lia.
Defined.

(** ** Proximity in the enricher *)

Lemma zone_scan_flags (price q : Q) (l : list Zone) :
  forall st,
    let st' := fold_left (zone_scan_step price q) l st in
    near_s st' || near_d st'
    = near_s st || near_d st || existsb (near price q) l.
Proof.
  induction l as [|z l IH]; intro st; cbn [fold_left existsb].
  - now rewrite orb_false_r.
  - cbv zeta in IH. rewrite IH. unfold zone_scan_step, near.
    destruct (fl_leb (zone_dist price z) (Fin q));
      [destruct (zone_type z)|]; cbn [near_s near_d];
      destruct (near_s st); destruct (near_d st);
      destruct (existsb _ l); reflexivity.
Qed.

(** The label is not [neutral] exactly when some active zone is within
    the threshold. *)
Lemma classify_zone_near (dt : Timestamp) (price : Q) (zones_df : list Zone)
  (lb : Z) (q : Q) :
  zone (classify_zone dt price zones_df lb q) <> neutral <->
  exists z, In z (recent_zones dt lb zones_df) /\ near price q z = true.
Proof.
  rewrite classify_zone_recent. unfold classify_zone.
  assert (I : recent_zones dt lb (recent_zones dt lb zones_df)
              = recent_zones dt lb zones_df) by apply filter_idem.
  rewrite I.
  destruct (recent_zones dt lb zones_df) as [|z0 zs] eqn:E.
  - cbn. split; [congruence | intros [z [[] _]]].
  - rewrite <- existsb_exists.
    pose proof (zone_scan_flags price q (z0 :: zs)
                  (mkZoneScan false false PInf None)) as F.
    cbv zeta in F. cbn [near_s near_d orb] in F.
    fold (zone_scan price q (z0 :: zs)) in F. rewrite <- F.
    destruct (nearest (zone_scan price q (z0 :: zs)));
      cbn [zone];
      destruct (near_s (zone_scan price q (z0 :: zs)));
      destruct (near_d (zone_scan price q (z0 :: zs)));
      cbn; split; congruence.
Qed.

(** A threshold [q] on the fractional distance is the threshold
    [q * price] on the absolute distance. *)
Lemma near_absolute (price q : Q) (z : Zone) :
  0 < price ->
  (near price q z = true <-> edge_distance price z <= q * price).
Proof.
  intro Hp. unfold near, zone_dist, edge_distance.
  destruct (Qle_bool (zone_bottom z) price && Qle_bool price (zone_top z)).
  - cbn [fl_leb]. rewrite Qle_bool_iff. split; intro; nra.
  - set (T := Qabs (price - zone_top z)).
    set (B := Qabs (price - zone_bottom z)).
    cbn [fl_div].
    assert (Qeq_bool price 0 = false) as -> by (apply Qeq_bool_false; lra).
    assert (HT : (T / price) * price == T) by (field; lra).
    assert (HB : (B / price) * price == B) by (field; lra).
    set (a := T / price) in *. set (b := B / price) in *.
    unfold fl_min, py_min. cbn [fl_ltb].
    destruct (Qltb b a) eqn:E1; destruct (Qltb B T) eqn:E2;
      cbn [fl_leb]; rewrite Qle_bool_iff; qprop; split; intro; nra.
Qed.

Lemma length_cumsum (l : list Q) : forall acc, length (cumsum acc l) = length l.
Proof.
  induction l as [|x l IH]; intro acc; [reflexivity|].
  cbn [cumsum length]. now rewrite IH.
Qed.

Lemma in_enrich_setups (sdf : list Setup) (zones_df : list Zone) (lb : Z)
  (p : Q) (e : Enriched) :
  In e (enrich_setups sdf zones_df lb p) ->
  In (setup e) sdf /\
  zone_info e = classify_zone (datetime (setup e)) (entry_price (setup e))
                              zones_df lb (p / 100).
Proof.
  unfold enrich_setups. rewrite in_map_iff.
  intros [[s c] [<- Hin]]. apply in_combine_l in Hin.
  cbn. split; [exact Hin | reflexivity].
Qed.

Lemma edge_distance_nonneg (price : Q) (z : Zone) :
  0 <= edge_distance price z.
Proof.
  unfold edge_distance.
  destruct (Qle_bool (zone_bottom z) price && Qle_bool price (zone_top z));
    [lra|].
  unfold py_min.
  destruct (Qltb _ _); apply Qabs_nonneg.
Qed.

(** A zone clearly within the fraction [q] of a positive price passes the
    nearness test, a zone clearly beyond it does not. *)
Lemma near_clearly (price q : Q) (z : Zone) :
  0 < price ->
  (clearly_within price q z -> near price q z = true) /\
  (clearly_beyond price q z -> near price q z = false).
Proof.
  intro Hp. pose proof (edge_distance_nonneg price z) as N.
  pose proof (near_absolute price q z Hp) as A.
  unfold clearly_within, clearly_beyond, slack.
  set (X := q * price) in *. set (ed := edge_distance price z) in *.
  split; intro H.
  - apply A. destruct (Qlt_le_dec X 0); nra.
  - destruct (near price q z) eqn:E; [|reflexivity].
    exfalso. assert (L : ed <= X) by now apply A.
    destruct (Qlt_le_dec X 0); nra.
Qed.

(** C8. [enrich_setups] passes [zone_proximity / 100] to [classify_zone]
    as [proximity_pct], and [classify_zone] compares it with distances
    that are fractions of the price.  So for a positive entry price the
    threshold of the enricher is [zone_proximity / 100] times the price:
    a setup with an active zone clearly within that distance of its
    entry is at a zone, and a setup whose active zones are all clearly
    beyond it is not.  The enricher's parameter is a percentage. *)
Theorem enrich_proximity_is_percent (sdf : list Setup) (zones_df : list Zone)
  (zone_lookback : Z) (zone_proximity : Q) :
  forall e,
    In e (enrich_setups sdf zones_df zone_lookback zone_proximity) ->
    0 < entry_price (setup e) ->
    let price := entry_price (setup e) in
    let active :=
      recent_zones (datetime (setup e)) zone_lookback zones_df in
    ((exists z, In z active /\
                clearly_within price (zone_proximity / 100) z) ->
     zone (zone_info e) <> neutral) /\
    ((forall z, In z active ->
                clearly_beyond price (zone_proximity / 100) z) ->
     zone (zone_info e) = neutral).
Proof.
  intros e He Hp. cbv zeta.
  apply in_enrich_setups in He. destruct He as [_ ->].
  pose proof (classify_zone_near (datetime (setup e))
                (entry_price (setup e)) zones_df zone_lookback
                (zone_proximity / 100)) as Hn.
  split.
  - intros [z [Hz Hw]]. apply Hn. exists z. split; [exact Hz|].
    now apply (near_clearly _ _ z Hp).
  - intro Hall.
    destruct (zone (classify_zone (datetime (setup e))
                      (entry_price (setup e)) zones_df zone_lookback
                      (zone_proximity / 100))) eqn:E; [reflexivity| | |];
      exfalso;
      destruct (proj1 Hn ltac:(discriminate)) as [z [Hz Hnear]];
      specialize (Hall z Hz);
      apply (near_clearly _ _ z Hp) in Hall; congruence.
Qed.

Lemma enrich_proximity_is_percent_witness :
  exists e,
    In e (enrich_setups long_setups [zone_above_entry] 720 (3 # 10)) /\
    0 < entry_price (setup e) /\
    zone (zone_info e) <> neutral.
Proof.
  assert (E : exists e,
             In e (enrich_setups long_setups [zone_above_entry] 720 (3 # 10))
             /\ entry_price (setup e) = 105 /\ datetime (setup e) = hours 14).
  { eexists. split; [left; reflexivity|]. split; reflexivity. }
  destruct E as (e & He & Hentry & Hdt).
  exists e. split; [exact He|].
  assert (Hp : 0 < entry_price (setup e)) by (rewrite Hentry; reflexivity).
  split; [exact Hp|].
  apply (proj1 (enrich_proximity_is_percent long_setups [zone_above_entry]
                  720 (3 # 10) e He Hp)).
  exists zone_above_entry. rewrite Hentry, Hdt.
  split; [left; reflexivity | vm_compute; discriminate].
Defined.

(** ** The diagnostic funnel *)

Lemma Qltb_negb (a b : Q) : negb (Qltb a b) = Qle_bool b a.
Proof.
  destruct (Qltb a b) eqn:E1; destruct (Qle_bool b a) eqn:E2;
    try reflexivity; qprop; lra.
Qed.

Lemma diag_step_funnel (rows : list Row) (t m : Q) (d d' : Diag) (i : nat) :
  diag_step rows t m d i = Ok d' -> funnel_ok d -> funnel_ok d'.
Proof.
  unfold diag_step. intros H F.
  apply bind_Ok in H. destruct H as [r1 [_ H]].
  destruct (isna (ATR r1) || fl_eqb (ATR r1) (Fin 0));
    [inversion H; now subst|].
  destruct (fl_geb (BodyRatio r1) (Fin t));
    destruct (fl_geb (Fin (Body r1)) (fl_mul (ATR r1) (Fin m)));
    cbn [andb negb] in H;
    try (inversion H; subst d'; unfold funnel_ok in *; cbn; lia).
  apply bind_Ok in H. destruct H as [r2 [_ H]].
  destruct (negb _);
    [inversion H; subst d'; unfold funnel_ok in *; cbn; lia|].
  apply bind_Ok in H. destruct H as [r3 [_ H]].
  destruct (breakout_direction r2 r3) as [dir|];
    [|inversion H; subst d'; unfold funnel_ok in *; cbn; lia].
  destruct (Qltb 0 _);
    inversion H; subst d'; unfold funnel_ok in *; cbn; lia.
Qed.

Lemma row_shape (df : list Bar) (i : nat) (r : Row) :
  nth_error (frame df) i = Some r ->
  Body r = Qabs (Close (bar r) - Open (bar r)) /\
  Range r = High (bar r) - Low (bar r) /\
  BodyRatio r = fl_div (Fin (Body r)) (replace0 (Range r)).
Proof.
  intro H. apply nth_error_frame in H.
  destruct H as (b & tr & atr & _ & _ & ->). repeat split.
Qed.

(** On a consistent row with a usable ATR the detector's two [continue]
    tests and the funnel's two pass flags decide the same way. *)
Lemma gates_agree (df : list Bar) (i : nat) (r : Row) (t m : Q) :
  nth_error (frame df) i = Some r ->
  isna (ATR r) = false -> fl_eqb (ATR r) (Fin 0) = false ->
  consistent_row m r ->
  fl_geb (BodyRatio r) (Fin t)
  && fl_geb (Fin (Body r)) (fl_mul (ATR r) (Fin m))
  = negb (fl_ltb (BodyRatio r) (Fin t))
    && negb (fl_ltb (Fin (Body r)) (fl_mul (ATR r) (Fin m))).
Proof.
  intros Hr Hna Hz Hc.
  destruct (usable_atr_positive df i r Hr Hna Hz) as [a [-> Ha]].
  destruct (row_shape df i r Hr) as (_ & _ & ->).
  cbn [fl_mul fl_geb fl_leb fl_ltb]. unfold replace0.
  destruct (Qeq_bool (Range r) 0) eqn:E.
  - destruct Hc as [Hc|[Hb Hm]]; [qprop; contradiction|].
    cbn [fl_div fl_leb fl_ltb andb negb].
    assert (Qltb (Body r) (a * m) = true) as -> by (apply Qltb_lt; nra).
    reflexivity.
  - cbn [fl_div]. rewrite E. cbn [fl_leb fl_ltb].
    now rewrite !Qltb_negb.
Qed.

Lemma valid_risk_side_counts (d : Diag) (br ar : bool) :
  pass_valid_risk
    (if ar then inc_pass_body_atr
                  (if br then inc_pass_body_ratio (inc_total_scanned d)
                   else inc_total_scanned d)
     else if br then inc_pass_body_ratio (inc_total_scanned d)
          else inc_total_scanned d)
  = pass_valid_risk d.
Proof. destruct ar; destruct br; reflexivity. Qed.

(** One iteration of the funnel loop against the same iteration of the
    detector loop. *)
Lemma diag_step_vs_scan (df : list Bar) (t m : Q) (d : Diag) (i : nat) :
  (i + 5 < length df)%nat ->
  (forall r, nth_error (frame df) i = Some r -> consistent_row m r) ->
  exists d' o,
    diag_step (frame df) t m d i = Ok d' /\
    scan_anchor (frame df) t m i = Ok o /\
    pass_valid_risk d'
    = (pass_valid_risk d + match o with Some _ => 1 | None => 0 end)%nat.
Proof.
  intros Hi Hc. unfold diag_step, scan_anchor.
  assert (L := length_frame df).
  destruct (iloc_in_range (frame df) i) as [r1 E1]; [lia|].
  destruct (iloc_in_range (frame df) (i + 1)) as [r2 E2]; [lia|].
  destruct (iloc_in_range (frame df) (i + 2)) as [r3 E3]; [lia|].
  destruct (iloc_in_range (frame df) (i + 3)) as [r4 E4]; [lia|].
  destruct (iloc_opt_in_range (frame df) (i + 4)) as [r5 E5]; [lia|].
  destruct (iloc_opt_in_range (frame df) (i + 5)) as [r6 E6]; [lia|].
  rewrite E1, E2, E3, E4, E5, E6. cbn [bind].
  apply iloc_Ok in E1.
  destruct (isna (ATR r1) || fl_eqb (ATR r1) (Fin 0)) eqn:G.
  { exists d, None. repeat split. lia. }
  apply orb_false_iff in G. destruct G as [Gna Gz].
  rewrite (gates_agree df i r1 t m E1 Gna Gz (Hc r1 E1)).
  set (br := fl_geb (BodyRatio r1) (Fin t)).
  set (ar := fl_geb (Fin (Body r1)) (fl_mul (ATR r1) (Fin m))).
  destruct (fl_ltb (BodyRatio r1) (Fin t)).
  { eexists; exists None. repeat split.
    cbn [negb andb]. rewrite valid_risk_side_counts. lia. }
  destruct (fl_ltb (Fin (Body r1)) (fl_mul (ATR r1) (Fin m))).
  { eexists; exists None. repeat split.
    cbn [negb andb]. rewrite valid_risk_side_counts. lia. }
  cbn [negb andb].
  destruct (negb (Qle_bool (High (bar r2)) (High (bar r1))
                  && Qle_bool (Low (bar r1)) (Low (bar r2)))).
  { eexists; exists None. repeat split.
    cbn [pass_valid_risk inc_pass_both_c1].
    rewrite valid_risk_side_counts. lia. }
  destruct (breakout_direction r2 r3) as [dir|].
  2:{ eexists; exists None. repeat split.
      cbn [pass_valid_risk inc_pass_inside_bar inc_pass_both_c1].
      rewrite valid_risk_side_counts. lia. }
  set (rk := risk_of dir (Close (bar r3)) (stop_of dir r2)).
  rewrite <- (Qltb_negb 0 rk).
  destruct (Qltb 0 rk).
  - cbn [negb].
    destruct (build_setup_total (frame df) i r1 r2 r3 r4 r5 r6 dir
                (Close (bar r3)) (stop_of dir r2) rk) as [s ->].
    cbn [bind]. eexists; exists (Some s). repeat split.
    cbn [pass_valid_risk inc_pass_valid_risk inc_pass_c3_breakout
         inc_pass_inside_bar inc_pass_both_c1].
    rewrite valid_risk_side_counts. lia.
  - cbn [negb]. eexists; exists None. repeat split.
    cbn [pass_valid_risk inc_pass_c3_breakout inc_pass_inside_bar
         inc_pass_both_c1].
    rewrite valid_risk_side_counts. lia.
Qed.

Lemma diag_step_total (rows : list Row) (t m : Q) (d : Diag) (i : nat) :
  (i + 2 < length rows)%nat -> exists d', diag_step rows t m d i = Ok d'.
Proof.
  intro H. unfold diag_step.
  destruct (iloc_in_range rows i) as [r1 ->]; [lia|].
  destruct (iloc_in_range rows (i + 1)) as [r2 ->]; [lia|].
  destruct (iloc_in_range rows (i + 2)) as [r3 ->]; [lia|].
  cbn [bind].
  destruct (isna (ATR r1) || fl_eqb (ATR r1) (Fin 0)); [eauto|].
  destruct (negb (fl_geb (BodyRatio r1) (Fin t)
                  && fl_geb (Fin (Body r1)) (fl_mul (ATR r1) (Fin m))));
    [eauto|].
  destruct (negb (Qle_bool (High (bar r2)) (High (bar r1))
                  && Qle_bool (Low (bar r1)) (Low (bar r2)))); [eauto|].
  destruct (breakout_direction r2 r3) as [dir|]; [|eauto].
  destruct (Qltb 0 (risk_of dir (Close (bar r3)) (stop_of dir r2))); eauto.
Qed.

Lemma foldM_total {A S : Type} (f : S -> A -> res S) (l : list A) :
  (forall s a, In a l -> exists s', f s a = Ok s') ->
  forall s, exists s', foldM f l s = Ok s'.
Proof.
  induction l as [|x l IH]; intros H s; cbn [foldM]; [eauto|].
  destruct (H s x (or_introl eq_refl)) as [s1 ->]. cbn [bind].
  apply IH. intros s' a Ha. apply H. now right.
Qed.

(** The funnel loop against the detector loop over the same anchors. *)
Lemma diag_loop_valid_risk (df : list Bar) (t m : Q) (l : list nat) :
  (forall i, In i l ->
             (i + 5 < length df)%nat /\
             forall r, nth_error (frame df) i = Some r -> consistent_row m r) ->
  forall d,
  exists d',
    foldM (diag_step (frame df) t m) l d = Ok d' /\
    pass_valid_risk d'
    = (pass_valid_risk d
       + length (collect (scan_anchor (frame df) t m) l))%nat.
Proof.
  induction l as [|i l IH]; intros H d.
  - exists d. split; [reflexivity | cbn; lia].
  - destruct (H i (or_introl eq_refl)) as [Hi Hc].
    destruct (diag_step_vs_scan df t m d i Hi Hc) as (d1 & o & E1 & E2 & E3).
    destruct (IH (fun j Hj => H j (or_intror Hj)) d1) as (d' & E4 & E5).
    exists d'. cbn [foldM]. rewrite E1. cbn [bind]. split; [exact E4|].
    unfold collect in *. cbn [flat_map]. rewrite E2, length_app, E5, E3.
    destruct o; cbn [length]; lia.
Qed.

Lemma zero_range_no_body (b : Bar) :
  well_formed b -> High b - Low b == 0 -> Qabs (Close b - Open b) == 0.
Proof.
  intros [Hmax Hmin] Hr.
  destruct (py_max_le (Open b) (Close b)) as [M1 M2].
  destruct (py_min_le (Open b) (Close b)) as [N1 N2].
  apply Qabs_case; intro; lra.
Qed.

Lemma consistent_rows (df : list Bar) (m : Q) :
  Forall (fun b => ~ High b == Low b) df \/
  (Forall well_formed df /\ 0 < m) ->
  forall i r, nth_error (frame df) i = Some r -> consistent_row m r.
Proof.
  intros H i r Hr.
  destruct (row_shape df i r Hr) as (Hb & Hrg & _).
  destruct (row_bar df i r Hr) as [Hbar _].
  unfold consistent_row. rewrite Hb, Hrg.
  destruct H as [H|[H Hm]].
  - left. pose proof (Forall_nth_error _ df i (bar r) H Hbar) as N.
    cbv beta in N. lra.
  - destruct (Qeq_bool (High (bar r) - Low (bar r)) 0) eqn:E; qprop.
    + right. split; [|exact Hm].
      apply zero_range_no_body; [|exact E].
      exact (Forall_nth_error _ df i (bar r) H Hbar).
    + left. exact E.
Qed.

(** C1, as the code has it. [detect_setups_with_diagnostics] returns the
    setups of [detect_setups] and a funnel in which the body-ratio and
    the body-size counts are each bounded by the number of scanned
    candidates and each bound the count of candidates passing both; from
    there on the counts do not increase from stage to stage.  When no
    bar has [High = Low], or when the bars are well formed and [atr_mult]
    is positive, the last count is the number of setups. *)
Theorem funnel_counts (df : list Bar) (t m : Q) :
  exists setups diag,
    detect_setups_with_diagnostics df t m = Ok (setups, diag) /\
    detect_setups df t m = Ok setups /\
    funnel_ok diag /\
    (Forall (fun b => ~ High b == Low b) df \/
     (Forall well_formed df /\ 0 < m) ->
     pass_valid_risk diag = length setups).
Proof.
  unfold detect_setups_with_diagnostics.
  destruct (Nat.ltb_spec (length df) 20) as [Hlt|Hge].
  { exists [], diag0. split; [reflexivity|]. split.
    - unfold detect_setups.
      destruct (Nat.ltb_spec (length df) 20); [reflexivity | lia].
    - split; [unfold funnel_ok; cbn; lia | reflexivity]. }
  rewrite detect_setups_spec, length_frame.
  set (anchors := py_range 14 (length df - 6)).
  assert (Hin : forall i, In i anchors -> (i + 5 < length df)%nat).
  { intros i Hi. apply in_py_range in Hi. lia. }
  destruct (foldM_total (diag_step (frame df) t m) anchors) with (s := diag0)
    as [diag E].
  { intros s i Hi. apply diag_step_total. rewrite length_frame.
    specialize (Hin i Hi). lia. }
  rewrite E. cbn [bind].
  exists (collect (scan_anchor (frame df) t m) anchors), diag.
  split; [reflexivity|]. split; [reflexivity|]. split.
  - apply (foldM_invariant funnel_ok _ anchors
             (fun s a s' _ => diag_step_funnel (frame df) t m s s' a)
             diag0 diag E).
    unfold funnel_ok. cbn. lia.
  - intro H.
    destruct (diag_loop_valid_risk df t m anchors) with (d := diag0)
      as (d' & E' & C).
    { intros i Hi. split; [exact (Hin i Hi)|].
      apply (consistent_rows df m H). }
    rewrite E in E'. inversion E'; subst d'. exact C.
Qed.

Lemma funnel_counts_witness :
  Forall well_formed long_series /\ 0 < 13 # 10 /\
  exists setups diag,
    detect_setups_with_diagnostics long_series (65 # 100) (13 # 10)
    = Ok (setups, diag) /\
    pass_valid_risk diag = length setups.
Proof.
  assert (W : Forall well_formed long_series)
    by (apply forallb_well_formed; vm_compute; reflexivity).
  assert (P : 0 < 13 # 10) by reflexivity.
  split; [exact W|]. split; [exact P|].
  destruct (funnel_counts long_series (65 # 100) (13 # 10))
    as (setups & diag & E & _ & _ & C).
  exists setups, diag. split; [exact E|].
  apply C. right. split; [exact W | exact P].
Defined.

(** The funnel is not a chain of nested stages: the anchor of
    [wicky_series] has a body of 4 in a range of 12, so it fails the
    body-ratio test (0.33 < 0.65) and passes the body-size test
    (4 >= 1.3 * ATR); the funnel then has [pass_body_ratio = 0] and
    [pass_body_atr = 1]. *)
Lemma funnel_not_nested_counterexample :
  forallb well_formedb wicky_series = true /\
  exists setups diag,
    detect_setups_with_diagnostics wicky_series (65 # 100) (13 # 10)
    = Ok (setups, diag) /\
    pass_body_ratio diag = 0%nat /\ pass_body_atr diag = 1%nat /\
    ~ funnel_monotone diag.
Proof.
  split; [vm_compute; reflexivity|].
  eexists. eexists. split; [vm_compute; reflexivity|].
  split; [reflexivity|]. split; [reflexivity|].
  unfold funnel_monotone. cbn. lia.
Qed.

(** Without either condition the two loops can differ: on a zero-range
    anchor the body ratio is [NaN]; the detector's test
    [BodyRatio < thresh] lets it through while the funnel's test
    [BodyRatio >= thresh] does not.  With [atr_mult = 0] the anchor of
    [flat_series] yields a setup that the funnel does not count. *)
Lemma funnel_nan_ratio_divergence :
  forallb well_formedb flat_series = true /\
  exists s diag,
    detect_setups_with_diagnostics flat_series (65 # 100) 0
    = Ok ([s], diag) /\
    pass_valid_risk diag = 0%nat.
Proof.
  split; [vm_compute; reflexivity|].
  eexists. eexists. split; vm_compute; reflexivity.
Qed.

(* ================================================================== *)
(** * Further properties of the detector *)
(* ================================================================== *)

(** The outcome fields a setup gets from the simulation. *)
Lemma build_setup_outcome (rows : list Row) (i : nat) (r1 r2 r3 r4 : Row)
  (c5 c6 : option Row) (d : Direction) (entry sl rk : Q) (s : Setup) :
  build_setup rows i r1 r2 r3 r4 c5 c6 d entry sl rk = Ok s ->
  let st := fold_left (sim_step d entry sl rk) (lookahead rows i) Sim.init in
  hit_1r s = Sim.hit_1r st /\ hit_15r s = Sim.hit_15r st /\
  hit_2r s = Sim.hit_2r st /\ hit_sl s = Sim.hit_sl st /\
  max_favorable_r s = Sim.mfe st /\ max_adverse_r s = Sim.mae st.
Proof.
  unfold build_setup. rewrite simulate_spec. intro H.
  bind_inv H. inversion H; subst s; clear H.
  inversion Hx1; subst x1. cbn. repeat split; reflexivity.
Qed.



Lemma bool_iff_cases (b : bool) (P : Prop) :
  (b = true <-> P) -> (b = true /\ P) \/ (b = false /\ ~ P).
Proof. destruct b; intro H; [left | right]; intuition congruence. Qed.

Lemma Qle_bool_cases (a b : Q) :
  (Qle_bool a b = true /\ a <= b) \/ (Qle_bool a b = false /\ b < a).
Proof.
  destruct (Qle_bool a b) eqn:E; [left | right]; split; try reflexivity;
    qprop; assumption.
Qed.

Lemma Qle_div_r (k x rk : Q) : 0 < rk -> (k <= x / rk <-> k * rk <= x).
Proof.
  intro H. split; intro L.
  - assert (E : x / rk * rk == x) by (field; lra). nra.
  - apply Qle_shift_div_l; assumption.
Qed.

Section Excursions.

Variables (d : Direction) (entry sl rk : Q).

Hypothesis risk_positive : 0 < rk.
Hypothesis stop_at_one_risk :
  sl == match d with LONG => entry - rk | SHORT => entry + rk end.

(** One candle keeps the flags and the excursions in agreement. *)
Lemma sim_step_consistent (st : Sim.t) (c : Row) :
  outcome_consistent st -> outcome_consistent (sim_step d entry sl rk st c).
Proof.
  intros (Hf & Ha & H1 & H15 & H2 & Hs).
  unfold outcome_consistent, sim_step.
  cbn [Sim.mfe Sim.mae Sim.hit_1r Sim.hit_15r Sim.hit_2r Sim.hit_sl].
  set (fav := match d with
              | LONG => (High (bar c) - entry) / rk
              | SHORT => (entry - Low (bar c)) / rk
              end).
  set (adv := match d with
              | LONG => (entry - Low (bar c)) / rk
              | SHORT => (High (bar c) - entry) / rk
              end).
  assert (T1 : r1_touch d entry rk (bar c) = true <-> 1 <= fav).
  { unfold r1_touch, fav. destruct d; rewrite Qle_bool_iff, Qle_div_r
      by assumption; split; intro; lra. }
  assert (T15 : r15_touch d entry rk (bar c) = true <-> 3 # 2 <= fav).
  { unfold r15_touch, fav. destruct d; rewrite Qle_bool_iff, Qle_div_r
      by assumption; split; intro; lra. }
  assert (T2 : r2_touch d entry rk (bar c) = true <-> 2 <= fav).
  { unfold r2_touch, fav. destruct d; rewrite Qle_bool_iff, Qle_div_r
      by assumption; split; intro; lra. }
  assert (Ts : sl_touch d sl (bar c) = true <-> 1 <= adv).
  { unfold sl_touch, adv. destruct d; rewrite Qle_bool_iff, Qle_div_r
      by assumption; split; intro; lra. }
  destruct (py_max_le (Sim.mfe st) fav) as [M1 M2].
  destruct (py_max_le (Sim.mae st) adv) as [A1 A2].
  assert (Mc : py_max (Sim.mfe st) fav == Sim.mfe st \/
               py_max (Sim.mfe st) fav == fav)
    by (unfold py_max; destruct (Qltb _ _); [right | left]; reflexivity).
  assert (Ac : py_max (Sim.mae st) adv == Sim.mae st \/
               py_max (Sim.mae st) adv == adv)
    by (unfold py_max; destruct (Qltb _ _); [right | left]; reflexivity).
  split; [lra|]. split; [lra|].
  apply bool_iff_cases in H1, H15, H2, Hs, T1, T15, T2, Ts.
  destruct H1 as [[-> ?]|[-> ?]]; destruct T1 as [[-> ?]|[-> ?]];
    destruct H15 as [[-> ?]|[-> ?]]; destruct T15 as [[-> ?]|[-> ?]];
    destruct H2 as [[-> ?]|[-> ?]]; destruct T2 as [[-> ?]|[-> ?]];
    destruct Hs as [[-> ?]|[-> ?]]; destruct Ts as [[-> ?]|[-> ?]];
    cbn [andb negb fst snd];
    repeat split; intro; try reflexivity; try discriminate;
    destruct Mc; destruct Ac; lra.
Qed.

Lemma simulation_consistent (w : list Row) :
  forall st,
    outcome_consistent st ->
    outcome_consistent (fold_left (sim_step d entry sl rk) w st).
Proof.
  induction w as [|c w IH]; intros st H; [exact H|].
  cbn [fold_left]. apply IH. now apply sim_step_consistent.
Qed.

End Excursions.

(** X2. For an accepted setup the excursions are not negative, the
    target flags are nested (a setup that hit 2R hit 1.5R, and one that
    hit 1.5R hit 1R), and a touched stop shows in the adverse excursion,
    which is then at least one risk unit. *)
Theorem outcome_flags_match_excursions (df : list Bar) (t m : Q)
  (setups : list Setup) (s : Setup) :
  detect_setups df t m = Ok setups -> In s setups ->
  0 <= max_favorable_r s /\ 0 <= max_adverse_r s /\
  (hit_2r s = true -> hit_15r s = true) /\
  (hit_15r s = true -> hit_1r s = true) /\
  (hit_sl s = true -> 1 <= max_adverse_r s).
Proof.
  intros Hd Hin.
  destruct (accepted_setup df t m setups s Hd Hin) as [i [_ Hs]].
  apply scan_anchor_Some in Hs.
  destruct Hs as (r1 & r2 & r3 & r4 & c5 & c6 & d & _ & _ & _ & _ & _ & _
                  & _ & _ & _ & _ & _ & Hrisk & Hb).
  apply build_setup_outcome in Hb. cbv zeta in Hb.
  destruct Hb as (-> & -> & -> & -> & -> & ->).
  set (entry := Close (bar r3)) in *.
  set (sl := stop_of d r2) in *.
  set (rk := risk_of d entry sl) in *.
  qprop.
  assert (C : outcome_consistent
                (fold_left (sim_step d entry sl rk)
                           (lookahead (frame df) i) Sim.init)).
  { apply simulation_consistent.
    - exact Hrisk.
    - unfold rk, risk_of. destruct d; lra.
    - unfold outcome_consistent. cbn.
      repeat split; intro; try discriminate; lra. }
  destruct C as (Hf & Ha & H1 & H15 & H2 & Hsl).
  split; [exact Hf|]. split; [exact Ha|].
  split; [|split]; intro H.
  - apply H15. apply H2 in H. lra.
  - apply H1. apply H15 in H. lra.
  - now apply Hsl.
Qed.

Lemma outcome_flags_match_excursions_witness :
  detect_setups long_series (65 # 100) (13 # 10) = Ok long_setups /\
  Forall (fun s => 0 <= max_favorable_r s /\ 1 <= max_adverse_r s)
         long_setups.
Proof.
  assert (E : detect_setups long_series (65 # 100) (13 # 10)
              = Ok long_setups) by (vm_compute; reflexivity).
  split; [exact E|].
  apply Forall_forall. intros s Hs.
  destruct (outcome_flags_match_excursions _ _ _ _ s E Hs)
    as (Hf & _ & _ & _ & Hsl).
  destruct Hs as [<-|[]].
  split; [exact Hf | apply Hsl; reflexivity].
Defined.

(** ** Order and number of the results *)

Lemma strongly_sorted_nth_error {A : Type} (R : A -> A -> Prop) (l : list A) :
  StronglySorted R l ->
  forall i j a b,
    (i < j)%nat -> nth_error l i = Some a -> nth_error l j = Some b -> R a b.
Proof.
  induction 1 as [|x l Hl IH Hx]; intros i j a b Hij Hi Hj.
  - destruct i; discriminate.
  - destruct j as [|j]; [lia|]. cbn in Hj.
    destruct i as [|i]; cbn in Hi.
    + inversion Hi; subst a. rewrite Forall_forall in Hx. apply Hx.
      eapply nth_error_In; eauto.
    + apply (IH i j); [lia | assumption | assumption].
Qed.

(** What a filtering loop over increasing indices collects is sorted by
    any key that increases with the index. *)
Lemma collect_sorted {B : Type} (f : nat -> res (option B)) (key : B -> Z)
  (T : nat -> Z -> Prop) (n : nat) :
  forall a,
    (forall i s, (a <= i < a + n)%nat -> f i = Ok (Some s) -> T i (key s)) ->
    (forall i j x y, (a <= i < j)%nat -> (j < a + n)%nat ->
                     T i x -> T j y -> (x < y)%Z) ->
    StronglySorted Z.lt (map key (collect f (seq a n))).
Proof.
  induction n as [|n IH]; intros a HT Hlt; [constructor|].
  cbn [seq]. unfold collect. cbn [flat_map].
  fold (collect f (seq (S a) n)).
  assert (Htail : StronglySorted Z.lt (map key (collect f (seq (S a) n)))).
  { apply IH.
    - intros i s Hi. apply HT. lia.
    - intros i j x y Hi Hj. apply Hlt; lia. }
  destruct (f a) as [[s|]|] eqn:E; cbn [app map]; try exact Htail.
  constructor; [exact Htail|].
  apply Forall_forall. intros y Hy. apply in_map_iff in Hy.
  destruct Hy as [s' [<- Hs']]. apply in_collect in Hs'.
  destruct Hs' as [j [Hj Ej]]. apply in_seq in Hj.
  apply (Hlt a j); try lia.
  - apply HT; [lia | exact E].
  - apply HT; [lia | exact Ej].
Qed.

Lemma length_collect {A B : Type} (f : A -> res (option B)) (l : list A) :
  (length (collect f l) <= length l)%nat.
Proof.
  induction l as [|x l IH]; [cbn; lia|].
  unfold collect. cbn [flat_map]. fold (collect f l).
  rewrite length_app.
  destruct (f x) as [[s|]|]; cbn [length]; lia.
Qed.

(** X3. On a series with strictly increasing timestamps the setups come
    out in chronological order with distinct origin timestamps, and
    there are at most [max (len - 20) 0] of them. *)
Theorem setups_chronological (df : list Bar) (t m : Q) :
  StronglySorted Z.lt (map ts df) ->
  exists setups,
    detect_setups df t m = Ok setups /\
    StronglySorted Z.lt (map datetime setups) /\
    NoDup (map datetime setups) /\
    (Z.of_nat (length setups) <= Z.max (Z.of_nat (length df) - 20) 0)%Z.
Proof.
  intro Hsorted. eexists. split; [apply detect_setups_spec|].
  assert (S : StronglySorted Z.lt
                (map datetime
                     (collect (scan_anchor (frame df) t m)
                              (py_range 14 (length df - 6))))).
  { unfold py_range.
    apply (collect_sorted _ datetime
             (fun i x => option_map ts (nth_error df i) = Some x)).
    - intros i s _ Hs. apply scan_anchor_Some in Hs.
      destruct Hs as (r1 & r2 & r3 & r4 & c5 & c6 & d & H1 & _ & _ & _ & _
                      & _ & _ & _ & _ & _ & _ & _ & Hb).
      apply build_setup_fields in Hb. cbv zeta in Hb.
      destruct Hb as (-> & _). apply row_bar in H1.
      destruct H1 as [-> _]. reflexivity.
    - intros i j x y Hi Hj Hx Hy.
      apply (strongly_sorted_nth_error Z.lt (map ts df) Hsorted i j);
        [lia | |]; now rewrite nth_error_map. }
  split; [exact S|]. split.
  - clear - S. induction S as [|x l Hl IH Hx]; constructor; [|exact IH].
    intro Hin. rewrite Forall_forall in Hx. specialize (Hx x Hin). lia.
  - pose proof (length_collect (scan_anchor (frame df) t m)
                  (py_range 14 (length df - 6))) as L.
    unfold py_range in L. rewrite length_seq in L. unfold py_range. lia.
Qed.

Lemma setups_chronological_witness :
  StronglySorted Z.lt (map ts long_series) /\
  exists setups,
    detect_setups long_series (65 # 100) (13 # 10) = Ok setups /\
    (length setups <= 1)%nat.
Proof.
  assert (S : StronglySorted Z.lt (map ts long_series)).
  { cbn. repeat (constructor; [|repeat (constructor; [reflexivity|]);
                                constructor]). constructor. }
  split; [exact S|].
  destruct (setups_chronological long_series (65 # 100) (13 # 10) S)
    as (setups & E & _ & _ & L).
  exists setups. split; [exact E|].
  change (length long_series) with 21%nat in L. lia.
Defined.

(** ** The number of scanned candidates *)

Lemma true_range_ge_range (b : Bar) (c : Q) :
  exists v, true_range b (Fin c) = Fin v /\ High b - Low b <= v.
Proof.
  unfold true_range. cbn [fl_sub fl_abs].
  set (x := High b - Low b).
  set (y := Qabs (High b - c)). set (z := Qabs (Low b - c)).
  unfold fl_maximum at 2. cbn [fl_ltb].
  destruct (Qltb y z) eqn:E1; unfold fl_maximum; cbn [fl_ltb];
    [destruct (Qltb x z) eqn:E2 | destruct (Qltb x y) eqn:E2];
    qprop; eexists; split; try reflexivity; lra.
Qed.

Lemma true_range_tail_positive (bs : list Bar) (cs : list Q) :
  Forall (fun b => Low b < High b) bs ->
  exists qs,
    map (fun p => true_range (fst p) (snd p)) (combine bs (map Fin cs))
    = map Fin qs /\ Forall (fun q => 0 < q) qs.
Proof.
  intro F. revert cs. induction F as [|b bs Hb F IH]; intros cs.
  - exists []. split; [reflexivity | constructor].
  - destruct cs as [|c cs].
    + exists []. split; [reflexivity | constructor].
    + destruct (IH cs) as [qs [E P]].
      destruct (true_range_ge_range b c) as [v [Ev Hv]].
      exists (v :: qs). cbn [map combine fst snd].
      rewrite E, Ev. split; [reflexivity|]. constructor; [lra | exact P].
Qed.

Lemma Qsum_positive (qs : list Q) :
  Forall (fun q => 0 < q) qs -> qs <> [] -> 0 < Qsum qs.
Proof.
  induction 1 as [|q qs Hq F IH]; intro N; [congruence|].
  unfold Qsum in *. cbn [fold_right].
  destruct qs as [|q' qs']; [cbn; lra|].
  assert (0 < fold_right Qplus 0 (q' :: qs')) by (apply IH; discriminate).
  lra.
Qed.

(** When every bar has a range, the ATR is positive from bar 14 on. *)
Lemma col_ATR_positive (df : list Bar) (i : nat) (atr : fl) :
  Forall (fun b => Low b < High b) df ->
  nth_error (col_ATR df) i = Some atr -> (14 <= i)%nat ->
  exists a, atr = Fin a /\ 0 < a.
Proof.
  intros F H Hi. unfold col_ATR in H.
  apply nth_error_rolling_mean in H. destruct H as [Hlen ->].
  rewrite length_col_TR in Hlen.
  destruct df as [|b bs]; [cbn in Hlen; lia|].
  inversion F as [|b' bs' Hb Fbs]; subst.
  unfold col_TR. cbn [map shift1 combine fst snd].
  destruct (true_range_tail_positive bs
              (removelast (Close b :: map Close bs)) Fbs) as [qs [E P]].
  rewrite E.
  assert (Lq : length qs = length bs).
  { apply (f_equal (@length fl)) in E.
    rewrite !length_map, length_combine, length_map in E.
    rewrite removelast_firstn_len, length_firstn in E.
    cbn [length] in E. rewrite length_map in E. lia. }
  destruct (Nat.ltb_spec (S i) 14); [lia|].
  replace (S i - 14)%nat with (S (i - 14)) by lia.
  cbn [skipn]. rewrite skipn_map, firstn_map, all_fin_map_Fin.
  eexists. split; [reflexivity|].
  assert (S : 0 < Qsum (firstn 14 (skipn (i - 14) qs))).
  { apply Qsum_positive; [now apply Forall_firstn_skipn|].
    intro N. apply (f_equal (@length Q)) in N.
    rewrite length_firstn, length_skipn in N. cbn [length] in *. lia. }
  unfold Qdiv.
  assert (Pinv : 0 < / inject_Z (Z.of_nat 14)) by reflexivity.
  nra.
Qed.

Lemma diag_step_total_scanned (rows : list Row) (t m : Q) (d d' : Diag)
  (i : nat) :
  diag_step rows t m d i = Ok d' ->
  exists r,
    nth_error rows i = Some r /\
    total_scanned d'
    = (if isna (ATR r) || fl_eqb (ATR r) (Fin 0) then total_scanned d
       else S (total_scanned d)).
Proof.
  unfold diag_step. intro H.
  apply bind_Ok in H. destruct H as [r1 [H1 H]]. apply iloc_Ok in H1.
  exists r1. split; [exact H1|].
  destruct (isna (ATR r1) || fl_eqb (ATR r1) (Fin 0));
    [inversion H; reflexivity|].
  destruct (fl_geb (BodyRatio r1) (Fin t));
    destruct (fl_geb (Fin (Body r1)) (fl_mul (ATR r1) (Fin m)));
    cbn [andb negb] in H; try (inversion H; reflexivity).
  apply bind_Ok in H. destruct H as [r2 [_ H]].
  destruct (negb _); [inversion H; reflexivity|].
  apply bind_Ok in H. destruct H as [r3 [_ H]].
  destruct (breakout_direction r2 r3) as [dir|]; [|inversion H; reflexivity].
  destruct (Qltb 0 _); inversion H; reflexivity.
Qed.

Lemma diag_loop_total_scanned (df : list Bar) (t m : Q) (l : list nat) :
  forall d d',
    foldM (diag_step (frame df) t m) l d = Ok d' ->
    (total_scanned d' <= total_scanned d + length l)%nat /\
    (Forall (fun b => Low b < High b) df ->
     (forall i, In i l -> (14 <= i)%nat) ->
     total_scanned d' = (total_scanned d + length l)%nat).
Proof.
  induction l as [|i l IH]; intros d d' H; cbn [foldM] in H.
  - inversion H. cbn. split; [lia | intros; lia].
  - apply bind_Ok in H. destruct H as [d1 [H1 H]].
    destruct (IH d1 d' H) as [Hle Heq].
    apply diag_step_total_scanned in H1. destruct H1 as [r [Hr E]].
    cbn [length]. split.
    + destruct (isna (ATR r) || fl_eqb (ATR r) (Fin 0)); lia.
    + intros F Hl. rewrite Heq; [|exact F|intros j Hj; apply Hl; now right].
      destruct (row_bar df i r Hr) as [_ Ha].
      destruct (col_ATR_positive df i (ATR r) F Ha) as [a [Ea Hpos]].
      { apply Hl. now left. }
      rewrite Ea in E. cbn [isna fl_eqb orb] in E.
      assert (Qeq_bool a 0 = false) as Z0 by (apply Qeq_bool_false; lra).
      rewrite Z0 in E. lia.
Qed.

(** X4. The funnel scans at most [max (len - 20) 0] candidates, and
    exactly that many on a series in which every bar has [High > Low]:
    no candidate is then lost to a missing or zero ATR. *)
Theorem total_scanned_count (df : list Bar) (t m : Q) :
  exists setups diag,
    detect_setups_with_diagnostics df t m = Ok (setups, diag) /\
    (Z.of_nat (total_scanned diag)
     <= Z.max (Z.of_nat (length df) - 20) 0)%Z /\
    (Forall (fun b => Low b < High b) df ->
     Z.of_nat (total_scanned diag)
     = Z.max (Z.of_nat (length df) - 20) 0).
Proof.
  unfold detect_setups_with_diagnostics.
  destruct (Nat.ltb_spec (length df) 20) as [Hlt|Hge].
  { exists [], diag0. split; [reflexivity|]. cbn [total_scanned diag0].
    split; [lia | intros; lia]. }
  rewrite detect_setups_spec, length_frame.
  set (anchors := py_range 14 (length df - 6)).
  destruct (foldM_total (diag_step (frame df) t m) anchors) with (s := diag0)
    as [diag E].
  { intros s i Hi. apply diag_step_total. rewrite length_frame.
    apply in_py_range in Hi. lia. }
  rewrite E. cbn [bind].
  exists (collect (scan_anchor (frame df) t m) anchors), diag.
  split; [reflexivity|].
  destruct (diag_loop_total_scanned df t m anchors diag0 diag E) as [Hle Heq].
  assert (L : length anchors = (length df - 20)%nat).
  { unfold anchors, py_range. rewrite length_seq. lia. }
  cbn [total_scanned diag0] in Hle, Heq. rewrite L in Hle, Heq.
  split; [lia|]. intro F. rewrite Heq; [lia | exact F|].
  intros i Hi. apply in_py_range in Hi. lia.
Qed.

Lemma total_scanned_count_witness :
  Forall (fun b => Low b < High b) wicky_series /\
  exists setups diag,
    detect_setups_with_diagnostics wicky_series (65 # 100) (13 # 10)
    = Ok (setups, diag) /\
    total_scanned diag = 1%nat.
Proof.
  assert (F : Forall (fun b => Low b < High b) wicky_series)
    by (repeat constructor).
  split; [exact F|].
  destruct (total_scanned_count wicky_series (65 # 100) (13 # 10))
    as (setups & diag & E & _ & Heq).
  exists setups, diag. split; [exact E|].
  specialize (Heq F). change (length wicky_series) with 21%nat in Heq. lia.
Defined.

(* ================================================================== *)
(** * Further properties of the zones *)
(* ================================================================== *)

(** X5. With a positive minimum strength every zone comes from a candle
    with a body: a demand zone from a bar that closed above its open,
    spanning [Low, Open], and a supply zone from a bar that closed below
    its open, spanning [Open, High]; a bar with [Close = Open] never
    makes a zone. *)
Theorem zone_type_follows_candle (df : list Bar) (zone_atr_min : Q) :
  0 < zone_atr_min ->
  exists zones,
    detect_zones df zone_atr_min = Ok zones /\
    forall z, In z zones ->
      exists i b,
        (20 <= i < length df)%nat /\ nth_error df i = Some b /\
        zone_datetime z = ts b /\
        origin_body z = Qabs (Close b - Open b) /\
        origin_range z = High b - Low b /\
        0 < origin_body z /\
        match zone_type z with
        | demand => Open b < Close b /\
                    zone_top z = Open b /\ zone_bottom z = Low b
        | supply => Close b < Open b /\
                    zone_top z = High b /\ zone_bottom z = Open b
        end.
Proof.
  intro Hmin. eexists. split; [apply detect_zones_spec|].
  intros z Hz. apply in_collect in Hz. destruct Hz as [i [Hi Hz]].
  apply in_py_range in Hi. apply zone_at_Some in Hz.
  destruct Hz as [r [Hr Hz]]. apply zone_of_row_Some in Hz.
  destruct Hz as (Hna & Hne & Hlt & ->).
  destruct (usable_atr_positive df i r Hr Hna Hne) as [a [Ea Hpos]].
  destruct (row_shape df i r Hr) as (Hbody & _ & _).
  pose proof (nth_error_frame df i r Hr) as (b & tr & atr & Hb & _ & Er).
  assert (Hbull : IsBullish r = Qltb (Open b) (Close b)) by (now subst r).
  assert (Hbar : bar r = b) by (now subst r).
  rewrite Ea in Hlt. cbn [fl_mul fl_ltb] in Hlt. qprop.
  assert (Hpb : 0 < Body r) by nra.
  exists i, b. split; [exact Hi|]. split; [exact Hb|].
  rewrite Hbull.
  destruct (Qltb (Open b) (Close b)) eqn:E;
    cbn [zone_datetime origin_body origin_range zone_type zone_top
         zone_bottom]; rewrite Hbar; rewrite Hbar in Hbody;
    (split; [reflexivity|]); (split; [exact Hbody|]);
    (split; [reflexivity|]); (split; [exact Hpb|]); qprop.
  - repeat split. exact E.
  - repeat split. rewrite Hbody in Hpb.
    destruct (Qlt_le_dec (Close b) (Open b)) as [L|L]; [exact L|].
    assert (Z0 : Close b - Open b == 0) by lra.
    rewrite Z0 in Hpb. discriminate.
Qed.

Lemma zone_type_follows_candle_witness :
  0 < 3 # 2 /\
  exists zones,
    detect_zones edge_zone_series (3 # 2) = Ok zones /\
    Forall (fun z => 0 < origin_body z) zones.
Proof.
  assert (P : 0 < 3 # 2) by reflexivity.
  split; [exact P|].
  destruct (zone_type_follows_candle edge_zone_series (3 # 2) P)
    as [zones [E H]].
  exists zones. split; [exact E|].
  apply Forall_forall. intros z Hz.
  destruct (H z Hz) as (i & b & _ & _ & _ & _ & _ & Hpos & _).
  exact Hpos.
Defined.

(** X6. On a series with strictly increasing timestamps the zones come
    out in chronological order with distinct origin timestamps, at most
    one per bar from index 20 on: at most [max (len - 20) 0] zones. *)
Theorem zones_chronological (df : list Bar) (zone_atr_min : Q) :
  StronglySorted Z.lt (map ts df) ->
  exists zones,
    detect_zones df zone_atr_min = Ok zones /\
    StronglySorted Z.lt (map zone_datetime zones) /\
    NoDup (map zone_datetime zones) /\
    (Z.of_nat (length zones) <= Z.max (Z.of_nat (length df) - 20) 0)%Z.
Proof.
  intro Hsorted. eexists. split; [apply detect_zones_spec|].
  assert (S : StronglySorted Z.lt
                (map zone_datetime
                     (collect (zone_at (frame df) zone_atr_min)
                              (py_range 20 (length df))))).
  { unfold py_range.
    apply (collect_sorted _ zone_datetime
             (fun i x => option_map ts (nth_error df i) = Some x)).
    - intros i z _ Hz. apply zone_at_Some in Hz.
      destruct Hz as [r [Hr Hz]]. apply zone_of_row_Some in Hz.
      destruct Hz as (_ & _ & _ & ->). apply row_bar in Hr.
      destruct Hr as [-> _]. destruct (IsBullish r); reflexivity.
    - intros i j x y Hi Hj Hx Hy.
      apply (strongly_sorted_nth_error Z.lt (map ts df) Hsorted i j);
        [lia | |]; now rewrite nth_error_map. }
  split; [exact S|]. split.
  - clear - S. induction S as [|x l Hl IH Hx]; constructor; [|exact IH].
    intro Hin. rewrite Forall_forall in Hx. specialize (Hx x Hin). lia.
  - pose proof (length_collect (zone_at (frame df) zone_atr_min)
                  (py_range 20 (length df))) as L.
    unfold py_range in *. rewrite length_seq in L. lia.
Qed.

Lemma zones_chronological_witness :
  StronglySorted Z.lt (map ts edge_zone_series) /\
  exists zones,
    detect_zones edge_zone_series (3 # 2) = Ok zones /\
    (length zones <= 1)%nat.
Proof.
  assert (S : StronglySorted Z.lt (map ts edge_zone_series)).
  { cbn. repeat (constructor; [|repeat (constructor; [reflexivity|]);
                                constructor]). constructor. }
  split; [exact S|].
  destruct (zones_chronological edge_zone_series (3 # 2) S)
    as (zones & E & _ & _ & L).
  exists zones. split; [exact E|].
  change (length edge_zone_series) with 21%nat in L. lia.
Defined.

(** ** The nearest zone *)

Lemma zone_dist_Fin (price : Q) (z : Zone) :
  0 < price -> exists q, zone_dist price z = Fin q /\ 0 <= q.
Proof.
  intro Hp. unfold zone_dist.
  destruct (Qle_bool (zone_bottom z) price && Qle_bool price (zone_top z)).
  - exists 0. split; [reflexivity | lra].
  - cbn [fl_div].
    assert (Qeq_bool price 0 = false) as -> by (apply Qeq_bool_false; lra).
    assert (N : forall x, 0 <= Qabs x / price).
    { intro x. apply Qle_shift_div_l; [exact Hp|].
      pose proof (Qabs_nonneg x). lra. }
    unfold fl_min. destruct (fl_ltb _ _); eexists; split;
      try reflexivity; apply N.
Qed.

Lemma zone_scan_step_min (price q : Q) (st : ZoneScan) (x : Zone) :
  min_dist_pct (zone_scan_step price q st x)
  = (if fl_ltb (zone_dist price x) (min_dist_pct st)
     then zone_dist price x else min_dist_pct st) /\
  nearest (zone_scan_step price q st x)
  = (if fl_ltb (zone_dist price x) (min_dist_pct st)
     then Some x else nearest st).
Proof.
  unfold zone_scan_step.
  destruct (fl_leb (zone_dist price x) (Fin q));
    [destruct (zone_type x)|]; split; reflexivity.
Qed.

(** After the scan, [nearest] is the first zone of least distance. *)
Lemma zone_scan_nearest (price q : Q) (l : list Zone) :
  0 < price ->
  (l = [] /\ min_dist_pct (zone_scan price q l) = PInf /\
   nearest (zone_scan price q l) = None) \/
  (exists l1 z l2,
      l = l1 ++ z :: l2 /\
      nearest (zone_scan price q l) = Some z /\
      min_dist_pct (zone_scan price q l) = zone_dist price z /\
      (forall z', In z' l1 ->
                  fl_ltb (zone_dist price z) (zone_dist price z') = true) /\
      (forall z', In z' l2 ->
                  fl_leb (zone_dist price z) (zone_dist price z') = true)).
Proof.
  intro Hp. induction l as [|x l IH] using rev_ind.
  - left. repeat split.
  - right. unfold zone_scan in *. rewrite fold_left_app. cbn [fold_left].
    set (st := fold_left (zone_scan_step price q) l
                         (mkZoneScan false false PInf None)) in *.
    destruct (zone_scan_step_min price q st x) as [-> ->].
    destruct (zone_dist_Fin price x Hp) as [dx [Ex _]].
    destruct IH as [(-> & Hm & Hn) | (l1 & z & l2 & -> & Hn & Hm & H1 & H2)].
    + rewrite Hm, Ex. cbn [fl_ltb].
      exists [], x, []. rewrite Ex. repeat split; intros z' [].
    + destruct (zone_dist_Fin price z Hp) as [dz [Ez _]].
      rewrite Hm, Ex, Ez. cbn [fl_ltb].
      destruct (Qltb dx dz) eqn:E; qprop.
      * exists ((l1 ++ z :: l2)), x, []. rewrite Ex.
        split; [reflexivity|]. split; [reflexivity|].
        split; [reflexivity|]. split; [|intros z' []].
        intros z' Hz'.
        destruct (zone_dist_Fin price z' Hp) as [d' [E' _]].
        rewrite E'. cbn [fl_ltb]. apply Qltb_lt.
        apply in_app_or in Hz'. destruct Hz' as [Hz'|[<-|Hz']].
        -- specialize (H1 z' Hz'). rewrite Ez, E' in H1.
           cbn [fl_ltb] in H1. qprop. lra.
        -- rewrite Ez in E'. inversion E'. subst d'. exact E.
        -- specialize (H2 z' Hz'). rewrite Ez, E' in H2.
           cbn [fl_leb] in H2. qprop. lra.
      * exists l1, z, (l2 ++ [x]). rewrite <- app_assoc. cbn [app].
        split; [reflexivity|]. split; [exact Hn|].
        split; [symmetry; exact Ez|]. split; [exact H1|].
        intros z' Hz'. apply in_app_or in Hz'.
        destruct Hz' as [Hz'|[<-|[]]]; [now apply H2|].
        rewrite Ez, Ex. cbn [fl_leb]. now apply Qle_bool_iff.
Qed.



Lemma proximity_band_not_NoZone (d : fl) : proximity_band d <> NoZone.
Proof.
  unfold proximity_band.
  repeat match goal with
         | |- (if ?b then _ else _) <> _ => destruct b
         end; discriminate.
Qed.

(** X8. When no zone of the table is active at the query time the
    result is the default one: label neutral, band ['No Zone'] and no
    distance, strength, type or bounds.  For a positive price that is
    the only way to the band ['No Zone'] and to a missing distance. *)
Theorem no_zone_iff_none_active (dt : Timestamp) (price : Q)
  (zones_df : list Zone) (lookback_hours : Z) (proximity_pct : Q) :
  let r := classify_zone dt price zones_df lookback_hours proximity_pct in
  (recent_zones dt lookback_hours zones_df = [] -> r = no_zone_info) /\
  (0 < price ->
   (zone_proximity_band r = NoZone <->
    recent_zones dt lookback_hours zones_df = []) /\
   (zone_dist_pct r = None <->
    recent_zones dt lookback_hours zones_df = []) /\
   (zone_proximity_band r = NoZone -> r = no_zone_info)).
Proof.
  cbv zeta.
  pose proof (classify_zone_inactive dt price zones_df lookback_hours
                proximity_pct) as Hin.
  pose proof (classify_zone_active_band dt price zones_df lookback_hours
                proximity_pct) as Hact.
  split; [exact Hin|]. intros _.
  destruct (recent_zones dt lookback_hours zones_df) as [|z0 zs].
  - rewrite (Hin eq_refl). cbn. repeat split; reflexivity.
  - destruct Hact as [B D]; [discriminate|].
    repeat split; intro H; try contradiction; discriminate.
Qed.

Lemma zone_scan_flags_by_type (price q : Q) (l : list Zone) :
  forall st,
    let st' := fold_left (zone_scan_step price q) l st in
    near_s st' = near_s st || existsb (fun z => is_supply z && near price q z) l
    /\
    near_d st'
    = near_d st || existsb (fun z => negb (is_supply z) && near price q z) l.
Proof.
  induction l as [|z l IH]; intro st; cbn [fold_left existsb].
  - now rewrite !orb_false_r.
  - cbv zeta in IH. destruct (IH (zone_scan_step price q st z)) as [-> ->].
    unfold zone_scan_step, near, is_supply.
    destruct (fl_leb (zone_dist price z) (Fin q));
      [destruct (zone_type z)|]; cbn [near_s near_d negb andb];
      destruct (near_s st); destruct (near_d st); split; cbn;
      rewrite ?andb_false_r; reflexivity.
Qed.

(** The label as a function of the nearness tests of the scan. *)
Lemma zone_label_of_tests (dt : Timestamp) (price : Q)
  (zones_df : list Zone) (lookback_hours : Z) (proximity_pct : Q) :
  let active := recent_zones dt lookback_hours zones_df in
  let near_supply :=
    exists z, In z active /\ zone_type z = supply /\
              near price proximity_pct z = true in
  let near_demand :=
    exists z, In z active /\ zone_type z = demand /\
              near price proximity_pct z = true in
  let label :=
    zone (classify_zone dt price zones_df lookback_hours proximity_pct) in
  (label = contested <-> near_supply /\ near_demand) /\
  (label = at_supply <-> near_supply /\ ~ near_demand) /\
  (label = at_demand <-> ~ near_supply /\ near_demand) /\
  (label = neutral <-> ~ near_supply /\ ~ near_demand).
Proof.
  cbv zeta.
  set (active := recent_zones dt lookback_hours zones_df).
  assert (S : (exists z, In z active /\ zone_type z = supply /\
                         near price proximity_pct z = true) <->
              existsb (fun z => is_supply z && near price proximity_pct z)
                      active = true).
  { rewrite existsb_exists. unfold is_supply.
    split; intros [z [Hz H]]; exists z; (split; [exact Hz|]).
    - destruct H as [-> ->]. reflexivity.
    - destruct (zone_type z); [|discriminate]. cbn in H. now split. }
  assert (D : (exists z, In z active /\ zone_type z = demand /\
                         near price proximity_pct z = true) <->
              existsb (fun z => negb (is_supply z)
                                && near price proximity_pct z)
                      active = true).
  { rewrite existsb_exists. unfold is_supply.
    split; intros [z [Hz H]]; exists z; (split; [exact Hz|]).
    - destruct H as [-> ->]. reflexivity.
    - destruct (zone_type z); [discriminate|]. cbn in H. now split. }
  rewrite S, D.
  rewrite classify_zone_recent. unfold classify_zone.
  assert (I : recent_zones dt lookback_hours
                (recent_zones dt lookback_hours zones_df) = active)
    by apply filter_idem.
  rewrite I. fold active.
  destruct active as [|z0 zs] eqn:E.
  - cbn. repeat split; try discriminate; try tauto; intros [? ?];
      discriminate.
  - destruct (zone_scan_flags_by_type price proximity_pct (z0 :: zs)
                (mkZoneScan false false PInf None)) as [Fs Fd].
    cbn [near_s near_d orb] in Fs, Fd.
    fold (zone_scan price proximity_pct (z0 :: zs)) in Fs, Fd.
    rewrite <- Fs, <- Fd.
    destruct (nearest (zone_scan price proximity_pct (z0 :: zs)));
      cbn [zone];
      destruct (near_s (zone_scan price proximity_pct (z0 :: zs)));
      destruct (near_d (zone_scan price proximity_pct (z0 :: zs)));
      cbn; repeat split; try discriminate; try tauto;
      try (intros [? ?]; try discriminate; congruence).
Qed.

(** X9. For a positive price the label is decided by the types of the
    active zones around the threshold [proximity_pct * price]:
    ['contested'] when a supply zone and a demand zone are clearly
    within it, ['supply'] or ['demand'] when a zone of that type is
    clearly within it and every zone of the other type clearly beyond,
    ['neutral'] when every zone is clearly beyond.  Conversely a label
    other than ['neutral'] comes with a zone of each named type that is
    not clearly beyond the threshold, and no zone clearly within it is
    ever left out of the label. *)
Theorem zone_label_by_type (dt : Timestamp) (price : Q)
  (zones_df : list Zone) (lookback_hours : Z) (proximity_pct : Q) :
  0 < price ->
  let active := recent_zones dt lookback_hours zones_df in
  let within ty :=
    exists z, In z active /\ zone_type z = ty /\
              clearly_within price proximity_pct z in
  let beyond ty :=
    forall z, In z active -> zone_type z = ty ->
              clearly_beyond price proximity_pct z in
  let reached ty :=
    exists z, In z active /\ zone_type z = ty /\
              ~ clearly_beyond price proximity_pct z in
  let label :=
    zone (classify_zone dt price zones_df lookback_hours proximity_pct) in
  (within supply -> within demand -> label = contested) /\
  (within supply -> beyond demand -> label = at_supply) /\
  (beyond supply -> within demand -> label = at_demand) /\
  (beyond supply -> beyond demand -> label = neutral) /\
  (label = contested -> reached supply /\ reached demand) /\
  (label = at_supply -> reached supply /\ ~ within demand) /\
  (label = at_demand -> reached demand /\ ~ within supply) /\
  (label = neutral -> ~ within supply /\ ~ within demand).
Proof.
  intro Hp. cbv zeta.
  pose proof (zone_label_of_tests dt price zones_df lookback_hours
                proximity_pct) as T.
  cbv zeta in T. destruct T as (Tc & Ts & Td & Tn).
  set (active := recent_zones dt lookback_hours zones_df) in *.
  set (label := zone (classify_zone dt price zones_df lookback_hours
                        proximity_pct)) in *.
  assert (W : forall ty,
             (exists z, In z active /\ zone_type z = ty /\
                        clearly_within price proximity_pct z) ->
             exists z, In z active /\ zone_type z = ty /\
                       near price proximity_pct z = true).
  { intros ty [z (Hz & Ht & Hw)]. exists z. split; [exact Hz|].
    split; [exact Ht|]. now apply (near_clearly _ _ z Hp). }
  assert (B : forall ty,
             (forall z, In z active -> zone_type z = ty ->
                        clearly_beyond price proximity_pct z) ->
             ~ exists z, In z active /\ zone_type z = ty /\
                         near price proximity_pct z = true).
  { intros ty H [z (Hz & Ht & Hn)].
    apply (near_clearly _ _ z Hp) in H; [congruence | exact Hz | exact Ht]. }
  assert (R : forall ty,
             (exists z, In z active /\ zone_type z = ty /\
                        near price proximity_pct z = true) ->
             exists z, In z active /\ zone_type z = ty /\
                       ~ clearly_beyond price proximity_pct z).
  { intros ty [z (Hz & Ht & Hn)]. exists z. split; [exact Hz|].
    split; [exact Ht|]. intro Hb.
    apply (near_clearly _ _ z Hp) in Hb. congruence. }
  assert (NW : forall ty,
             ~ (exists z, In z active /\ zone_type z = ty /\
                          near price proximity_pct z = true) ->
             ~ exists z, In z active /\ zone_type z = ty /\
                         clearly_within price proximity_pct z).
  { intros ty H Hw. apply H. now apply W. }
  split; [|split; [|split; [|split; [|split; [|split; [|split]]]]]].
  - intros Hs Hd. apply Tc. split; now apply W.
  - intros Hs Hd. apply Ts. split; [now apply W | now apply B].
  - intros Hs Hd. apply Td. split; [now apply B | now apply W].
  - intros Hs Hd. apply Tn. split; now apply B.
  - intro E. apply Tc in E. destruct E as [Es Ed]. split; now apply R.
  - intro E. apply Ts in E. destruct E as [Es Ed].
    split; [now apply R | now apply NW].
  - intro E. apply Td in E. destruct E as [Es Ed].
    split; [now apply R | now apply NW].
  - intro E. apply Tn in E. destruct E as [Es Ed]. split; now apply NW.
Qed.

Lemma zone_label_by_type_witness :
  0 < 105 /\
  zone (classify_zone (hours 100) 105 [zone_at_hour 28; zone_above_entry]
                      720 (3 # 1000)) = at_supply.
Proof.
  assert (Hp : 0 < 105) by reflexivity.
  split; [exact Hp|].
  destruct (zone_label_by_type (hours 100) 105
              [zone_at_hour 28; zone_above_entry] 720 (3 # 1000) Hp)
    as (_ & Hs & _).
  apply Hs.
  - exists zone_above_entry. split; [right; left; reflexivity|].
    split; [reflexivity | vm_compute; discriminate].
  - intros z [<-|[<-|[]]]; discriminate.
Defined.

Lemma classify_zone_none_active (dt : Timestamp) (price : Q)
  (zones_df : list Zone) (lb : Z) (q : Q) :
  recent_zones dt lb zones_df = [] ->
  classify_zone dt price zones_df lb q = no_zone_info.
Proof.
  intro E. unfold classify_zone. rewrite E. now destruct zones_df.
Qed.

Lemma classify_zone_band (dt : Timestamp) (price : Q) (zones_df : list Zone)
  (lb : Z) (q : Q) :
  recent_zones dt lb zones_df <> [] ->
  zone_proximity_band (classify_zone dt price zones_df lb q)
  = proximity_band
      (min_dist_pct (zone_scan price q (recent_zones dt lb zones_df))).
Proof.
  intro N. unfold classify_zone.
  destruct zones_df as [|z0 zs]; [contradiction|].
  destruct (recent_zones dt lb (z0 :: zs)) as [|y ys]; [contradiction|].
  destruct (nearest (zone_scan price q (y :: ys))); reflexivity.
Qed.

(** Some active zone is within [q] exactly when the nearest one is. *)
Lemma near_some_iff_nearest (price q : Q) (l l1 l2 : list Zone) (z : Zone) :
  0 < price -> l = l1 ++ z :: l2 ->
  (forall z', In z' l1 ->
              fl_ltb (zone_dist price z) (zone_dist price z') = true) ->
  (forall z', In z' l2 ->
              fl_leb (zone_dist price z) (zone_dist price z') = true) ->
  ((exists z', In z' l /\ near price q z' = true) <-> near price q z = true).
Proof.
  intros Hp -> H1 H2. split.
  - intros [z' [Hin Hn]]. unfold near in *.
    destruct (zone_dist_Fin price z Hp) as [dz [Ez _]].
    destruct (zone_dist_Fin price z' Hp) as [d' [E' _]].
    rewrite Ez. rewrite E' in Hn. cbn [fl_leb] in *.
    apply Qle_bool_iff. apply Qle_bool_iff in Hn.
    apply in_app_or in Hin. destruct Hin as [Hin|[<-|Hin]].
    + specialize (H1 z' Hin). rewrite Ez, E' in H1. cbn in H1. qprop. lra.
    + rewrite Ez in E'. inversion E'. subst. exact Hn.
    + specialize (H2 z' Hin). rewrite Ez, E' in H2. cbn in H2. qprop. lra.
  - intro Hn. exists z. split; [|exact Hn].
    apply in_or_app. right. now left.
Qed.

(** X10. With the default threshold 0.003 and a positive price, a query
    is at a zone (its label is not ['neutral']) exactly when its
    proximity band is ['Inside Zone'], ['Touching'] or ['Very Close']:
    the label and the band never disagree about the 0.3% line. *)
Theorem label_agrees_with_band (dt : Timestamp) (price : Q)
  (zones_df : list Zone) (lookback_hours : Z) :
  0 < price ->
  let r := classify_zone dt price zones_df lookback_hours (3 # 1000) in
  zone r <> neutral <->
  zone_proximity_band r = InsideZone \/
  zone_proximity_band r = Touching \/
  zone_proximity_band r = VeryClose.
Proof.
  intro Hp. cbv zeta. rewrite classify_zone_near.
  destruct (zone_scan_nearest price (3 # 1000)
              (recent_zones dt lookback_hours zones_df) Hp)
    as [(E & _) | (l1 & z & l2 & E & Hn & Hm & H1 & H2)].
  - rewrite (classify_zone_none_active _ _ _ _ _ E), E. cbn. split.
    + intros [z [[] _]].
    + intros [H|[H|H]]; discriminate.
  - rewrite (near_some_iff_nearest price (3 # 1000) _ l1 l2 z Hp E H1 H2).
    rewrite classify_zone_band by (rewrite E; now destruct l1).
    rewrite Hm.
    destruct (zone_dist_Fin price z Hp) as [dz [Ez Hdz]].
    unfold near, proximity_band. rewrite Ez. cbn [fl_leb fl_eqb].
    destruct (Qeq_bool dz 0) eqn:E0.
    { qprop. split; [intros _; now left | intros _].
      apply Qle_bool_iff. rewrite E0. discriminate. }
    destruct (Qle_bool dz (1 # 1000)) eqn:E1.
    { qprop. split; [intros _; right; now left | intros _].
      apply Qle_bool_iff.
      apply Qle_trans with (1 # 1000); [exact E1 | discriminate]. }
    destruct (Qle_bool dz (3 # 1000)) eqn:E3.
    { split; [intros _; right; now right | reflexivity]. }
    destruct (Qle_bool dz (6 # 1000)); [split; [discriminate|];
      intros [H|[H|H]]; discriminate|].
    destruct (Qle_bool dz (1 # 100)); split; try discriminate;
      intros [H|[H|H]]; discriminate.
Qed.

Lemma label_agrees_with_band_witness :
  0 < 105 /\
  zone (classify_zone (hours 14) 105 [zone_above_entry] 720 (3 # 1000))
  <> neutral.
Proof.
  assert (Hp : 0 < 105) by reflexivity.
  split; [exact Hp|].
  apply (proj2 (label_agrees_with_band (hours 14) 105 [zone_above_entry]
                  720 Hp)).
  right. right. reflexivity.
Defined.

(* ================================================================== *)
(** * Further properties of the wick profile *)
(* ================================================================== *)

(** Rounding stays between the integers that bound the number. *)
Lemma round_half_even_between (y : Q) (a b : Z) :
  inject_Z a <= y -> y <= inject_Z b ->
  (a <= round_half_even y <= b)%Z.
Proof.
  intros Ha Hb.
  assert (Fa : (a <= Qfloor y)%Z).
  { rewrite <- (Qfloor_Z a). now apply Qfloor_resp_le. }
  assert (Fb : (Qfloor y <= b)%Z).
  { rewrite <- (Qfloor_Z b). now apply Qfloor_resp_le. }
  pose proof (Qfloor_le y) as L.
  unfold round_half_even.
  assert (Up : 0 < y - inject_Z (Qfloor y) -> (Qfloor y + 1 <= b)%Z).
  { intro P. assert (Lt : inject_Z (Qfloor y) < inject_Z b) by lra.
    rewrite <- Zlt_Qlt in Lt. lia. }
  destruct (Qcompare (y - inject_Z (Qfloor y)) (1 # 2)) eqn:C.
  - apply Qeq_alt in C. destruct (Z.even (Qfloor y)); [lia|].
    split; [lia|]. apply Up. lra.
  - lia.
  - apply Qgt_alt in C. split; [lia|]. apply Up. lra.
Qed.

Lemma pow10_1 : pow10 1 == 10.
Proof. reflexivity. Qed.

(** [round(x, 1)] moves [x] by at most 0.05 and keeps it in [[0, 100]]. *)
Lemma py_round_1 (x : Q) :
  x - (1 # 20) <= py_round x 1 /\ py_round x 1 <= x + (1 # 20) /\
  (0 <= x -> x <= 100 -> 0 <= py_round x 1 /\ py_round x 1 <= 100).
Proof.
  unfold py_round.
  set (r := round_half_even (x * pow10 1)).
  destruct (round_half_even_error (x * pow10 1)) as [E1 E2]. fold r in E1, E2.
  assert (P : pow10 1 == 10) by reflexivity.
  assert (D : inject_Z r / pow10 1 * 10 == inject_Z r)
    by (rewrite P; field).
  rewrite P in E1, E2.
  set (v := inject_Z r / pow10 1) in *.
  split; [lra|]. split; [lra|].
  intros H0 H100.
  destruct (round_half_even_between (x * pow10 1) 0 1000) as [B1 B2].
  { rewrite P. change (inject_Z 0) with 0. lra. }
  { rewrite P. change (inject_Z 1000) with 1000. lra. }
  fold r in B1, B2.
  rewrite Zle_Qle in B1, B2.
  change (inject_Z 0) with 0 in B1. change (inject_Z 1000) with 1000 in B2.
  split; lra.
Qed.

(** X11. For a well-formed bar with [high > low] the three returned
    percentages lie between 0 and 100 and add up to 100 within 0.15,
    the error of three roundings to one decimal. *)
Theorem wick_percentages_add_up (o c h l : Q) :
  l < h -> py_max o c <= h -> l <= py_min o c ->
  exists w,
    classify_wick_profile o c h l = Ok w /\
    0 <= upper_wick_pct w /\ upper_wick_pct w <= 100 /\
    0 <= lower_wick_pct w /\ lower_wick_pct w <= 100 /\
    0 <= body_pct w /\ body_pct w <= 100 /\
    100 - (3 # 20) <= upper_wick_pct w + lower_wick_pct w + body_pct w /\
    upper_wick_pct w + lower_wick_pct w + body_pct w <= 100 + (3 # 20).
Proof.
  intros Hr Hmax Hmin. unfold classify_wick_profile.
  assert (E : Qeq_bool (h - l) 0 = false) by (apply Qeq_bool_false; lra).
  rewrite E. apply Qeq_bool_false in E.
  rewrite !py_div_nonzero by exact E. cbn [bind].
  eexists. split; [reflexivity|].
  cbn [upper_wick_pct lower_wick_pct body_pct].
  set (top := py_max o c) in *. set (bot := py_min o c) in *.
  assert (Htb : bot <= top).
  { unfold top, bot. destruct (py_max_le o c), (py_min_le o c). lra. }
  set (u := (h - top) / (h - l) * 100).
  set (lo := (bot - l) / (h - l) * 100).
  set (b := (top - bot) / (h - l) * 100).
  assert (Su : u + lo + b == 100) by (unfold u, lo, b; field; lra).
  assert (Pos : forall x, 0 <= x -> 0 <= x / (h - l) * 100).
  { intros x Hx.
    assert (0 <= x / (h - l)) by (apply Qle_shift_div_l; lra). lra. }
  assert (Hu : 0 <= u) by (apply Pos; lra).
  assert (Hl : 0 <= lo) by (apply Pos; lra).
  assert (Hb : 0 <= b) by (apply Pos; lra).
  destruct (py_round_1 u) as (U1 & U2 & U3).
  destruct (py_round_1 lo) as (L1 & L2 & L3).
  destruct (py_round_1 b) as (B1 & B2 & B3).
  destruct U3 as [? ?]; [lra | lra |].
  destruct L3 as [? ?]; [lra | lra |].
  destruct B3 as [? ?]; [lra | lra |].
  repeat split; lra.
Qed.

Lemma wick_percentages_add_up_witness :
  exists w,
    classify_wick_profile 100 103 104 98 = Ok w /\
    100 - (3 # 20) <= upper_wick_pct w + lower_wick_pct w + body_pct w.
Proof.
  destruct (wick_percentages_add_up 100 103 104 98)
    as (w & E & _ & _ & _ & _ & _ & _ & S & _);
    [reflexivity | vm_compute; discriminate | vm_compute; discriminate |].
  exists w. split; [exact E | exact S].
Defined.

(* ================================================================== *)
(** * Further properties of the enrichment and the statistics *)
(* ================================================================== *)

Lemma nth_error_cumsum (l : list Q) :
  forall acc k c,
    nth_error (cumsum acc l) k = Some c ->
    c == acc + Qsum (firstn (S k) l).
Proof.
  induction l as [|x l IH]; intros acc k c H.
  - destruct k; discriminate.
  - destruct k as [|k]; cbn [cumsum nth_error] in H.
    + inversion H. unfold Qsum. cbn. destruct l; cbn; lra.
    + apply IH in H. rewrite H. unfold Qsum. cbn [firstn fold_right].
      fold (Qsum (firstn (S k) l)). cbn [firstn]. unfold Qsum. lra.
Qed.

(** The sum of +1 for a win and -1 for a loss. *)
Lemma Qsum_setup_pnl (l : list Setup) :
  Qsum (map setup_pnl l)
  == inject_Z (Z.of_nat (length (filter win_1r l)))
     - inject_Z (Z.of_nat (length (filter (fun s => negb (win_1r s)) l))).
Proof.
  induction l as [|s l IH]; [reflexivity|].
  unfold Qsum in *. cbn [map fold_right filter]. rewrite IH.
  unfold setup_pnl. destruct (win_1r s); cbn [negb length];
    rewrite Nat2Z.inj_succ, <- Z.add_1_r, inject_Z_plus;
    change (inject_Z 1) with 1; lra.
Qed.

Lemma nth_error_enrich_setups (sdf : list Setup) (zones_df : list Zone)
  (lb : Z) (p : Q) (k : nat) (e : Enriched) :
  nth_error (enrich_setups sdf zones_df lb p) k = Some e ->
  nth_error sdf k = Some (setup e) /\
  nth_error (cumsum 0 (map setup_pnl sdf)) k = Some (cumulative_r e) /\
  pnl_r e = setup_pnl (setup e).
Proof.
  unfold enrich_setups. rewrite nth_error_map.
  destruct (nth_error (combine sdf (cumsum 0 (map setup_pnl sdf))) k)
    as [[s c]|] eqn:E; [|discriminate].
  cbn. intro H. inversion H; subst e. cbn.
  apply nth_error_combine in E. cbn in E. tauto.
Qed.

(** X12. [enrich_setups] keeps the setups as they are and in order; a
    row's [pnl_r] is +1 for a win and -1 for a loss, and its
    [cumulative_r] is the number of wins minus the number of losses
    among the setups up to and including it. *)
Theorem enrichment_running_pnl (sdf : list Setup) (zones_df : list Zone)
  (zone_lookback : Z) (zone_proximity : Q) :
  map setup (enrich_setups sdf zones_df zone_lookback zone_proximity) = sdf /\
  forall k e,
    nth_error (enrich_setups sdf zones_df zone_lookback zone_proximity) k
    = Some e ->
    pnl_r e = (if win_1r (setup e) then 1 else - (1)) /\
    cumulative_r e
    == inject_Z (Z.of_nat (length (filter win_1r (firstn (S k) sdf))))
       - inject_Z (Z.of_nat
                     (length (filter (fun s => negb (win_1r s))
                                     (firstn (S k) sdf)))).
Proof.
  split.
  - unfold enrich_setups. rewrite map_map. cbn [setup enrich_row].
    apply map_fst_combine. rewrite length_cumsum, length_map. lia.
  - intros k e H. apply nth_error_enrich_setups in H.
    destruct H as (_ & Hc & Hp). split; [exact Hp|].
    apply nth_error_cumsum in Hc. rewrite Hc.
    rewrite firstn_map, Qsum_setup_pnl. lra.
Qed.

Lemma enrichment_running_pnl_witness :
  exists e,
    nth_error (enrich_setups long_setups [] 720 (3 # 10)) 0 = Some e /\
    cumulative_r e == - (1).
Proof.
  assert (E : exists e, nth_error (enrich_setups long_setups [] 720 (3 # 10))
                                  0 = Some e) by (eexists; reflexivity).
  destruct E as [e E]. exists e. split; [exact E|].
  destruct (proj2 (enrichment_running_pnl long_setups [] 720 (3 # 10))
              0%nat e E) as [_ C].
  rewrite C. reflexivity.
Defined.

(** ** Sessions *)

Lemma hour_of_range (dt : Timestamp) : (0 <= hour_of dt < 24)%Z.
Proof. unfold hour_of. apply Z.mod_pos_bound. lia. Qed.

(** X13. The session depends only on the hour of the day, which lies in
    0 .. 23: Asian for hours 0-7, London for 8-12, New York for 13-20 and
    Off-Hours exactly for 21-23; a shift by whole days does not change
    it. *)
Theorem session_by_hour (dt : Timestamp) :
  (0 <= hour_of dt < 24)%Z /\
  (classify_session dt = Asian <-> (hour_of dt < 8)%Z) /\
  (classify_session dt = London <-> (8 <= hour_of dt < 13)%Z) /\
  (classify_session dt = NewYork <-> (13 <= hour_of dt < 21)%Z) /\
  (classify_session dt = OffHours <-> (21 <= hour_of dt)%Z) /\
  forall days : Z,
    classify_session (dt + hours (24 * days))%Z = classify_session dt.
Proof.
  pose proof (hour_of_range dt) as R.
  assert (P : forall days,
             hour_of (dt + hours (24 * days))%Z = hour_of dt).
  { intro days. unfold hour_of, hours.
    replace (dt + 24 * days * 3600000000000)%Z
      with (dt + (24 * days) * (1 * 3600000000000))%Z by lia.
    rewrite Z.div_add by lia.
    replace (24 * days)%Z with (days * 24)%Z by lia.
    apply Z.mod_add. lia. }
  split; [exact R|].
  unfold classify_session.
  split; [|split; [|split; [|split]]].
  5:{ intro days. now rewrite P. }
  all: destruct (Z.leb_spec 0 (hour_of dt)); [|lia];
    destruct (Z.ltb_spec (hour_of dt) 8);
    destruct (Z.leb_spec 8 (hour_of dt));
    destruct (Z.ltb_spec (hour_of dt) 13);
    destruct (Z.leb_spec 13 (hour_of dt));
    destruct (Z.ltb_spec (hour_of dt) 21);
    cbn [andb]; split; intro; try discriminate; try reflexivity; lia.
Qed.

(** ** Statistics of enriched rows *)

Lemma round_half_even_comp (x y : Q) :
  x == y -> round_half_even x = round_half_even y.
Proof.
  intro H. unfold round_half_even.
  assert (F : Qfloor x = Qfloor y) by (now rewrite H).
  rewrite F.
  assert (C : Qcompare (x - inject_Z (Qfloor y)) (1 # 2)
              = Qcompare (y - inject_Z (Qfloor y)) (1 # 2))
    by (now rewrite H).
  now rewrite C.
Qed.

Lemma py_round_comp (x y : Q) (n : nat) :
  x == y -> py_round x n = py_round y n.
Proof.
  intro H. unfold py_round.
  rewrite (round_half_even_comp (x * pow10 n) (y * pow10 n));
    [reflexivity | now rewrite H].
Qed.

Lemma count_true_split {A : Type} (f : A -> bool) (l : list A) :
  count_true f l + count_true (fun a => negb (f a)) l
  == inject_Z (Z.of_nat (length l)) /\
  0 <= count_true f l.
Proof.
  unfold count_true. split.
  - rewrite <- inject_Z_plus, <- Nat2Z.inj_add.
    assert (E : (length (filter f l)
                 + length (filter (fun a => negb (f a)) l))%nat = length l).
    { induction l as [|a l IH]; [reflexivity|].
      cbn [filter]. destruct (f a); cbn [negb length]; lia. }
    now rewrite E.
  - change 0 with (inject_Z 0). rewrite <- Zle_Qle. lia.
Qed.

(** On rows whose [pnl_r] is +1 for a win and -1 for a loss, the winning
    amounts add up to the number of wins and the losing amounts to minus
    the number of losses. *)
Lemma pnl_sums (rows : list Enriched) :
  Forall (fun e => pnl_r e = setup_pnl (setup e)) rows ->
  Qsum (filter (fun x => Qltb 0 x) (map pnl_r rows))
  == count_true (fun e => win_1r (setup e)) rows /\
  Qsum (filter (fun x => Qltb x 0) (map pnl_r rows))
  == - count_true (fun e => negb (win_1r (setup e))) rows /\
  Qsum (map pnl_r rows)
  == count_true (fun e => win_1r (setup e)) rows
     - count_true (fun e => negb (win_1r (setup e))) rows.
Proof.
  induction 1 as [|e rows He _ IH]; [repeat split; reflexivity|].
  destruct IH as (I1 & I2 & I3).
  unfold count_true, Qsum in *. cbn [map filter fold_right].
  rewrite He. unfold setup_pnl.
  destruct (win_1r (setup e)); cbn [Qltb negb filter fold_right length];
    change (Qltb 0 1) with true; change (Qltb 1 0) with false;
    change (Qltb 0 (- (1))) with false; change (Qltb (- (1)) 0) with true;
    cbn [fold_right length];
    rewrite ?Nat2Z.inj_succ, <- ?Z.add_1_r, ?inject_Z_plus;
    change (inject_Z 1) with 1; repeat split; lra.
Qed.

(** X14. On no rows [calc_stats] returns the all-zero record.  On any
    non-empty selection of rows of the enriched frame, with [w] wins and
    [l] losses among its [n] rows: the win rate is [100 w / n] rounded to
    one decimal for storage and lies in [[0, 100]]; the average R is
    [(w - l) / n] rounded to three decimals for storage; the profit
    factor is [w / l] rounded to two decimals for storage when there is
    a loss and the sentinel 999 when there is none. *)
Theorem stats_of_enriched_rows (sdf : list Setup) (zones_df : list Zone)
  (zone_lookback : Z) (zone_proximity : Q) (rows : list Enriched) :
  calc_stats [] = mkStats 0 0 0 0 0 0 0 0 0 /\
  (incl rows (enrich_setups sdf zones_df zone_lookback zone_proximity) ->
   rows <> [] ->
   let n := inject_Z (Z.of_nat (length rows)) in
   let w := count_true (fun e => win_1r (setup e)) rows in
   let l := count_true (fun e => negb (win_1r (setup e))) rows in
   let s := calc_stats rows in
   Trades s = length rows /\ w + l == n /\
   rounded_to 1 (WinRate s) (w / n * 100) /\
   0 <= WinRate s /\ WinRate s <= 100 /\
   rounded_to 3 (AvgR s) ((w - l) / n) /\
   (l == 0 -> PF s = 999) /\
   (0 < l -> rounded_to 2 (PF s) (w / l))).
Proof.
  split; [reflexivity|].
  intros Hincl Hne. cbv zeta.
  assert (F : Forall (fun e => pnl_r e = setup_pnl (setup e)) rows).
  { apply Forall_forall. intros e He. apply Hincl in He.
    apply In_nth_error in He. destruct He as [k Hk].
    now apply nth_error_enrich_setups in Hk. }
  destruct (pnl_sums rows F) as (Sw & Sl & Sa).
  destruct (count_true_split (fun e => win_1r (setup e)) rows) as [Hs Hw0].
  set (w := count_true (fun e => win_1r (setup e)) rows) in *.
  set (l := count_true (fun e => negb (win_1r (setup e))) rows) in *.
  assert (Hl0 : 0 <= l).
  { unfold l, count_true. change 0 with (inject_Z 0).
    rewrite <- Zle_Qle. lia. }
  assert (Hn : 0 < inject_Z (Z.of_nat (length rows))).
  { change 0 with (inject_Z 0). rewrite <- Zlt_Qlt.
    destruct rows; [contradiction | cbn [length]; lia]. }
  set (n := inject_Z (Z.of_nat (length rows))) in *.
  unfold calc_stats.
  destruct (Nat.eqb_spec (length rows) 0) as [E0|_].
  { destruct rows; [contradiction | discriminate]. }
  cbn [Trades WinRate AvgR PF]. fold w. fold n.
  split; [reflexivity|]. split; [exact Hs|].
  split; [apply py_round_rounded_to; reflexivity|].
  assert (Hrate : 0 <= w / n * 100 /\ w / n * 100 <= 100).
  { assert (D : w / n * n == w) by (field; lra).
    assert (0 <= w / n) by (apply Qle_shift_div_l; lra).
    assert (w / n <= 1) by (apply Qle_shift_div_r; lra).
    split; lra. }
  destruct (py_round_1 (w / n * 100)) as (_ & _ & B).
  destruct (B (proj1 Hrate) (proj2 Hrate)) as [B0 B1].
  split; [exact B0|]. split; [exact B1|].
  split.
  { apply py_round_rounded_to. unfold mean. rewrite length_map. fold n.
    now rewrite Sa. }
  assert (Tl : Qabs (Qsum (filter (fun x => Qltb x 0) (map pnl_r rows)))
               == l).
  { rewrite Sl. rewrite Qabs_opp. now apply Qabs_pos. }
  split.
  - intro L0.
    assert (Qltb 0 (Qabs (Qsum (filter (fun x => Qltb x 0)
                                       (map pnl_r rows)))) = false) as ->
      by (apply Qltb_ge; lra).
    reflexivity.
  - intro Lp.
    assert (Qltb 0 (Qabs (Qsum (filter (fun x => Qltb x 0)
                                       (map pnl_r rows)))) = true) as ->
      by (apply Qltb_lt; lra).
    apply py_round_rounded_to. now rewrite Sw, Tl.
Qed.

Lemma stats_of_enriched_rows_witness :
  let rows := enrich_setups (long_setups ++ win_setups) [] 720 (3 # 10) in
  Trades (calc_stats rows) = 2%nat /\
  rounded_to 1 (WinRate (calc_stats rows)) 50 /\
  rounded_to 2 (PF (calc_stats rows)) 1.
Proof.
  cbv zeta.
  destruct (proj2 (stats_of_enriched_rows (long_setups ++ win_setups) []
                     720 (3 # 10)
                     (enrich_setups (long_setups ++ win_setups) [] 720
                                    (3 # 10))))
    as (T & _ & W & _ & _ & _ & _ & P).
  - apply incl_refl.
  - discriminate.
  - split; [exact T|]. split; [exact W|]. apply P. reflexivity.
Defined.

(* ================================================================== *)
(** * Properties of the four-hour resampling *)
(* ================================================================== *)

Lemma in_insert_by_ts (b x : Bar) (l : list Bar) :
  In x (insert_by_ts b l) <-> x = b \/ In x l.
Proof.
  induction l as [|y l IH]; cbn [insert_by_ts].
  - cbn. intuition.
  - destruct (ts b <=? ts y)%Z; cbn [In]; [intuition|].
    rewrite IH. cbn. intuition.
Qed.

Lemma in_sort_by_ts (x : Bar) (df : list Bar) :
  In x (sort_by_ts df) <-> In x df.
Proof.
  induction df as [|b df IH]; [reflexivity|].
  unfold sort_by_ts in *. cbn [fold_right].
  rewrite in_insert_by_ts, IH. cbn. intuition.
Qed.

Lemma length_insert_by_ts (b : Bar) (l : list Bar) :
  length (insert_by_ts b l) = S (length l).
Proof.
  induction l as [|y l IH]; [reflexivity|].
  cbn [insert_by_ts]. destruct (ts b <=? ts y)%Z; cbn [length]; lia.
Qed.

Lemma length_sort_by_ts (df : list Bar) :
  length (sort_by_ts df) = length df.
Proof.
  induction df as [|b df IH]; [reflexivity|].
  unfold sort_by_ts in *. cbn [fold_right].
  rewrite length_insert_by_ts. cbn [length]. lia.
Qed.

Lemma insert_by_ts_sorted (b : Bar) (l : list Bar) :
  StronglySorted (fun x y => (ts x <= ts y)%Z) l ->
  StronglySorted (fun x y => (ts x <= ts y)%Z) (insert_by_ts b l).
Proof.
  induction 1 as [|y l Hl IH Hy]; cbn [insert_by_ts].
  - repeat constructor.
  - destruct (Z.leb_spec (ts b) (ts y)).
    + constructor; [now constructor|].
      constructor; [assumption|].
      rewrite Forall_forall in *. intros z Hz. specialize (Hy z Hz). lia.
    + constructor; [exact IH|].
      apply Forall_forall. intros z Hz. apply in_insert_by_ts in Hz.
      destruct Hz as [->|Hz]; [lia|].
      rewrite Forall_forall in Hy. now apply Hy.
Qed.

Lemma sort_by_ts_sorted (df : list Bar) :
  StronglySorted (fun x y => (ts x <= ts y)%Z) (sort_by_ts df).
Proof.
  induction df as [|b df IH]; [constructor|].
  unfold sort_by_ts in *. cbn [fold_right]. now apply insert_by_ts_sorted.
Qed.

Lemma in_zrange (lo hi k : Z) : In k (zrange lo hi) <-> (lo <= k <= hi)%Z.
Proof.
  unfold zrange. rewrite in_map_iff. split.
  - intros [i [<- Hi]]. apply in_seq in Hi. lia.
  - intro H. exists (Z.to_nat (k - lo)). split; [lia|].
    apply in_seq. lia.
Qed.

Lemma zrange_sorted (lo hi : Z) : StronglySorted Z.lt (zrange lo hi).
Proof.
  unfold zrange. generalize (Z.to_nat (hi - lo + 1)) as n.
  generalize 0%nat as a. intros a n. revert a.
  induction n as [|n IH]; intro a; cbn [seq map]; constructor.
  - apply IH.
  - apply Forall_forall. intros k Hk. apply in_map_iff in Hk.
    destruct Hk as [i [<- Hi]]. apply in_seq in Hi. lia.
Qed.

Lemma fold_py_max_ge (l : list Q) :
  forall a, a <= fold_left py_max l a /\
            Forall (fun x => x <= fold_left py_max l a) l.
Proof.
  induction l as [|x l IH]; intro a; cbn [fold_left].
  - split; [lra | constructor].
  - destruct (IH (py_max a x)) as [H1 H2].
    destruct (py_max_le a x) as [M1 M2].
    split; [lra|]. constructor; [lra | exact H2].
Qed.

Lemma fold_py_min_le (l : list Q) :
  forall a, fold_left py_min l a <= a /\
            Forall (fun x => fold_left py_min l a <= x) l.
Proof.
  induction l as [|x l IH]; intro a; cbn [fold_left].
  - split; [lra | constructor].
  - destruct (IH (py_min a x)) as [H1 H2].
    destruct (py_min_le a x) as [M1 M2].
    split; [lra|]. constructor; [lra | exact H2].
Qed.

Lemma in_rows_of_bin (k : Z) (sorted : list Bar) (b : Bar) :
  In b (rows_of_bin k sorted) <-> In b sorted /\ bin_of b = k.
Proof.
  unfold rows_of_bin. rewrite filter_In, Z.eqb_eq. tauto.
Qed.

Lemma in_resample_to_4h (df : list Bar) (b : Bar) :
  In b (resample_to_4h df) <->
  exists k, In k (bins_4h (sort_by_ts df)) /\
            agg_4h k (rows_of_bin k (sort_by_ts df)) = Some b.
Proof.
  unfold resample_to_4h. rewrite in_flat_map.
  split; intros [k [Hk H]]; exists k; (split; [exact Hk|]).
  - destruct (agg_4h k _) as [b'|]; cbn in H; [|contradiction].
    destruct H as [->|[]]. reflexivity.
  - rewrite H. now left.
Qed.

(** The high and the low of an aggregated bar bound those of every bar
    of its bin. *)
Lemma agg_4h_spec (k : Z) (rows : list Bar) (b : Bar) :
  agg_4h k rows = Some b ->
  exists r rest,
    rows = r :: rest /\ ts b = (k * hours 4)%Z /\
    Open b = Open r /\ Close b = Close (last rest r) /\
    Volume b = Qsum (map Volume rows) /\
    Forall (fun x => High x <= High b /\ Low b <= Low x) rows.
Proof.
  destruct rows as [|r rest]; [discriminate|].
  cbn [agg_4h]. intro H. inversion H; subst b; clear H.
  exists r, rest. cbn [ts Open Close Volume High Low].
  repeat (split; [reflexivity|]).
  destruct (fold_py_max_ge (map High rest) (High r)) as [A1 A2].
  destruct (fold_py_min_le (map Low rest) (Low r)) as [B1 B2].
  constructor; [split; assumption|].
  rewrite Forall_forall in *. intros x Hx. split.
  - apply A2. now apply in_map.
  - apply B2. now apply in_map.
Qed.

Lemma last_in {A : Type} (l : list A) (d : A) : In (last l d) (d :: l).
Proof.
  destruct l as [|x l]; [now left|]. right.
  assert (H : x :: l <> []) by discriminate.
  rewrite (app_removelast_last d H) at 2.
  apply in_or_app. right. now left.
Qed.

Lemma py_max_lub (a b m : Q) : a <= m -> b <= m -> py_max a b <= m.
Proof. unfold py_max. destruct (Qltb a b); intros; assumption. Qed.

Lemma py_min_glb (a b m : Q) : m <= a -> m <= b -> m <= py_min a b.
Proof. unfold py_min. destruct (Qltb b a); intros; assumption. Qed.

(** X15. Resampling keeps the PriceBar invariant: when every input bar
    has its high at or above, and its low at or below, both its open and
    its close, so has every four-hour bar. *)
Theorem resample_preserves_well_formed (df : list Bar) :
  Forall well_formed df -> Forall well_formed (resample_to_4h df).
Proof.
  intro Hwf. rewrite Forall_forall in *. intros b Hb.
  apply in_resample_to_4h in Hb. destruct Hb as [k [_ Hagg]].
  destruct (agg_4h_spec _ _ _ Hagg)
    as [r [rest [Erows [_ [Eo [Ec [_ Hall]]]]]]].
  rewrite Forall_forall in Hall.
  assert (Hsrc : forall x, In x (r :: rest) -> well_formed x).
  { intros x Hx. apply Hwf. rewrite <- Erows in Hx.
    apply in_rows_of_bin in Hx. now apply in_sort_by_ts. }
  assert (Hr : In r (r :: rest)) by now left.
  pose proof (last_in rest r) as Hl.
  rewrite Erows in Hall.
  destruct (Hsrc _ Hr) as [R1 R2]. destruct (Hsrc _ Hl) as [L1 L2].
  destruct (Hall _ Hr) as [R3 R4]. destruct (Hall _ Hl) as [L3 L4].
  destruct (py_max_le (Open r) (Close r)) as [A1 _].
  destruct (py_min_le (Open r) (Close r)) as [A2 _].
  destruct (py_max_le (Open (last rest r)) (Close (last rest r))) as [_ B1].
  destruct (py_min_le (Open (last rest r)) (Close (last rest r))) as [_ B2].
  unfold well_formed. rewrite Eo, Ec. split.
  - apply py_max_lub; lra.
  - apply py_min_glb; lra.
Qed.

Lemma resample_preserves_well_formed_witness :
  Forall well_formed long_series /\
  Forall well_formed (resample_to_4h long_series) /\
  length (resample_to_4h long_series) = 6%nat.
Proof.
  assert (H : Forall well_formed long_series)
    by (apply forallb_well_formed; vm_compute; reflexivity).
  split; [exact H|].
  split; [exact (resample_preserves_well_formed long_series H)|].
  vm_compute. reflexivity.
Defined.

Lemma hours_4_pos : (0 < hours 4)%Z.
Proof. unfold hours. lia. Qed.

Lemma bin_of_bounds (a : Bar) :
  (bin_of a * hours 4 <= ts a < bin_of a * hours 4 + hours 4)%Z.
Proof.
  unfold bin_of. pose proof hours_4_pos as Hp.
  pose proof (Z.div_mod (ts a) (hours 4)) as D.
  pose proof (Z.mod_pos_bound (ts a) (hours 4) Hp) as M.
  nia.
Qed.

Lemma sorted_head_least (r : Bar) (l : list Bar) (x : Bar) :
  StronglySorted (fun x y => (ts x <= ts y)%Z) (r :: l) ->
  In x (r :: l) -> (ts r <= ts x)%Z.
Proof.
  intros Hs [->|Hx]; [lia|].
  inversion Hs as [|? ? _ Hall]; subst.
  rewrite Forall_forall in Hall. now apply Hall.
Qed.

Lemma sorted_last_greatest (l : list Bar) (d x : Bar) :
  StronglySorted (fun x y => (ts x <= ts y)%Z) l ->
  In x l -> (ts x <= ts (last l d))%Z.
Proof.
  induction 1 as [|y l Hl IH Hy]; intro Hx; [destruct Hx|].
  destruct l as [|z l].
  - destruct Hx as [->|[]]. cbn. lia.
  - change (last (y :: z :: l) d) with (last (z :: l) d).
    destruct Hx as [->|Hx]; [|now apply IH].
    rewrite Forall_forall in Hy. apply Hy.
    pose proof (last_in l z) as Hin.
    destruct l as [|w l]; [now left|].
    change (last (z :: w :: l) d) with (last (w :: l) d).
    assert (E : last (w :: l) d = last (w :: l) z).
    { clear. revert w. induction l as [|v l IHl]; intro w; [reflexivity|].
      change (last (w :: v :: l) d) with (last (v :: l) d).
      change (last (w :: v :: l) z) with (last (v :: l) z).
      apply IHl. }
    rewrite E. exact Hin.
Qed.

Lemma bin_in_range (df : list Bar) (a : Bar) :
  In a df -> In (bin_of a) (bins_4h (sort_by_ts df)).
Proof.
  intro Ha. apply in_sort_by_ts in Ha.
  pose proof (sort_by_ts_sorted df) as Hs.
  destruct (sort_by_ts df) as [|r l] eqn:E; [destruct Ha|].
  unfold bins_4h. apply in_zrange.
  pose proof (sorted_head_least r l a Hs Ha) as H1.
  pose proof (sorted_last_greatest (r :: l) r a Hs Ha) as H2.
  pose proof hours_4_pos as Hp.
  unfold bin_of. split; apply Z.div_le_mono; assumption.
Qed.

Lemma flat_map_sorted (f : Z -> list Bar) (h : Z) (ks : list Z) :
  (0 < h)%Z ->
  (forall k b, In b (f k) -> f k = [b] /\ ts b = (k * h)%Z) ->
  StronglySorted Z.lt ks ->
  StronglySorted Z.lt (map ts (flat_map f ks)).
Proof.
  intros Hh Hf. induction 1 as [|k ks Hs IH Hk]; [constructor|].
  cbn [flat_map]. destruct (f k) as [|b l] eqn:E; [exact IH|].
  destruct (Hf k b) as [E1 E2]; [rewrite E; now left|].
  rewrite E in E1. inversion E1; subst l. cbn [app map].
  constructor; [exact IH|].
  apply Forall_forall. intros t Ht. apply in_map_iff in Ht.
  destruct Ht as [b' [<- Hb']]. apply in_flat_map in Hb'.
  destruct Hb' as [k' [Hk' Hb']].
  destruct (Hf k' b' Hb') as [_ E3].
  rewrite Forall_forall in Hk. specialize (Hk k' Hk'). nia.
Qed.

(** X16. The four-hour bars come in strictly increasing time order, each
    stamped with a multiple of four hours; each one stands for at least
    one input bar of the four hours that start at its stamp, and every
    input bar lies in the four hours of one of them: empty bins are
    dropped and no data is lost. *)
Theorem resample_bins (df : list Bar) :
  StronglySorted Z.lt (map ts (resample_to_4h df)) /\
  (forall b, In b (resample_to_4h df) ->
     (ts b mod hours 4 = 0)%Z /\
     exists a, In a df /\ (ts b <= ts a < ts b + hours 4)%Z) /\
  (forall a, In a df ->
     exists b, In b (resample_to_4h df) /\
               (ts b <= ts a < ts b + hours 4)%Z).
Proof.
  pose proof hours_4_pos as Hp.
  split; [|split].
  - unfold resample_to_4h. cbv zeta.
    apply flat_map_sorted with (h := hours 4); [exact Hp| |].
    + intros k b Hb.
      destruct (agg_4h k (rows_of_bin k (sort_by_ts df))) as [b'|] eqn:E;
        [|destruct Hb].
      destruct Hb as [->|[]]. split; [reflexivity|].
      destruct (agg_4h_spec _ _ _ E) as [_ [_ [_ [Et _]]]]. exact Et.
    + unfold bins_4h. destruct (sort_by_ts df); [constructor|].
      apply zrange_sorted.
  - intros b Hb. apply in_resample_to_4h in Hb.
    destruct Hb as [k [_ Hagg]].
    destruct (agg_4h_spec _ _ _ Hagg) as [r [rest [Erows [Et _]]]].
    split; [rewrite Et; apply Z.mod_mul; lia|].
    assert (Hr : In r (rows_of_bin k (sort_by_ts df)))
      by (rewrite Erows; now left).
    apply in_rows_of_bin in Hr. destruct Hr as [Hr Hk].
    exists r. split; [now apply in_sort_by_ts|].
    rewrite Et, <- Hk. apply bin_of_bounds.
  - intros a Ha.
    assert (Hrow : In a (rows_of_bin (bin_of a) (sort_by_ts df))).
    { apply in_rows_of_bin. split; [now apply in_sort_by_ts | reflexivity]. }
    destruct (rows_of_bin (bin_of a) (sort_by_ts df)) as [|r rest] eqn:E;
      [destruct Hrow|].
    eexists. split.
    + apply in_resample_to_4h. exists (bin_of a).
      split; [now apply bin_in_range|]. rewrite E. reflexivity.
    + cbn [ts]. apply bin_of_bounds.
Qed.

Lemma Qsum_insert_by_ts (b : Bar) (l : list Bar) :
  Qsum (map Volume (insert_by_ts b l)) == Volume b + Qsum (map Volume l).
Proof.
  induction l as [|y l IH]; cbn [insert_by_ts]; [reflexivity|].
  destruct (ts b <=? ts y)%Z; [reflexivity|].
  cbn [map Qsum fold_right] in *. unfold Qsum in IH. rewrite IH. ring.
Qed.

Lemma Qsum_sort_by_ts (df : list Bar) :
  Qsum (map Volume (sort_by_ts df)) == Qsum (map Volume df).
Proof.
  induction df as [|b df IH]; [reflexivity|].
  unfold sort_by_ts in *. cbn [fold_right].
  rewrite Qsum_insert_by_ts, IH. reflexivity.
Qed.

Lemma Qsum_filter_all (p : Bar -> bool) (l : list Bar) :
  (forall x, In x l -> p x = true) ->
  Qsum (map Volume (filter p l)) == Qsum (map Volume l).
Proof.
  induction l as [|x l IH]; intro H; [reflexivity|].
  cbn [filter]. rewrite (H x (or_introl eq_refl)).
  cbn [map Qsum fold_right]. unfold Qsum in IH. rewrite IH; [reflexivity|].
  intros y Hy. apply H. now right.
Qed.

Lemma Qsum_filter_split (p q : Bar -> bool) (l : list Bar) :
  (forall x, In x l -> p x = true -> q x = false) ->
  Qsum (map Volume (filter (fun x => p x || q x) l)) ==
  Qsum (map Volume (filter p l)) + Qsum (map Volume (filter q l)).
Proof.
  induction l as [|x l IH]; intro H; [reflexivity|].
  assert (IH' := IH (fun y Hy => H y (or_intror Hy))).
  pose proof (H x (or_introl eq_refl)) as Hx.
  cbn [filter]. unfold Qsum in *.
  destruct (p x) eqn:Ep; cbn [orb].
  - rewrite (Hx eq_refl). cbn [map fold_right]. rewrite IH'. ring.
  - destruct (q x); cbn [map fold_right]; rewrite IH'; ring.
Qed.

Lemma Qsum_bins (s : list Bar) (ks : list Z) :
  NoDup ks ->
  Qsum (map Volume
          (flat_map (fun k => match agg_4h k (rows_of_bin k s) with
                              | Some b => [b]
                              | None => []
                              end) ks)) ==
  Qsum (map Volume
          (filter (fun b => existsb (fun k => (bin_of b =? k)%Z) ks) s)).
Proof.
  induction 1 as [|k ks Hk Hnd IH].
  - cbn [flat_map existsb map]. symmetry.
    induction s as [|x s IHs]; [reflexivity | exact IHs].
  - cbn [flat_map existsb]. rewrite map_app.
    assert (Happ : forall l1 l2, Qsum (l1 ++ l2) == Qsum l1 + Qsum l2).
    { clear. intros l1 l2. unfold Qsum.
      induction l1 as [|x l1 IH]; cbn [app fold_right]; [ring|].
      rewrite IH. ring. }
    rewrite Happ, IH.
    rewrite (Qsum_filter_split (fun b => (bin_of b =? k)%Z)
               (fun b => existsb (fun k' => (bin_of b =? k')%Z) ks)).
    + apply Qplus_comp; [|reflexivity].
      fold (rows_of_bin k s).
      destruct (rows_of_bin k s) as [|r rest] eqn:E; [reflexivity|].
      cbn [agg_4h map Volume]. unfold Qsum. cbn [fold_right]. ring.
    + intros x _ Ex. apply Z.eqb_eq in Ex.
      destruct (existsb _ ks) eqn:Eb; [|reflexivity].
      apply existsb_exists in Eb. destruct Eb as [k' [Hk' Ek']].
      apply Z.eqb_eq in Ek'. exfalso. apply Hk. congruence.
Qed.

Lemma StronglySorted_lt_NoDup (ks : list Z) :
  StronglySorted Z.lt ks -> NoDup ks.
Proof.
  induction 1 as [|k ks Hs IH Hk]; constructor; [|exact IH].
  intro Hin. rewrite Forall_forall in Hk. specialize (Hk k Hin). lia.
Qed.

(** X17. Resampling conserves volume and never adds rows: the volumes
    of the four-hour bars add up to the total volume of the input, and
    there are at most as many four-hour bars as input bars. *)
Theorem resample_conserves_volume (df : list Bar) :
  Qsum (map Volume (resample_to_4h df)) == Qsum (map Volume df) /\
  (length (resample_to_4h df) <= length df)%nat.
Proof.
  split.
  - unfold resample_to_4h. cbv zeta.
    rewrite Qsum_bins.
    + rewrite Qsum_filter_all; [apply Qsum_sort_by_ts|].
      intros x Hx. apply existsb_exists. exists (bin_of x).
      split; [|apply Z.eqb_refl].
      apply bin_in_range. now apply in_sort_by_ts.
    + apply StronglySorted_lt_NoDup.
      unfold bins_4h. destruct (sort_by_ts df); [constructor|].
      apply zrange_sorted.
  - rewrite <- (length_sort_by_ts df).
    unfold resample_to_4h. cbv zeta.
    assert (Hnd : NoDup (bins_4h (sort_by_ts df))).
    { apply StronglySorted_lt_NoDup.
      unfold bins_4h. destruct (sort_by_ts df); [constructor|].
      apply zrange_sorted. }
    revert Hnd. generalize (sort_by_ts df) as s. intro s.
    generalize (bins_4h s) as ks0. intros ks0 Hnd.
    assert (G : (length (flat_map
                   (fun k => match agg_4h k (rows_of_bin k s) with
                             | Some b => [b]
                             | None => []
                             end) ks0)
                 <= length (filter
                      (fun b => existsb (fun k => (bin_of b =? k)%Z) ks0) s))%nat).
    { induction Hnd as [|k ks Hk Hnd IH]; [cbn; lia|].
      cbn [flat_map existsb]. rewrite length_app.
      assert (Hsplit : forall l,
        (length (filter (fun b => (bin_of b =? k)%Z) l) +
         length (filter (fun b => existsb (fun k' => (bin_of b =? k')%Z) ks) l)
         <= length (filter (fun b => (bin_of b =? k)%Z
                       || existsb (fun k' => (bin_of b =? k')%Z) ks) l))%nat).
      { induction l as [|x l IHl]; [cbn; lia|].
        cbn [filter].
        destruct (bin_of x =? k)%Z eqn:Ex; cbn [orb].
        - apply Z.eqb_eq in Ex.
          destruct (existsb _ ks) eqn:Eb.
          + apply existsb_exists in Eb. destruct Eb as [k' [Hk' Ek']].
            apply Z.eqb_eq in Ek'. exfalso. apply Hk. congruence.
          + cbn [length]. lia.
        - destruct (existsb _ ks); cbn [length]; lia. }
      specialize (Hsplit s). fold (rows_of_bin k s) in Hsplit.
      assert (Hone : (length (match agg_4h k (rows_of_bin k s) with
                              | Some b => [b]
                              | None => []
                              end) <= length (rows_of_bin k s))%nat).
      { destruct (rows_of_bin k s); cbn; lia. }
      lia. }
    pose proof (filter_length_le
      (fun b => existsb (fun k => (bin_of b =? k)%Z) ks0) s). lia.
Qed.

(* ================================================================== *)
(** * Properties of the event calendar *)
(* ================================================================== *)

Lemma ymd2ord_day (year month day : Z) :
  ymd2ord year month day = (ymd2ord year month 1 + (day - 1))%Z.
Proof. unfold ymd2ord. lia. Qed.

(** X18. The NFP date computed for a year and a month is the first
    Friday of that month: it is a Friday, it is one of the first seven
    days of the month, and no earlier day of the month is a Friday.  When
    the month starts on a Friday it is the first day itself.  So every
    date of the NFP list is a Friday. *)
Theorem nfp_is_first_friday (year month : Z) :
  weekday (nfp_date year month) = 4%Z /\
  (exists day : Z,
     (1 <= day <= 7)%Z /\
     nfp_date year month = ymd2ord year month day /\
     forall day' : Z,
       (1 <= day' < day)%Z -> weekday (ymd2ord year month day') <> 4%Z) /\
  (weekday (ymd2ord year month 1) = 4%Z ->
   nfp_date year month = ymd2ord year month 1) /\
  Forall (fun d => weekday d = 4%Z) nfp.
Proof.
  assert (G : forall y m, weekday (nfp_date y m) = 4%Z).
  { intros y m. unfold nfp_date, weekday. cbv zeta.
    set (d := ymd2ord y m 1).
    destruct (Z.ltb_spec (4 - (d + 6) mod 7) 0);
      Z.div_mod_to_equations; lia. }
  split; [apply G|]. split; [|split].
  - exists (nfp_date year month - ymd2ord year month 1 + 1)%Z.
    unfold nfp_date, weekday. cbv zeta.
    set (d := ymd2ord year month 1).
    split; [|split].
    + destruct (Z.ltb_spec (4 - (d + 6) mod 7) 0);
        Z.div_mod_to_equations; lia.
    + rewrite ymd2ord_day. fold d. lia.
    + intros day' Hd. rewrite ymd2ord_day. fold d.
      destruct (Z.ltb_spec (4 - (d + 6) mod 7) 0);
        Z.div_mod_to_equations; lia.
  - unfold nfp_date, weekday. cbv zeta.
    set (d := ymd2ord year month 1). intro H. rewrite H. cbn. lia.
  - apply Forall_forall. intros d Hd. unfold nfp in Hd.
    apply in_flat_map in Hd. destruct Hd as [y [_ Hd]].
    apply in_map_iff in Hd. destruct Hd as [m [<- _]]. apply G.
Qed.

(* ================================================================== *)
(** * Properties of the asset universe *)
(* ================================================================== *)

Lemma has_ticker_In (cat_dict : Dict) (ticker : String.string) :
  has_ticker cat_dict ticker = true <-> In ticker (map snd cat_dict).
Proof.
  induction cat_dict as [|[k t] rest IH]; cbn [has_ticker map snd In].
  - split; [discriminate | tauto].
  - destruct (String.eqb_spec t ticker) as [E|N].
    + split; [now left | reflexivity].
    + rewrite IH. split; [now right | intros [E|H]; [contradiction|exact H]].
Qed.

(** X19. [get_category_for_ticker] returns the name of the first category
    of the table, in table order, that lists the ticker, and "Unknown"
    exactly when no category lists it (no category being itself called
    "Unknown"). *)
Theorem category_is_first_match
  (ASSET_CATEGORIES : list (String.string * Dict)) (ticker : String.string) :
  ~ In Unknown (map fst ASSET_CATEGORIES) ->
  (get_category_for_ticker ASSET_CATEGORIES ticker = Unknown <->
   forall cat, In cat ASSET_CATEGORIES -> ~ In ticker (map snd (snd cat))) /\
  (get_category_for_ticker ASSET_CATEGORIES ticker <> Unknown ->
   exists before cat after,
     ASSET_CATEGORIES = before ++ cat :: after /\
     get_category_for_ticker ASSET_CATEGORIES ticker = fst cat /\
     In ticker (map snd (snd cat)) /\
     forall c, In c before -> ~ In ticker (map snd (snd c))).
Proof.
  unfold get_category_for_ticker.
  induction ASSET_CATEGORIES as [|[name d] rest IH]; intro Hun.
  - cbn [category_scan]. split; [|congruence].
    split; [intros _ cat []|reflexivity].
  - cbn [category_scan map fst In] in *.
    assert (Hn : name <> Unknown) by tauto.
    assert (Hr : ~ In Unknown (map fst rest)) by tauto.
    destruct (IH Hr) as [IH1 IH2]. clear IH.
    destruct (has_ticker d ticker) eqn:E.
    + apply has_ticker_In in E. split.
      * split; [congruence|].
        intro H. exfalso. apply (H (name, d)); [now left | exact E].
      * intros _. exists [], (name, d), rest.
        split; [reflexivity|]. split; [reflexivity|].
        split; [exact E | intros c []].
    + assert (E' : ~ In ticker (map snd d)).
      { intro H. apply has_ticker_In in H. congruence. }
      split.
      * rewrite IH1. split.
        -- intros H cat [<-|Hc]; [exact E' | now apply H].
        -- intros H cat Hc. apply H. now right.
      * intro H. destruct (IH2 H) as (before & cat & after & E1 & E2 & E3 & E4).
        exists ((name, d) :: before), cat, after.
        split; [rewrite E1; reflexivity|]. split; [exact E2|].
        split; [exact E3|].
        intros c [<-|Hc]; [exact E' | now apply E4].
Qed.

Lemma category_is_first_match_witness :
  get_category_for_ticker sample_categories "BTC-USD"%string
  = "Crypto"%string /\
  get_category_for_ticker sample_categories "AAPL"%string = Unknown.
Proof.
  assert (Hun : ~ In Unknown (map fst sample_categories)).
  { cbn. intros [H|[H|[]]]; discriminate. }
  split.
  - vm_compute. reflexivity.
  - apply (category_is_first_match sample_categories "AAPL"%string Hun).
    intros cat [<-|[<-|[]]]; cbn; intros [H|[H|[]]]; discriminate.
Defined.

Lemma dict_get_set (out : Dict) (k v k' : String.string) :
  dict_get (dict_set out k v) k'
  = if String.eqb k k' then Some v else dict_get out k'.
Proof.
  induction out as [|[a b] rest IH]; cbn [dict_set dict_get].
  - reflexivity.
  - destruct (String.eqb_spec a k) as [->|N]; cbn [dict_get].
    + destruct (String.eqb k k'); reflexivity.
    + rewrite IH. destruct (String.eqb_spec a k') as [->|N'];
        [|reflexivity].
      destruct (String.eqb_spec k k') as [E|_]; [|reflexivity].
      congruence.
Qed.

Lemma dict_get_app (l : Dict) (k v k' : String.string) :
  dict_get (l ++ [(k, v)]) k'
  = match dict_get l k' with
    | Some x => Some x
    | None => if String.eqb k k' then Some v else None
    end.
Proof.
  induction l as [|[a b] rest IH]; cbn [app dict_get]; [reflexivity|].
  destruct (String.eqb a k'); [reflexivity | exact IH].
Qed.

(** After the updates, a key holds the value of its last item, or what
    it held before when no item has it. *)
Lemma dict_get_update (items : Dict) :
  forall (out : Dict) (k' : String.string),
    dict_get (dict_update out items) k'
    = match dict_get (rev items) k' with
      | Some x => Some x
      | None => dict_get out k'
      end.
Proof.
  unfold dict_update.
  induction items as [|[k v] items IH]; intros out k'; [reflexivity|].
  cbn [fold_left fst snd rev]. rewrite IH, dict_get_app, dict_get_set.
  destruct (dict_get (rev items) k'); [reflexivity|].
  destruct (String.eqb k k'); reflexivity.
Qed.

Lemma dict_get_In (d : Dict) (k v : String.string) :
  dict_get d k = Some v -> In (k, v) d.
Proof.
  induction d as [|[a b] rest IH]; cbn [dict_get]; [discriminate|].
  destruct (String.eqb_spec a k) as [->|N].
  - intro H. inversion H. now left.
  - intro H. right. now apply IH.
Qed.

Lemma dict_get_None (d : Dict) (k : String.string) :
  dict_get d k = None -> ~ In k (map fst d).
Proof.
  induction d as [|[a b] rest IH]; cbn [dict_get map fst In]; [tauto|].
  destruct (String.eqb_spec a k) as [->|N]; [discriminate|].
  intros H [E|Hin]; [contradiction | now apply IH].
Qed.

Lemma dict_set_new (out : Dict) (k v : String.string) :
  ~ In k (map fst out) -> dict_set out k v = out ++ [(k, v)].
Proof.
  induction out as [|[a b] rest IH]; cbn [dict_set map fst In app];
    [reflexivity|].
  intro H. destruct (String.eqb_spec a k) as [E|N]; [tauto|].
  rewrite IH; [reflexivity | tauto].
Qed.

Lemma dict_update_distinct (items : Dict) :
  forall out : Dict,
    NoDup (map fst (out ++ items)) -> dict_update out items = out ++ items.
Proof.
  unfold dict_update.
  induction items as [|[k v] items IH]; intros out H; cbn [fold_left fst snd].
  - now rewrite app_nil_r.
  - assert (E : out ++ (k, v) :: items = (out ++ [(k, v)]) ++ items)
      by (rewrite <- app_assoc; reflexivity).
    rewrite E in *. rewrite dict_set_new.
    + now apply IH.
    + rewrite !map_app in H. apply NoDup_app_remove_r in H.
      cbn [map fst] in H. apply NoDup_remove_2 in H.
      rewrite app_nil_r in H. exact H.
Qed.

Lemma flat_as_update (cats : list (String.string * Dict)) :
  forall out : Dict,
    fold_left (fun o cat => dict_update o (snd cat)) cats out
    = dict_update out (concat (map snd cats)).
Proof.
  induction cats as [|c cats IH]; intro out; [reflexivity|].
  cbn [fold_left map concat]. rewrite IH.
  unfold dict_update. now rewrite fold_left_app.
Qed.

Lemma category_scan_found (cats : list (String.string * Dict))
  (ticker : String.string) :
  (exists cat, In cat cats /\ In ticker (map snd (snd cat))) ->
  exists cat, In cat cats /\ In ticker (map snd (snd cat)) /\
              category_scan cats ticker = fst cat.
Proof.
  induction cats as [|[name d] rest IH]; intros [cat [Hc Ht]];
    [destruct Hc|].
  cbn [category_scan].
  destruct (has_ticker d ticker) eqn:E.
  - exists (name, d). split; [now left|].
    split; [now apply has_ticker_In | reflexivity].
  - destruct Hc as [<-|Hc].
    + apply has_ticker_In in Ht. cbn [snd] in Ht. congruence.
    + destruct IH as [c' [H1 [H2 H3]]]; [now exists cat|].
      exists c'. split; [now right|]. now split.
Qed.

(** X20. The flat dict of [get_all_assets_flat] holds exactly the display
    names of the table: a name it maps to a ticker is an item of some
    category, and [get_category_for_ticker] then answers with a category
    that lists that ticker; every display name of the table is one of
    its keys.  When the display names of the table are pairwise distinct
    it is the concatenation of the category dicts, in table order. *)
Theorem flat_assets_cover_table
  (ASSET_CATEGORIES : list (String.string * Dict)) :
  (forall display ticker,
     dict_get (get_all_assets_flat ASSET_CATEGORIES) display = Some ticker ->
     (exists cat, In cat ASSET_CATEGORIES /\ In (display, ticker) (snd cat)) /\
     exists cat, In cat ASSET_CATEGORIES /\
                 In ticker (map snd (snd cat)) /\
                 get_category_for_ticker ASSET_CATEGORIES ticker = fst cat) /\
  (forall cat display ticker,
     In cat ASSET_CATEGORIES -> In (display, ticker) (snd cat) ->
     dict_get (get_all_assets_flat ASSET_CATEGORIES) display <> None) /\
  (NoDup (map fst (concat (map snd ASSET_CATEGORIES))) ->
   get_all_assets_flat ASSET_CATEGORIES
   = concat (map snd ASSET_CATEGORIES)).
Proof.
  unfold get_all_assets_flat, get_category_for_ticker.
  rewrite flat_as_update.
  set (items := concat (map snd ASSET_CATEGORIES)).
  assert (Hitems : forall it, In it items <->
            exists cat, In cat ASSET_CATEGORIES /\ In it (snd cat)).
  { intro it. unfold items. rewrite in_concat. split.
    - intros [l [Hl Hit]]. apply in_map_iff in Hl.
      destruct Hl as [cat [<- Hc]]. now exists cat.
    - intros [cat [Hc Hit]]. exists (snd cat). split; [|exact Hit].
      now apply in_map. }
  split; [|split].
  - intros display ticker H. rewrite dict_get_update in H.
    cbn [dict_get] in H.
    destruct (dict_get (rev items) display) as [x|] eqn:E; [|discriminate].
    inversion H; subst x. apply dict_get_In in E.
    apply in_rev in E. apply Hitems in E.
    split; [exact E|].
    apply category_scan_found. destruct E as [cat [Hc Hit]].
    exists cat. split; [exact Hc|].
    apply in_map_iff. now exists (display, ticker).
  - intros cat display ticker Hc Hit. rewrite dict_get_update.
    destruct (dict_get (rev items) display) eqn:E; [discriminate|].
    exfalso. apply dict_get_None in E. apply E.
    apply in_map_iff. exists (display, ticker). split; [reflexivity|].
    apply in_rev. rewrite rev_involutive. apply Hitems. now exists cat.
  - intro H. now apply (dict_update_distinct items []).
Qed.

Lemma flat_assets_cover_table_witness :
  NoDup (map fst (concat (map snd sample_categories))) /\
  get_all_assets_flat sample_categories
  = concat (map snd sample_categories).
Proof.
  assert (H : NoDup (map fst (concat (map snd sample_categories)))).
  { cbn. repeat constructor; cbn; intuition discriminate. }
  split; [exact H|].
  exact (proj2 (proj2 (flat_assets_cover_table sample_categories)) H).
Defined.

(* ================================================================== *)
(** * Properties of the segment analysis *)
(* ================================================================== *)

Lemma Trades_calc_stats (l : list Enriched) :
  Trades (calc_stats l) = length l.
Proof.
  unfold calc_stats. destruct l as [|e l]; reflexivity.
Qed.

Lemma NoDup_filter_keys {K : Type} (p : K -> bool) (l : list K) :
  NoDup l -> NoDup (filter p l).
Proof.
  induction 1 as [|x l Hx Hl IH]; cbn [filter]; [constructor|].
  destruct (p x); [|exact IH].
  constructor; [|exact IH]. rewrite filter_In. tauto.
Qed.

Section SegmentFacts.

Variable K : Type.
Variable key_eqb : K -> K -> bool.
Hypothesis key_eqb_eq : forall x y, key_eqb x y = true <-> x = y.

Lemma in_unique (x : K) (l : list K) :
  In x (unique K key_eqb l) <-> In x l.
Proof.
  induction l as [|y l IH]; cbn [unique In]; [tauto|].
  rewrite filter_In, IH. split.
  - intros [E|[H _]]; [now left | now right].
  - intros [E|H]; [now left|].
    destruct (key_eqb y x) eqn:Eq.
    + left. now apply key_eqb_eq.
    + right. split; [exact H | reflexivity].
Qed.

Lemma NoDup_unique (l : list K) : NoDup (unique K key_eqb l).
Proof.
  induction l as [|y l IH]; cbn [unique]; constructor.
  - rewrite filter_In. intros [_ H].
    assert (E : key_eqb y y = true) by now apply key_eqb_eq.
    rewrite E in H. discriminate.
  - now apply NoDup_filter_keys.
Qed.

Lemma segment_sizes (col : Enriched -> K) (rows : list Enriched)
  (vs : list K) :
  NoDup vs ->
  list_sum (map (fun v => length (filter (fun e => key_eqb (col e) v) rows))
                vs)
  = length (filter (fun e => existsb (key_eqb (col e)) vs) rows).
Proof.
  induction 1 as [|v vs Hv Hnd IH].
  - cbn [map list_sum existsb].
    induction rows as [|e rows IHr]; [reflexivity | exact IHr].
  - cbn [map existsb]. unfold list_sum in *. cbn [fold_right].
    rewrite IH. clear IH.
    induction rows as [|e rows IHr]; [reflexivity|].
    cbn [filter].
    destruct (key_eqb (col e) v) eqn:E; cbn [orb].
    + destruct (existsb (key_eqb (col e)) vs) eqn:Eb.
      * exfalso. apply existsb_exists in Eb. destruct Eb as [w [Hw Ew]].
        apply key_eqb_eq in E, Ew. apply Hv. congruence.
      * cbn [length]. lia.
    + destruct (existsb (key_eqb (col e)) vs); cbn [length]; lia.
Qed.

Variable key_leb : K -> K -> bool.

Lemma in_insert_key (v x : K) (l : list K) :
  In x (insert_key K key_leb v l) <-> x = v \/ In x l.
Proof.
  induction l as [|y l IH]; cbn [insert_key].
  - cbn. intuition.
  - destruct (key_leb v y); cbn [In]; [intuition|].
    rewrite IH. intuition.
Qed.

Lemma in_sorted (x : K) (l : list K) :
  In x (sorted K key_leb l) <-> In x l.
Proof.
  induction l as [|y l IH]; [reflexivity|].
  unfold sorted in *. cbn [fold_right].
  rewrite in_insert_key, IH. cbn. intuition.
Qed.

Lemma NoDup_insert_key (v : K) (l : list K) :
  ~ In v l -> NoDup l -> NoDup (insert_key K key_leb v l).
Proof.
  intros Hv Hl. induction Hl as [|y l Hy Hl IH]; cbn [insert_key].
  - constructor; [tauto | constructor].
  - destruct (key_leb v y).
    + constructor; [exact Hv|]. now constructor.
    + constructor.
      * rewrite in_insert_key. intros [E|H]; [|contradiction].
        apply Hv. left. now symmetry.
      * apply IH. intro H. apply Hv. now right.
Qed.

Lemma NoDup_sorted (l : list K) :
  NoDup l -> NoDup (sorted K key_leb l).
Proof.
  induction 1 as [|y l Hy Hl IH]; [constructor|].
  unfold sorted in *. cbn [fold_right].
  apply NoDup_insert_key; [|exact IH].
  intro H. apply Hy. now apply in_sorted.
Qed.

Lemma insert_key_sorted (v : K) (l : list K) :
  (forall x y, key_leb x y = true \/ key_leb y x = true) ->
  (forall x y z, key_leb x y = true -> key_leb y z = true ->
                 key_leb x z = true) ->
  StronglySorted (fun x y => key_leb x y = true) l ->
  StronglySorted (fun x y => key_leb x y = true) (insert_key K key_leb v l).
Proof.
  intros Htot Htr. induction 1 as [|y l Hl IH Hy]; cbn [insert_key].
  - repeat constructor.
  - destruct (key_leb v y) eqn:E.
    + constructor; [now constructor|].
      constructor; [exact E|].
      rewrite Forall_forall in *. intros z Hz.
      apply (Htr v y z E). now apply Hy.
    + constructor; [exact IH|].
      apply Forall_forall. intros z Hz. apply in_insert_key in Hz.
      destruct Hz as [->|Hz].
      * destruct (Htot y v) as [H|H]; [exact H | congruence].
      * rewrite Forall_forall in Hy. now apply Hy.
Qed.

Lemma list_sum_insert_key (f : K -> nat) (v : K) (l : list K) :
  list_sum (map f (insert_key K key_leb v l))
  = (f v + list_sum (map f l))%nat.
Proof.
  induction l as [|y l IH]; cbn [insert_key]; [reflexivity|].
  destruct (key_leb v y); [reflexivity|].
  cbn [map]. unfold list_sum in *. cbn [fold_right]. rewrite IH. lia.
Qed.

Lemma list_sum_sorted (f : K -> nat) (l : list K) :
  list_sum (map f (sorted K key_leb l)) = list_sum (map f l).
Proof.
  induction l as [|y l IH]; [reflexivity|].
  unfold sorted in *. cbn [fold_right].
  rewrite list_sum_insert_key, IH. reflexivity.
Qed.

End SegmentFacts.

(** X21. The segments of [seg_analysis] partition the rows by the value
    of the column: the labels are pairwise distinct, every row's value is
    a label, every segment holds at least one row, and the trade counts
    of the segments add up to the number of rows.  When the order is
    total and transitive the labels come in ascending order.  The column
    is one whose values compare equal exactly when they are the same. *)
Theorem segments_partition_rows (K : Type) (key_eqb key_leb : K -> K -> bool)
  (col : Enriched -> K) (setups : list Enriched) :
  (forall x y, key_eqb x y = true <-> x = y) ->
  let segs := seg_analysis K key_eqb key_leb setups col in
  NoDup (map fst segs) /\
  (forall e, In e setups -> In (col e) (map fst segs)) /\
  (forall v s, In (v, s) segs ->
     (1 <= Trades s)%nat /\
     Trades s = length (filter (fun e => key_eqb (col e) v) setups) /\
     exists e, In e setups /\ col e = v) /\
  list_sum (map (fun p => Trades (snd p)) segs) = length setups /\
  ((forall x y, key_leb x y = true \/ key_leb y x = true) ->
   (forall x y z, key_leb x y = true -> key_leb y z = true ->
                  key_leb x z = true) ->
   StronglySorted (fun x y => key_leb x y = true) (map fst segs)).
Proof.
  intros Heq segs.
  assert (Efst : map fst segs = sorted K key_leb
                                  (unique K key_eqb (map col setups))).
  { unfold segs, seg_analysis. rewrite map_map. cbn [fst]. apply map_id. }
  assert (Hin : forall v, In v (map fst segs) <->
                          exists e, In e setups /\ col e = v).
  { intro v. rewrite Efst, in_sorted, (in_unique K key_eqb Heq), in_map_iff.
    split; intros [e [A B]]; exists e; tauto. }
  split; [|split; [|split; [|split]]].
  - rewrite Efst. apply NoDup_sorted, (NoDup_unique K key_eqb Heq).
  - intros e He. apply Hin. now exists e.
  - intros v s Hvs.
    assert (Hv : In v (map fst segs))
      by (apply in_map_iff; now exists (v, s)).
    apply Hin in Hv. destruct Hv as [e [He Ev]].
    unfold segs, seg_analysis in Hvs. apply in_map_iff in Hvs.
    destruct Hvs as [v' [E _]]. inversion E; subst v' s. clear E.
    rewrite Trades_calc_stats.
    split; [|split; [reflexivity | now exists e]].
    assert (Hf : In e (filter (fun e0 => key_eqb (col e0) v) setups)).
    { apply filter_In. split; [exact He | now apply Heq]. }
    destruct (filter _ setups); [destruct Hf | cbn; lia].
  - unfold segs, seg_analysis. rewrite map_map. cbn [snd].
    rewrite (map_ext _ (fun v => length
               (filter (fun e => key_eqb (col e) v) setups)))
      by (intro v; apply Trades_calc_stats).
    rewrite list_sum_sorted.
    rewrite (segment_sizes K key_eqb Heq);
      [|apply (NoDup_unique K key_eqb Heq)].
    f_equal. apply forallb_filter_id. apply forallb_forall. intros e He.
    apply existsb_exists. exists (col e).
    split; [|now apply Heq].
    apply (in_unique K key_eqb Heq). now apply in_map.
  - intros Htot Htr. rewrite Efst. clear Efst Hin. unfold sorted.
    induction (unique K key_eqb (map col setups)) as [|v l IH];
      [constructor|].
    cbn [fold_right].
    apply insert_key_sorted; [exact Htot | exact Htr | exact IH].
Qed.

Lemma segments_partition_rows_witness :
  let rows := enrich_setups long_setups [] 720 (3 # 10) in
  let segs := seg_analysis Session session_eqb session_leb rows session in
  NoDup (map fst segs) /\
  list_sum (map (fun p => Trades (snd p)) segs) = length rows.
Proof.
  cbv zeta.
  assert (Heq : forall x y, session_eqb x y = true <-> x = y).
  { intros x y. unfold session_eqb. rewrite Nat.eqb_eq.
    destruct x, y; cbn; split; intro H; try reflexivity;
      try discriminate; try lia. }
  destruct (segments_partition_rows Session session_eqb session_leb session
              (enrich_setups long_setups [] 720 (3 # 10)) Heq)
    as (A & _ & _ & B & _).
  split; [exact A | exact B].
Defined.

(* ================================================================== *)
(** * Properties of the news label *)
(* ================================================================== *)

Lemma in_insert_q (x y : Q) (l : list Q) :
  In y (insert_q x l) <-> y = x \/ In y l.
Proof.
  induction l as [|z l IH]; cbn [insert_q].
  - cbn. intuition.
  - destruct (Qle_bool x z); cbn [In]; [intuition|].
    rewrite IH. intuition.
Qed.

Lemma insert_q_sorted (x : Q) (l : list Q) :
  StronglySorted Qle l -> StronglySorted Qle (insert_q x l).
Proof.
  induction 1 as [|y l Hl IH Hy]; cbn [insert_q].
  - repeat constructor.
  - destruct (Qle_bool x y) eqn:E; qprop.
    + constructor; [now constructor|].
      constructor; [exact E|].
      rewrite Forall_forall in *. intros z Hz. specialize (Hy z Hz). lra.
    + constructor; [exact IH|].
      apply Forall_forall. intros z Hz. apply in_insert_q in Hz.
      destruct Hz as [->|Hz]; [lra|].
      rewrite Forall_forall in Hy. now apply Hy.
Qed.

Lemma sort_q_sorted (l : list Q) : StronglySorted Qle (sort_q l).
Proof.
  induction l as [|x l IH]; [constructor|].
  unfold sort_q in *. cbn [fold_right]. now apply insert_q_sorted.
Qed.

Lemma in_sort_q (y : Q) (l : list Q) : In y (sort_q l) <-> In y l.
Proof.
  induction l as [|x l IH]; [reflexivity|].
  unfold sort_q in *. cbn [fold_right].
  rewrite in_insert_q, IH. cbn. intuition.
Qed.

Lemma filter_insert_q (p : Q -> bool) (x : Q) (l : list Q) :
  length (filter p (insert_q x l)) = length (filter p (x :: l)).
Proof.
  induction l as [|y l IH]; cbn [insert_q]; [reflexivity|].
  destruct (Qle_bool x y); [reflexivity|].
  cbn [filter] in *.
  destruct (p y), (p x); cbn [length] in *; lia.
Qed.

Lemma filter_sort_q (p : Q -> bool) (l : list Q) :
  length (filter p (sort_q l)) = length (filter p l).
Proof.
  induction l as [|x l IH]; [reflexivity|].
  unfold sort_q in *. cbn [fold_right].
  rewrite filter_insert_q. cbn [filter].
  destruct (p x); cbn [length]; lia.
Qed.

Lemma length_sort_q (l : list Q) : length (sort_q l) = length l.
Proof.
  induction l as [|x l IH]; [reflexivity|].
  unfold sort_q in *. cbn [fold_right length]. rewrite <- IH.
  generalize (fold_right insert_q [] l) as m. intro m.
  induction m as [|y m IHm]; cbn [insert_q]; [reflexivity|].
  destruct (Qle_bool x y); cbn [length]; lia.
Qed.

Lemma sorted_nth_le (s : list Q) :
  StronglySorted Qle s ->
  forall i j, (i <= j < length s)%nat -> nth i s 0 <= nth j s 0.
Proof.
  induction 1 as [|x s Hs IH Hx]; intros i j Hij; [cbn in Hij; lia|].
  destruct i as [|i], j as [|j]; cbn [nth length] in *.
  - lra.
  - rewrite Forall_forall in Hx. apply Hx. apply nth_In. lia.
  - lia.
  - apply IH. lia.
Qed.

Lemma filter_none {A : Type} (p : A -> bool) (l : list A) :
  (forall x, In x l -> p x = false) -> filter p l = [].
Proof.
  induction l as [|x l IH]; intro H; [reflexivity|].
  cbn [filter]. rewrite (H x (or_introl eq_refl)).
  apply IH. intros y Hy. apply H. now right.
Qed.

(** In an ascending list, the entries above a bound that the entry at
    [lo] does not exceed lie after [lo]. *)
Lemma sorted_count_above (s : list Q) (lo : nat) (q : Q) :
  StronglySorted Qle s -> (lo < length s)%nat -> nth lo s 0 <= q ->
  (length (filter (fun x => Qltb q x) s) <= length s - S lo)%nat.
Proof.
  intros Hs Hlo Hq.
  rewrite <- (firstn_skipn (S lo) s) at 1.
  rewrite filter_app, length_app.
  assert (E : filter (fun x => Qltb q x) (firstn (S lo) s) = []).
  { apply filter_none. intros x Hx.
    destruct (In_nth _ _ 0 Hx) as [i [Hi Ex]].
    rewrite length_firstn in Hi.
    rewrite nth_firstn in Ex.
    destruct (Nat.ltb_spec i (S lo)) as [Hlt|Hge]; [|lia].
    apply Qltb_ge. rewrite <- Ex.
    pose proof (sorted_nth_le s Hs i lo). 
    assert (Hle : nth i s 0 <= nth lo s 0) by (apply H; lia).
    lra. }
  rewrite E. cbn [length].
  pose proof (filter_length_le (fun x => Qltb q x) (skipn (S lo) s)).
  rewrite length_skipn in *. lia.
Qed.

(** The quantile of a non-empty series is a number, not below the order
    statistic at the floor of its position. *)
Lemma quantile_ge_order_stat (q : Q) (values : list Q) :
  values <> [] -> 0 <= q -> q <= 1 ->
  let n := length values in
  let lo := Z.to_nat (Qfloor (inject_Z (Z.of_nat (n - 1)) * q)) in
  exists x, quantile q values = Fin x /\ (lo < n)%nat /\
            nth lo (sort_q values) 0 <= x.
Proof.
  intros Hne Hq0 Hq1 n lo.
  assert (Hn : (1 <= n)%nat).
  { unfold n. destruct values; [congruence | cbn; lia]. }
  set (h := inject_Z (Z.of_nat (n - 1)) * q). fold h in lo.
  assert (Eq : quantile q values
               = Fin (nth lo (sort_q values) 0
                      + (nth (Nat.min (S lo) (n - 1)) (sort_q values) 0
                         - nth lo (sort_q values) 0)
                        * (h - inject_Z (Qfloor h)))).
  { unfold lo, h, n. rewrite <- (length_sort_q values).
    destruct values; [congruence | reflexivity]. }
  rewrite Eq.
  assert (Hm : 0 <= inject_Z (Z.of_nat (n - 1))).
  { change 0 with (inject_Z 0). rewrite <- Zle_Qle. lia. }
  assert (Hh0 : 0 <= h) by (unfold h; nra).
  assert (Hh1 : h <= inject_Z (Z.of_nat (n - 1))) by (unfold h; nra).
  assert (Hf0 : (0 <= Qfloor h)%Z).
  { change 0%Z with (Qfloor 0). now apply Qfloor_resp_le. }
  assert (Hf1 : (Qfloor h <= Z.of_nat (n - 1))%Z).
  { rewrite <- (Qfloor_Z (Z.of_nat (n - 1))). now apply Qfloor_resp_le. }
  assert (Hlo : (lo <= n - 1)%nat) by (unfold lo; lia).
  fold lo.
  eexists. split; [reflexivity|]. split; [lia|].
  pose proof (Qfloor_le h) as Hfl.
  assert (Hab : nth lo (sort_q values) 0
                <= nth (Nat.min (S lo) (n - 1)) (sort_q values) 0).
  { apply sorted_nth_le; [apply sort_q_sorted|].
    rewrite length_sort_q. fold n. lia. }
  nra.
Qed.

Lemma loc_In (s : list (Z * Q)) (d : Z) (x : Q) :
  NoDup (map fst s) -> In (d, x) s -> loc s d = Some x.
Proof.
  induction s as [|[d' x'] s IH]; intros Hnd Hin; [destruct Hin|].
  cbn [map fst] in Hnd. inversion Hnd as [|? ? Hd' Hnd']; subst.
  cbn [loc]. destruct Hin as [E|Hin].
  - inversion E; subst. now rewrite Z.eqb_refl.
  - destruct (Z.eqb_spec d' d) as [->|N].
    + exfalso. apply Hd'. apply in_map_iff. now exists (d, x).
    + now apply IH.
Qed.

Lemma loc_None (s : list (Z * Q)) (d : Z) :
  ~ In d (map fst s) -> loc s d = None.
Proof.
  induction s as [|[d' x'] s IH]; intro H; [reflexivity|].
  cbn [loc map fst In] in *.
  destruct (Z.eqb_spec d' d) as [E|N]; [tauto|]. apply IH. tauto.
Qed.

Lemma filter_length_mono {A : Type} (p p' : A -> bool) (l : list A) :
  (forall x, In x l -> p x = true -> p' x = true) ->
  (length (filter p l) <= length (filter p' l))%nat.
Proof.
  induction l as [|x l IH]; intro H; [cbn; lia|].
  assert (IH' := IH (fun y Hy => H y (or_intror Hy))).
  pose proof (H x (or_introl eq_refl)) as Hx.
  cbn [filter]. destruct (p x) eqn:E.
  - rewrite (Hx eq_refl). cbn [length]. lia.
  - destruct (p' x); cbn [length]; lia.
Qed.

Lemma filter_map_length {A B : Type} (f : A -> B) (p : B -> bool)
  (l : list A) :
  length (filter p (map f l)) = length (filter (fun a => p (f a)) l).
Proof.
  induction l as [|a l IH]; [reflexivity|].
  cbn [map filter]. destruct (p (f a)); cbn [length]; lia.
Qed.

Lemma floor_85_percent (m : nat) :
  Z.to_nat (Qfloor (inject_Z (Z.of_nat m) * (85 # 100)))
  = (85 * m / 100)%nat.
Proof.
  unfold Qfloor, Qmult, inject_Z. cbn [Qnum Qden].
  change (Z.pos (1 * 100)) with 100%Z.
  rewrite <- (Nat2Z.id (85 * m / 100)). f_equal.
  rewrite Nat2Z.inj_div, Nat2Z.inj_mul. cbn [Z.of_nat]. f_equal. lia.
Qed.

(** Days above the 0.85 quantile of a date-indexed series, whatever the
    event dates. *)
Lemma high_volatility_count (dv : list (Z * Q)) (event_dates : list Z) :
  NoDup (map fst dv) ->
  (length (filter (fun d => is_high_volatility
                              (classify_news_on d event_dates (Some dv)))
                  (map fst dv))
   <= length dv - 1 - 85 * (length dv - 1) / 100)%nat.
Proof.
  intro Hnd. destruct dv as [|p0 dv0] eqn:Edv; [cbn; lia|].
  rewrite <- Edv in *.
  assert (Hne : map snd dv <> []) by (rewrite Edv; discriminate).
  destruct (quantile_ge_order_stat (85 # 100) (map snd dv) Hne)
    as [x0 [Ex0 [Hlo Hq]]]; [lra | lra |].
  rewrite length_map in Hlo. rewrite length_map, floor_85_percent in Hq.
  rewrite floor_85_percent in Hlo.
  rewrite filter_map_length.
  etransitivity.
  - apply (filter_length_mono _ (fun p => Qltb x0 (snd p))).
    intros [d x] Hin H. cbn [fst snd] in *.
    unfold classify_news_on in H.
    destruct (existsb (Z.eqb d) event_dates); [discriminate|].
    rewrite (loc_In dv d x Hnd Hin), Ex0 in H.
    unfold fl_gtb, fl_ltb in H.
    destruct (Qltb x0 x); [reflexivity | discriminate].
  - rewrite <- (filter_map_length snd (fun x => Qltb x0 x)).
    rewrite <- filter_sort_q.
    pose proof (sorted_count_above (sort_q (map snd dv))
                  (85 * (length dv - 1) / 100) x0
                  (sort_q_sorted _)) as H.
    rewrite length_sort_q, length_map in H.
    specialize (H Hlo Hq). lia.
Qed.

Lemma daily_range_dates (f : Z -> list (Z * Q)) (c : Z) (ks : list Z) :
  (forall k p, In p (f k) -> f k = [p] /\ fst p = (k + c)%Z) ->
  StronglySorted Z.lt ks ->
  StronglySorted Z.lt (map fst (flat_map f ks)).
Proof.
  intros Hf. induction 1 as [|k ks Hs IH Hk]; [constructor|].
  cbn [flat_map]. destruct (f k) as [|p l] eqn:E; [exact IH|].
  destruct (Hf k p) as [E1 E2]; [rewrite E; now left|].
  rewrite E in E1. inversion E1; subst l. cbn [app map].
  constructor; [exact IH|].
  apply Forall_forall. intros t Ht. apply in_map_iff in Ht.
  destruct Ht as [p' [<- Hp']]. apply in_flat_map in Hp'.
  destruct Hp' as [k' [Hk' Hp']].
  destruct (Hf k' p' Hp') as [_ E3].
  rewrite Forall_forall in Hk. specialize (Hk k' Hk'). lia.
Qed.

Lemma daily_range_NoDup (df_1h : list Bar) :
  NoDup (map fst (daily_range df_1h)).
Proof.
  apply StronglySorted_lt_NoDup.
  unfold daily_range. cbv zeta.
  apply daily_range_dates with (c := 719163%Z).
  - intros k p Hp. unfold daily_range_of in *.
    destruct (filter _ (sort_by_ts df_1h)) as [|r rest]; [destruct Hp|].
    destruct Hp as [<-|[]]. split; reflexivity.
  - destruct (sort_by_ts df_1h); [constructor | apply zrange_sorted].
Qed.

(** X22. With the daily range series that [enrich_setups] builds from
    the 1h frame, the dates are pairwise distinct and, whatever the event
    dates, at most [n - 1 - floor(0.85 * (n - 1))] of the [n] days are
    labelled High Volatility; a day whose range is the least of all never
    is; and a timestamp on a day that is neither an event date nor a day
    of the series is labelled Normal. *)
Theorem high_volatility_days_bounded (df_1h : list Bar)
  (event_dates : list Z) :
  let dv := daily_range df_1h in
  let n := length dv in
  NoDup (map fst dv) /\
  (length (filter (fun d => is_high_volatility
                              (classify_news_on d event_dates (Some dv)))
                  (map fst dv))
   <= n - 1 - 85 * (n - 1) / 100)%nat /\
  (forall d x,
     In (d, x) dv -> (forall y, In y (map snd dv) -> x <= y) ->
     classify_news_on d event_dates (Some dv) <> HighVolatility) /\
  (forall dt,
     ~ In (date_of dt) (map fst dv) -> ~ In (date_of dt) event_dates ->
     classify_news dt event_dates (Some dv) = Normal).
Proof.
  intros dv n. pose proof (daily_range_NoDup df_1h) as Hnd. fold dv in Hnd.
  split; [exact Hnd|]. split; [now apply high_volatility_count|]. split.
  - intros d x Hin Hmin. unfold classify_news_on.
    destruct (existsb (Z.eqb d) event_dates); [discriminate|].
    rewrite (loc_In dv d x Hnd Hin).
    assert (Hne : map snd dv <> []).
    { destruct dv; [destruct Hin | discriminate]. }
    destruct (quantile_ge_order_stat (85 # 100) (map snd dv) Hne)
      as [x0 [Ex0 [Hlo Hq]]]; [lra | lra |].
    rewrite Ex0. unfold fl_gtb, fl_ltb.
    assert (Hx : x <= x0).
    { apply Qle_trans with (2 := Hq). apply Hmin. apply in_sort_q.
      apply nth_In. now rewrite length_sort_q. }
    destruct (Qltb x0 x) eqn:E; [|discriminate].
    apply Qltb_lt in E. lra.
  - intros dt Hd He. unfold classify_news, classify_news_on.
    destruct (existsb (Z.eqb (date_of dt)) event_dates) eqn:E.
    + exfalso. apply existsb_exists in E. destruct E as [e [Hin Ee]].
      apply Z.eqb_eq in Ee. apply He. now rewrite Ee.
    + now rewrite (loc_None dv _ Hd).
Qed.

(* ================================================================== *)
(** * Properties of the follow-through candles *)
(* ================================================================== *)

Lemma round_half_even_mono (x y : Q) :
  x <= y -> (round_half_even x <= round_half_even y)%Z.
Proof.
  intro H.
  assert (F : (Qfloor x <= Qfloor y)%Z) by now apply Qfloor_resp_le.
  destruct (Z.eq_dec (Qfloor x) (Qfloor y)) as [E|N].
  - unfold round_half_even. cbv zeta. rewrite E.
    destruct (Qcompare (x - inject_Z (Qfloor y)) (1 # 2)) eqn:Cx;
      destruct (Qcompare (y - inject_Z (Qfloor y)) (1 # 2)) eqn:Cy;
      first [apply Qeq_alt in Cx | apply Qlt_alt in Cx
            | apply Qgt_alt in Cx];
      first [apply Qeq_alt in Cy | apply Qlt_alt in Cy
            | apply Qgt_alt in Cy];
      try (destruct (Z.even (Qfloor y))); try lia; exfalso; lra.
  - assert (Hx : (round_half_even x <= Qfloor x + 1)%Z).
    { unfold round_half_even. cbv zeta.
      destruct (Qcompare _ _); [destruct (Z.even _)| |]; lia. }
    assert (Hy : (Qfloor y <= round_half_even y)%Z).
    { unfold round_half_even. cbv zeta.
      destruct (Qcompare _ _); [destruct (Z.even _)| |]; lia. }
    lia.
Qed.

Lemma py_round_mono (x y : Q) (n : nat) :
  x <= y -> py_round x n <= py_round y n.
Proof.
  intro H. unfold py_round. pose proof (pow10_pos n) as P.
  assert (M : (round_half_even (x * pow10 n)
               <= round_half_even (y * pow10 n))%Z).
  { apply round_half_even_mono. nra. }
  rewrite Zle_Qle in M.
  unfold Qdiv. apply Qmult_le_compat_r; [exact M|].
  apply Qlt_le_weak, Qinv_lt_0_compat, P.
Qed.

Lemma py_round_0 (n : nat) : py_round 0 n == 0.
Proof.
  unfold py_round.
  rewrite (round_half_even_comp (0 * pow10 n) 0) by ring.
  change (round_half_even 0) with 0%Z. change (inject_Z 0) with 0.
  pose proof (pow10_pos n). field. lra.
Qed.

Section FollowThrough.

Variables (d : Direction) (entry sl rk : Q).

Hypothesis risk_positive : 0 < rk.

(** The running excursions never decrease and dominate every candle
    seen. *)
Lemma excursions_dominate (w : list Row) :
  forall st,
    let st' := fold_left (sim_step d entry sl rk) w st in
    Sim.mfe st <= Sim.mfe st' /\ Sim.mae st <= Sim.mae st' /\
    forall c, In c w ->
      fav_of d entry rk c <= Sim.mfe st' /\ adv_of d entry rk c <= Sim.mae st'.
Proof.
  induction w as [|c w IH]; intro st; cbn [fold_left].
  - split; [lra|]. split; [lra|]. intros c [].
  - cbv zeta. specialize (IH (sim_step d entry sl rk st c)).
    cbv zeta in IH. destruct IH as (M1 & M2 & M3).
    assert (S1 : Sim.mfe (sim_step d entry sl rk st c)
                 = py_max (Sim.mfe st) (fav_of d entry rk c)) by reflexivity.
    assert (S2 : Sim.mae (sim_step d entry sl rk st c)
                 = py_max (Sim.mae st) (adv_of d entry rk c)) by reflexivity.
    rewrite S1 in M1. rewrite S2 in M2.
    destruct (py_max_le (Sim.mfe st) (fav_of d entry rk c)) as [A1 A2].
    destruct (py_max_le (Sim.mae st) (adv_of d entry rk c)) as [B1 B2].
    split; [lra|]. split; [lra|].
    intros c' [<-|Hc']; [split; lra | now apply M3].
Qed.

(** What [candle_result] reports for a candle of the lookahead window,
    against the excursions of the whole window. *)
Lemma candle_result_in_window (w : list Row) (c : Row)
  (cr mf ma : Q) (fo : bool) :
  In c w ->
  candle_result (Some c) entry rk d = CandleStats cr mf ma fo ->
  let st := fold_left (sim_step d entry sl rk) w Sim.init in
  0 <= mf /\ 0 <= ma /\
  mf <= py_round (Sim.mfe st) 3 /\ ma <= py_round (Sim.mae st) 3 /\
  fo = closed_beyond_entry d entry (bar c) /\
  (0 < cr -> fo = true) /\
  (well_formed (bar c) -> cr <= mf).
Proof.
  intros Hin Hres st.
  destruct (excursions_dominate w Sim.init) as (M1 & M2 & M3).
  fold st in M1, M2, M3. cbn [Sim.mfe Sim.mae Sim.init] in M1, M2.
  destruct (M3 c Hin) as [F A]. clear M3.
  pose proof (py_round_0 3) as Z0.
  assert (Emf : mf = py_round (py_max 0 (fav_of d entry rk c)) 3).
  { unfold fav_of. destruct d; cbn in Hres; inversion Hres; reflexivity. }
  assert (Ema : ma = py_round (py_max 0 (adv_of d entry rk c)) 3).
  { unfold adv_of. destruct d; cbn in Hres; inversion Hres; reflexivity. }
  assert (Efo : fo = closed_beyond_entry d entry (bar c)).
  { destruct d; cbn in Hres; inversion Hres; reflexivity. }
  destruct (py_max_le 0 (fav_of d entry rk c)) as [P1 P2].
  destruct (py_max_le 0 (adv_of d entry rk c)) as [P3 P4].
  pose proof (py_round_mono 0 (py_max 0 (fav_of d entry rk c)) 3 P1) as R1.
  pose proof (py_round_mono 0 (py_max 0 (adv_of d entry rk c)) 3 P3) as R2.
  split; [rewrite Emf; lra|].
  split; [rewrite Ema; lra|].
  split; [rewrite Emf; apply py_round_mono; apply py_max_lub; lra|].
  split; [rewrite Ema; apply py_round_mono; apply py_max_lub; lra|].
  split; [exact Efo|].
  split.
  - intro Hcr. rewrite Efo.
    destruct (closed_beyond_entry d entry (bar c)) eqn:E; [reflexivity|].
    exfalso.
    assert (Hx : cr <= py_round 0 3).
    { destruct d; cbn in Hres, E; inversion Hres; apply py_round_mono;
        apply Qltb_ge in E; apply Qle_shift_div_r; lra. }
    lra.
  - intros [W1 W2]. rewrite Emf.
    destruct (py_max_le (Open (bar c)) (Close (bar c))) as [_ C1].
    destruct (py_min_le (Open (bar c)) (Close (bar c))) as [_ C2].
    assert (Hx : exists x, cr = py_round x 3 /\ x <= fav_of d entry rk c).
    { unfold fav_of. destruct d; cbn in Hres; inversion Hres;
        eexists; (split; [reflexivity|]);
        unfold Qdiv; apply Qmult_le_compat_r;
        try (apply Qlt_le_weak, Qinv_lt_0_compat, risk_positive); lra. }
    destruct Hx as [x [-> Hx]]. apply py_round_mono. lra.
Qed.

End FollowThrough.

Lemma in_lookahead (rows : list Row) (i k : nat) (r : Row) :
  (k < 20)%nat -> nth_error rows (i + 3 + k) = Some r ->
  In r (lookahead rows i).
Proof.
  intros Hk H.
  assert (Hlen : (i + 3 + k < length rows)%nat).
  { apply nth_error_Some. congruence. }
  apply (nth_error_In _ k). unfold lookahead.
  rewrite nth_error_firstn.
  destruct (Nat.ltb_spec k (Nat.min (i + 23) (length rows) - (i + 3)));
    [|lia].
  rewrite nth_error_skipn. exact H.
Qed.

(** The candles C4, C5 and C6 of an appended setup. *)
Lemma scan_anchor_followers (rows : list Row) (t m : Q) (i : nat)
  (s : Setup) :
  (i + 5 < length rows)%nat ->
  scan_anchor rows t m i = Ok (Some s) ->
  exists r1 r2 r3 r4 r5 r6 d,
    nth_error rows (i + 3) = Some r4 /\ nth_error rows (i + 4) = Some r5 /\
    nth_error rows (i + 5) = Some r6 /\
    0 < risk_of d (Close (bar r3)) (stop_of d r2) /\
    build_setup rows i r1 r2 r3 r4 (Some r5) (Some r6) d (Close (bar r3))
                (stop_of d r2)
                (risk_of d (Close (bar r3)) (stop_of d r2)) = Ok s.
Proof.
  intros Hlen H. unfold scan_anchor in H.
  apply bind_Ok in H. destruct H as [r1 [_ H]].
  apply bind_Ok in H. destruct H as [r2 [_ H]].
  apply bind_Ok in H. destruct H as [r3 [_ H]].
  apply bind_Ok in H. destruct H as [r4 [H4 H]].
  apply bind_Ok in H. destruct H as [c5 [H5 H]].
  apply bind_Ok in H. destruct H as [c6 [H6 H]].
  apply iloc_Ok in H4.
  unfold iloc_opt in H5, H6.
  destruct (Nat.ltb_spec (i + 4) (length rows)); [|lia].
  destruct (Nat.ltb_spec (i + 5) (length rows)); [|lia].
  apply bind_Ok in H5. destruct H5 as [r5 [I5 E5]].
  apply bind_Ok in H6. destruct H6 as [r6 [I6 E6]].
  apply iloc_Ok in I5, I6.
  inversion E5; subst c5. inversion E6; subst c6. clear E5 E6.
  repeat match type of H with
         | (if ?b then _ else _) = _ => destruct b; [discriminate|]
         end.
  destruct (breakout_direction r2 r3) as [d|]; [|discriminate].
  destruct (Qle_bool (risk_of d (Close (bar r3)) (stop_of d r2)) 0) eqn:E;
    [discriminate|].
  apply bind_Ok in H. destruct H as [s' [Hb H]]. inversion H; subst s'.
  exists r1, r2, r3, r4, r5, r6, d.
  apply Qle_bool_false in E.
  repeat (split; [assumption|]). exact Hb.
Qed.

Lemma build_setup_followers (rows : list Row) (i : nat)
  (r1 r2 r3 r4 r5 r6 : Row) (d : Direction) (entry sl rk : Q) (s : Setup) :
  build_setup rows i r1 r2 r3 r4 (Some r5) (Some r6) d entry sl rk = Ok s ->
  forall e, In e (follow_through s) ->
    exists r cr mf ma fo,
      In r [r4; r5; r6] /\
      candle_result (Some r) entry rk d = CandleStats cr mf ma fo /\
      e = (Some (bar r), Some cr, mf, ma, Some fo).
Proof.
  unfold build_setup. rewrite simulate_spec. intro H.
  apply bind_Ok in H. destruct H as [w1 [_ H]].
  apply bind_Ok in H. destruct H as [w2 [_ H]].
  destruct (candle_result_Some r4 entry rk d) as [a4 [b4 [e4 [f4 E4]]]].
  destruct (candle_result_Some r5 entry rk d) as [a5 [b5 [e5 [f5 E5]]]].
  destruct (candle_result_Some r6 entry rk d) as [a6 [b6 [e6 [f6 E6]]]].
  rewrite E4, E5, E6 in H.
  cbn [bind get_mfe_r get_mae_r get_close_r get_followed option_map] in H.
  inversion H; subst s; clear H.
  unfold follow_through.
  cbn [c4 c5 c6 c4_close_r c4_mfe_r c4_mae_r c4_followed
       c5_close_r c5_mfe_r c5_mae_r c5_followed
       c6_close_r c6_mfe_r c6_mae_r c6_followed].
  intros e [<-|[<-|[<-|[]]]].
  - exists r4, a4, b4, e4, f4. split; [now left|]. now split.
  - exists r5, a5, b5, e5, f5. split; [right; now left|]. now split.
  - exists r6, a6, b6, e6, f6. split; [right; right; now left|]. now split.
Qed.

(** X23. The follow-through columns of every setup that [detect_setups]
    returns on a well-formed series: C4, C5 and C6 all exist (the loop
    leaves room for them), each [mfe_r] and [mae_r] is not negative and
    exceeds the excursion of the whole lookahead window by no more than
    its own rounding to three decimals, each [close_r] is at most the
    candle's [mfe_r], [followed] tells whether
    the candle closed beyond the entry in the direction of the trade, and
    a positive [close_r] comes with [followed]. *)
Theorem follow_through_consistent (df : list Bar) (t m : Q)
  (setups : list Setup) (s : Setup) :
  Forall well_formed df ->
  detect_setups df t m = Ok setups -> In s setups ->
  forall ob ocr mf ma ofo,
    In (ob, ocr, mf, ma, ofo) (follow_through s) ->
    exists b cr fo,
      ob = Some b /\ In b df /\ ocr = Some cr /\ ofo = Some fo /\
      0 <= mf /\ 0 <= ma /\ cr <= mf /\
      mf <= max_favorable_r s + (1 # 2) / pow10 3
            + slack * (1 + max_favorable_r s) /\
      ma <= max_adverse_r s + (1 # 2) / pow10 3
            + slack * (1 + max_adverse_r s) /\
      fo = closed_beyond_entry (direction s) (entry_price s) b /\
      (0 < cr -> fo = true).
Proof.
  intros Hwf Hdet Hin ob ocr mf ma ofo He.
  destruct (accepted_setup df t m setups s Hdet Hin) as [i [Hi Hscan]].
  assert (Hlen : (i + 5 < length (frame df))%nat)
    by (rewrite length_frame; lia).
  destruct (scan_anchor_followers _ _ _ _ _ Hlen Hscan)
    as (r1 & r2 & r3 & r4 & r5 & r6 & d & H4 & H5 & H6 & Hrisk & Hb).
  destruct (build_setup_followers _ _ _ _ _ _ _ _ _ _ _ _ _ Hb _ He)
    as (r & cr & mf' & ma' & fo & Hr & Hres & E).
  inversion E; subst ob ocr mf' ma' ofo. clear E.
  destruct (build_setup_outcome _ _ _ _ _ _ _ _ _ _ _ _ _ Hb)
    as (_ & _ & _ & _ & Emfe & Emae).
  destruct (build_setup_fields _ _ _ _ _ _ _ _ _ _ _ _ _ Hb)
    as (_ & _ & _ & _ & _ & Ed & Ee & _).
  assert (Hb_in : In (bar r) df).
  { rewrite <- (map_bar_frame df). apply in_map.
    destruct Hr as [<-|[<-|[<-|[]]]]; eapply nth_error_In; eassumption. }
  assert (Hwin : In r (lookahead (frame df) i)).
  { destruct Hr as [<-|[<-|[<-|[]]]].
    - apply (in_lookahead _ i 0); [lia|]. now rewrite Nat.add_0_r.
    - apply (in_lookahead _ i 1); [lia|].
      now replace (i + 3 + 1)%nat with (i + 4)%nat by lia.
    - apply (in_lookahead _ i 2); [lia|].
      now replace (i + 3 + 2)%nat with (i + 5)%nat by lia. }
  destruct (candle_result_in_window d (Close (bar r3)) (stop_of d r2)
              (risk_of d (Close (bar r3)) (stop_of d r2)) Hrisk
              (lookahead (frame df) i) r cr mf ma fo Hwin Hres)
    as (P1 & P2 & P3 & P4 & P5 & P6 & P7).
  assert (Hround : forall x y, 0 <= y -> x <= py_round y 3 ->
                               x <= y + (1 # 2) / pow10 3 + slack * (1 + y)).
  { intros x y Hy H. pose proof (py_round_error y 3) as Er.
    apply Qabs_Qle_condition in Er. destruct Er as [_ Er].
    assert (0 < slack) by reflexivity. nra. }
  apply Hround in P3; [|exact (proj1 (excursions_dominate d (Close (bar r3))
                                        (stop_of d r2)
                                        (risk_of d (Close (bar r3))
                                                   (stop_of d r2))
                                        (lookahead (frame df) i) Sim.init))].
  apply Hround in P4; [|exact (proj1 (proj2 (excursions_dominate d
                                        (Close (bar r3)) (stop_of d r2)
                                        (risk_of d (Close (bar r3))
                                                   (stop_of d r2))
                                        (lookahead (frame df) i)
                                        Sim.init)))].
  exists (bar r), cr, fo.
  rewrite Emfe, Emae, Ed, Ee.
  rewrite Forall_forall in Hwf.
  repeat (split; [first [reflexivity | assumption | now apply P7, Hwf]|]).
  exact P6.
Qed.

Lemma follow_through_consistent_witness :
  Forall well_formed long_series /\
  detect_setups long_series (65 # 100) (13 # 10) = Ok long_setups /\
  Forall (fun s => c4_mfe_r s
                   <= max_favorable_r s + (1 # 2) / pow10 3
                      + slack * (1 + max_favorable_r s) /\
                   c5 s <> None) long_setups.
Proof.
  assert (W : Forall well_formed long_series)
    by (apply forallb_well_formed; vm_compute; reflexivity).
  assert (E : detect_setups long_series (65 # 100) (13 # 10)
              = Ok long_setups) by (vm_compute; reflexivity).
  split; [exact W|]. split; [exact E|].
  apply Forall_forall. intros s Hs. split.
  - destruct (follow_through_consistent _ _ _ _ s W E Hs
                (Some (c4 s)) (c4_close_r s) (c4_mfe_r s) (c4_mae_r s)
                (c4_followed s))
      as (b & cr & fo & _ & _ & _ & _ & _ & _ & _ & H & _);
      [now left | exact H].
  - destruct (follow_through_consistent _ _ _ _ s W E Hs
                (c5 s) (c5_close_r s) (c5_mfe_r s) (c5_mae_r s)
                (c5_followed s))
      as (b & cr & fo & H & _); [right; now left | congruence].
Defined.
